(** * Bio.PDB.Entity in Rocq

    A shallow embedding of [Bio/PDB/Entity.py]: the generic container
    [Entity] of the structure / model / chain / residue hierarchy and the
    [DisorderedEntityWrapper] that groups alternative entities.

    Python objects live in a heap (an arena indexed by location); a method
    call [o.m(args)] becomes a function that finds [o] in the heap,
    dispatches on the kind of object found, and returns the new heap
    together with the result or the exception raised.  Recursion over the
    object graph (which Python does not bound) takes a [fuel] argument. *)

From stdpp Require Import base tactics option numbers list strings.
From Stdlib Require Import ZArith Lia.

#[local] Set Warnings "-clear-no-such-hyp".

Open Scope Z_scope.
Open Scope nat_scope.

(** ** Identifiers

    The ids of the four levels: a string (structure, chain), an integer
    (model) or the residue triple (hetero flag, sequence number, insertion
    code). *)

Inductive pyid : Type :=
  | IdStr (s : string)
  | IdInt (z : Z)
  | IdRes (het : string) (seq : Z) (icode : string).

#[export] Instance pyid_eq_dec : EqDecision pyid.
Proof. solve_decision. Defined.

(** Exceptions raised by the module, and by the interpreter on its behalf. *)
Inductive exn : Type :=
  | PDBConstructionException
  | KeyError
  | TypeError
  | AttributeError
  | ValueError
  | IndexError
  | NotImplementedError
  | AssertionError.

#[export] Instance exn_eq_dec : EqDecision exn.
Proof. solve_decision. Defined.

(** Result of a computation that only reads the heap.  [Diverge] is "fuel
    exhausted"; [Undef] is a step outside this development: a reference
    that is not in the heap, or a call into code that is not in
    Entity.py. *)
Inductive res (A : Type) : Type :=
  | Ok (a : A)
  | Raise (e : exn)
  | Diverge
  | Undef.
Arguments Ok {A} a.
Arguments Raise {A} e.
Arguments Diverge {A}.
Arguments Undef {A}.

Definition rbind {A B} (m : res A) (k : A → res B) : res B :=
  match m with
  | Ok a => k a
  | Raise e => Raise e
  | Diverge => Diverge
  | Undef => Undef
  end.

Notation "'let!' x ':=' m 'in' k" := (rbind m (λ x, k))
  (at level 10, x name, m at level 100, k at level 200).

(** ** Python dictionaries

    A [dict] keeps its keys in insertion order: assignment to a key that is
    present replaces the value in place, assignment to a new key appends. *)

Abbreviation dict V := (list (pyid * V)) (only parsing).

Fixpoint dict_get {V} (k : pyid) (d : dict V) : option V :=
  match d with
  | [] => None
  | (k', v) :: d' => if decide (k = k') then Some v else dict_get k d'
  end.

Definition dict_mem {V} (k : pyid) (d : dict V) : bool :=
  bool_decide (is_Some (dict_get k d)).

Fixpoint dict_set {V} (k : pyid) (v : V) (d : dict V) : dict V :=
  match d with
  | [] => [(k, v)]
  | (k', v') :: d' =>
      if decide (k = k') then (k, v) :: d' else (k', v') :: dict_set k v d'
  end.

Fixpoint dict_remove {V} (k : pyid) (d : dict V) : dict V :=
  match d with
  | [] => []
  | (k', v') :: d' =>
      if decide (k = k') then d' else (k', v') :: dict_remove k d'
  end.

(** [del d[k]]: [None] stands for the [KeyError]. *)
Definition dict_del {V} (k : pyid) (d : dict V) : option (dict V) :=
  if dict_mem k d then Some (dict_remove k d) else None.

Definition dict_keys {V} (d : dict V) : list pyid := d.*1.
Definition dict_values {V} (d : dict V) : list V := d.*2.

(** ** Objects and the heap *)

Abbreviation loc := nat (only parsing).

(** The concrete subclasses of [Entity]; [level] is the class attribute
    each of them fixes. *)
Inductive ecls : Type := Structure | Model | Chain | Residue.

#[export] Instance ecls_eq_dec : EqDecision ecls.
Proof. solve_decision. Defined.

Inductive level : Type := LA | LR | LC | LM | LS.

#[export] Instance level_eq_dec : EqDecision level.
Proof. solve_decision. Defined.

Definition cls_level (c : ecls) : level :=
  match c with
  | Structure => LS
  | Model => LM
  | Chain => LC
  | Residue => LR
  end.

(** Floating-point values are not interpreted: a value is carried as the
    integer of its bit pattern, and the numeric kernels ([np.average], the
    rigid-body map of [transform]) are arguments of the functions that call
    them. *)
Definition float : Type := Z.
Definition coord : Type := float * float * float.

(** [Entity.__init__]: the attributes of an entity.  [xtra] is a reference
    to a dictionary object of the heap. *)
Record Entity : Type := mkEntity {
  cls : ecls;
  _id : pyid;
  full_id : option (list pyid);
  parent : option loc;
  child_list : list loc;
  child_dict : dict loc;
  xtra : loc
}.

(** Modelled from the spec: Bio/PDB/Atom.py is not part of the sources.  An
    atom is a leaf with an id, a parent reference, a coordinate and a mass;
    its level is "A". *)
Record Atom : Type := mkAtom {
  a_id : pyid;
  a_parent : option loc;
  a_coord : coord;
  a_mass : float
}.

(** [DisorderedEntityWrapper.__init__]. *)
Record Disordered : Type := mkDisordered {
  d_id : pyid;
  d_child_dict : dict loc;
  selected_child : option loc;
  d_parent : option loc
}.

Inductive pyobj : Type :=
  | OEntity (e : Entity)
  | OAtom (a : Atom)
  | ODisordered (w : Disordered)
  | ODict (d : dict pyid).

Abbreviation heap := (list pyobj) (only parsing).

(** Result of a computation that may change the heap: the heap is returned
    on normal return and on an exception alike, so that what an operation
    did before it raised stays visible. *)
Inductive outcome (A : Type) : Type :=
  | Ret (a : A) (h : heap)
  | Exc (e : exn) (h : heap)
  | Loop
  | Stuck.
Arguments Ret {A} a h.
Arguments Exc {A} e h.
Arguments Loop {A}.
Arguments Stuck {A}.

Definition bind {A B} (m : outcome A) (k : A → heap → outcome B) : outcome B :=
  match m with
  | Ret a h => k a h
  | Exc e h => Exc e h
  | Loop => Loop
  | Stuck => Stuck
  end.

Notation "'let*' x , h ':=' m 'in' k" := (bind m (λ x h, k))
  (at level 10, x name, h name, m at level 100, k at level 200).

(** A read-only computation run in heap [h]. *)
Definition lift {A} (r : res A) (h : heap) : outcome A :=
  match r with
  | Ok a => Ret a h
  | Raise e => Exc e h
  | Diverge => Loop
  | Undef => Stuck
  end.

(** [try: m except AttributeError: pass] *)
Definition except_AttributeError (m : outcome unit) : outcome unit :=
  match m with
  | Exc AttributeError h => Ret tt h
  | r => r
  end.

(** [for x in xs: body(x)] *)
Fixpoint for_each (body : loc → heap → outcome unit) (xs : list loc)
    (h : heap) : outcome unit :=
  match xs with
  | [] => Ret tt h
  | x :: xs' => let* _u , h1 := body x h in for_each body xs' h1
  end.

(** Attribute updates. *)
Definition with_full_id (v : option (list pyid)) (e : Entity) : Entity :=
  mkEntity (cls e) (_id e) v (parent e) (child_list e) (child_dict e) (xtra e).
Definition with_parent (v : option loc) (e : Entity) : Entity :=
  mkEntity (cls e) (_id e) (full_id e) v (child_list e) (child_dict e) (xtra e).
Definition with_id (v : pyid) (e : Entity) : Entity :=
  mkEntity (cls e) v (full_id e) (parent e) (child_list e) (child_dict e) (xtra e).
Definition with_children (l : list loc) (d : dict loc) (e : Entity) : Entity :=
  mkEntity (cls e) (_id e) (full_id e) (parent e) l d (xtra e).
Definition with_xtra (x : loc) (e : Entity) : Entity :=
  mkEntity (cls e) (_id e) (full_id e) (parent e) (child_list e) (child_dict e) x.

Definition a_with_parent (v : option loc) (a : Atom) : Atom :=
  mkAtom (a_id a) v (a_coord a) (a_mass a).
Definition a_with_coord (c : coord) (a : Atom) : Atom :=
  mkAtom (a_id a) (a_parent a) c (a_mass a).

Definition d_with_parent (v : option loc) (w : Disordered) : Disordered :=
  mkDisordered (d_id w) (d_child_dict w) (selected_child w) v.
Definition d_with_selected (s : option loc) (w : Disordered) : Disordered :=
  mkDisordered (d_id w) (d_child_dict w) s (d_parent w).
Definition d_with_child_dict (d : dict loc) (w : Disordered) : Disordered :=
  mkDisordered (d_id w) d (selected_child w) (d_parent w).

(** [o.get_id()] and [o.get_parent()], defined by [Entity], by
    [DisorderedEntityWrapper] and (modelled from the spec) by [Atom]. *)
Definition obj_id (o : pyobj) : option pyid :=
  match o with
  | OEntity e => Some (_id e)
  | OAtom a => Some (a_id a)
  | ODisordered w => Some (d_id w)
  | ODict _ => None
  end.

Definition obj_parent (o : pyobj) : option (option loc) :=
  match o with
  | OEntity e => Some (parent e)
  | OAtom a => Some (a_parent a)
  | ODisordered w => Some (d_parent w)
  | ODict _ => None
  end.

Definition get_id (h : heap) (l : loc) : res pyid :=
  match h !! l ≫= obj_id with
  | Some i => Ok i
  | None => Undef
  end.

Definition get_parent (h : heap) (l : loc) : res (option loc) :=
  match h !! l ≫= obj_parent with
  | Some p => Ok p
  | None => Undef
  end.

Definition entity_at (h : heap) (l : loc) : option Entity :=
  match h !! l with
  | Some (OEntity e) => Some e
  | _ => None
  end.

(** [self.attr = v] on the entity at [l]. *)
Definition on_entity (f : Entity → Entity) (o : pyobj) : pyobj :=
  match o with
  | OEntity e => OEntity (f e)
  | _ => o
  end.

Definition set_entity (l : loc) (f : Entity → Entity) (h : heap) : heap :=
  alter (on_entity f) l h.

(** ** Comparison of ids and of id tuples *)

Inductive cmpop : Type := OpLt | OpLe | OpGt | OpGe.

Definition swap_op (op : cmpop) : cmpop :=
  match op with
  | OpLt => OpGt
  | OpLe => OpGe
  | OpGt => OpLt
  | OpGe => OpLe
  end.

Definition cmp_holds (op : cmpop) (c : comparison) : bool :=
  match op, c with
  | OpLt, Lt | OpLe, Lt | OpLe, Eq | OpGt, Gt | OpGe, Gt | OpGe, Eq => true
  | _, _ => false
  end.

(** Ids of different Python types are unordered ([None]: the [TypeError]). *)
Definition id_compare (a b : pyid) : option comparison :=
  match a, b with
  | IdStr s, IdStr t => Some (String.compare s t)
  | IdInt x, IdInt y => Some (Z.compare x y)
  | IdRes h1 s1 i1, IdRes h2 s2 i2 =>
      Some (match String.compare h1 h2 with
            | Eq => match Z.compare s1 s2 with
                    | Eq => String.compare i1 i2
                    | c => c
                    end
            | c => c
            end)
  | _, _ => None
  end.

Definition id_cmp (op : cmpop) (a b : pyid) : res bool :=
  match id_compare a b with
  | Some c => Ok (cmp_holds op c)
  | None => Raise TypeError
  end.

(** Tuples compare at the first position where they differ, and by length
    when one is a prefix of the other. *)
Fixpoint tuple_cmp (op : cmpop) (xs ys : list pyid) : res bool :=
  match xs, ys with
  | x :: xs', y :: ys' =>
      if decide (x = y) then tuple_cmp op xs' ys' else id_cmp op x y
  | _, _ => Ok (cmp_holds op (Nat.compare (length xs) (length ys)))
  end.

(** [t[1:]] where [t] is the attribute [full_id]: subscripting [None] is a
    [TypeError]. *)
Definition full_id_tail (f : option (list pyid)) : res (list pyid) :=
  match f with
  | Some t => Ok (tail t)
  | None => Raise TypeError
  end.

Module Entity.

(** [Entity(id)] for one of the concrete classes: the new object, then the
    dictionary its [__init__] creates for [xtra]. *)
Definition __init__ (c : ecls) (i : pyid) (h : heap) : outcome loc :=
  let l := length h in
  Ret l (h ++ [OEntity (mkEntity c i None None [] [] (S l)); ODict []]).

(** *** Special methods *)

(** [isinstance(other, type(self))], and the entity found. *)
Definition same_type (h : heap) (e : Entity) (other : option loc) : option Entity :=
  match other with
  | Some l =>
      match h !! l with
      | Some (OEntity o) => if decide (cls o = cls e) then Some o else None
      | _ => None
      end
  | None => None
  end.

(** [__eq__]; the result [None] is [NotImplemented]. *)
Definition __eq__ (h : heap) (e : Entity) (other : option loc) : res (option bool) :=
  match same_type h e other with
  | Some o =>
      match parent e with
      | None => Ok (Some (bool_decide (_id e = _id o)))
      | Some _ =>
          let! a := full_id_tail (full_id e) in
          let! b := full_id_tail (full_id o) in
          Ok (Some (bool_decide (a = b)))
      end
  | None => Ok None
  end.

(** [__ne__] *)
Definition __ne__ (h : heap) (e : Entity) (other : option loc) : res (option bool) :=
  match same_type h e other with
  | Some o =>
      match parent e with
      | None => Ok (Some (bool_decide (_id e ≠ _id o)))
      | Some _ =>
          let! a := full_id_tail (full_id e) in
          let! b := full_id_tail (full_id o) in
          Ok (Some (bool_decide (a ≠ b)))
      end
  | None => Ok None
  end.

(** [__gt__], [__ge__], [__lt__], [__le__] *)
Definition __cmp__ (op : cmpop) (h : heap) (e : Entity) (other : option loc)
    : res (option bool) :=
  match same_type h e other with
  | Some o =>
      match parent e with
      | None => let! b := id_cmp op (_id e) (_id o) in Ok (Some b)
      | Some _ =>
          let! a := full_id_tail (full_id e) in
          let! b := full_id_tail (full_id o) in
          let! r := tuple_cmp op a b in
          Ok (Some r)
      end
  | None => Ok None
  end.

(** *** Private methods *)

(** The loop [while parent is not None] of [_generate_full_id]. *)
Fixpoint walk_parents (fuel : nat) (h : heap) (p : option loc)
    (parts : list pyid) : res (list pyid) :=
  match p with
  | None => Ok parts
  | Some q =>
      match fuel with
      | 0 => Diverge
      | S k =>
          let! entity_id := get_id h q in
          let! p' := get_parent h q in
          walk_parents k h p' (parts ++ [entity_id])
      end
  end.

Definition _generate_full_id (fuel : nat) (h : heap) (l : loc) : res (list pyid) :=
  let! entity_id := get_id h l in
  let! p := get_parent h l in
  let! parts := walk_parents fuel h p [entity_id] in
  Ok (rev parts).

(** [o._reset_full_id()] for an object [o] of any kind: the method of
    [Entity]; through [__getattr__] that of the selected child of a
    wrapper; an [AttributeError] for an atom.  [g] is the fuel of the
    parent walks, [fuel] bounds the depth of the recursion. *)
Fixpoint _reset_full_id (g fuel : nat) (h : heap) (l : loc) : outcome unit :=
  match fuel with
  | 0 => Loop
  | S k =>
      match h !! l with
      | Some (OEntity e) =>
          let* _u , h1 :=
            for_each (λ child h', except_AttributeError (_reset_full_id g k h' child))
                     (child_list e) h in
          let* fid , h2 := lift (_generate_full_id g h1 l) h1 in
          Ret tt (set_entity l (with_full_id (Some fid)) h2)
      | Some (ODisordered w) =>
          match selected_child w with
          | Some s => _reset_full_id g k h s
          | None => Exc AttributeError h
          end
      | Some (OAtom _) => Exc AttributeError h
      | Some (ODict _) | None => Stuck
      end
  end.

(** *** Public methods *)

Definition has_id (h : heap) (l : loc) (i : pyid) : res bool :=
  match entity_at h l with
  | Some e => Ok (dict_mem i (child_dict e))
  | None => Undef
  end.

(** [get_list] returns a copy of the list of children. *)
Definition get_list (h : heap) (l : loc) : res (list loc) :=
  match entity_at h l with
  | Some e => Ok (child_list e)
  | None => Undef
  end.

Definition get_full_id (fuel : nat) (h : heap) (l : loc) : outcome (list pyid) :=
  match entity_at h l with
  | Some e =>
      match full_id e with
      | Some f => Ret f h
      | None =>
          let* f , h1 := lift (_generate_full_id fuel h l) h in
          Ret f (set_entity l (with_full_id (Some f)) h1)
      end
  | None => Stuck
  end.

(** [o.set_parent(p)]: [Entity.set_parent],
    [DisorderedEntityWrapper.set_parent], and for an atom (modelled from
    the spec) the assignment of the parent reference. *)
Fixpoint set_parent (fuel : nat) (h : heap) (l : loc) (p : loc) : outcome unit :=
  match h !! l with
  | Some (OEntity _) =>
      _reset_full_id fuel fuel (set_entity l (with_parent (Some p)) h) l
  | Some (OAtom a) => Ret tt (<[l := OAtom (a_with_parent (Some p) a)]> h)
  | Some (ODisordered w) =>
      match fuel with
      | 0 => Loop
      | S k =>
          for_each (λ child h', set_parent k h' child p)
                   (dict_values (d_child_dict w))
                   (<[l := ODisordered (d_with_parent (Some p) w)]> h)
      end
  | Some (ODict _) | None => Stuck
  end.

(** [o.detach_parent()], likewise. *)
Fixpoint detach_parent (fuel : nat) (h : heap) (l : loc) : outcome unit :=
  match h !! l with
  | Some (OEntity _) => Ret tt (set_entity l (with_parent None) h)
  | Some (OAtom a) => Ret tt (<[l := OAtom (a_with_parent None a)]> h)
  | Some (ODisordered w) =>
      match fuel with
      | 0 => Loop
      | S k =>
          for_each (λ child h', detach_parent k h' child)
                   (dict_values (d_child_dict w))
                   (<[l := ODisordered (d_with_parent None w)]> h)
      end
  | Some (ODict _) | None => Stuck
  end.

(** *** The operators [==], [<], [<=], [>], [>=] and [list.remove]

    [x == y] calls [type(x).__eq__(x, y)], then the reflected
    [type(y).__eq__(y, x)] when the first answers [NotImplemented], and
    falls back on identity.  The ordering operators do the same with the
    mirrored operator and end in a [TypeError].  [None] is the value
    [None]; the operators of [Atom] are in Atom.py. *)

Definition dunder_eq (h : heap) (x y : option loc) : res (option bool) :=
  match x with
  | None => Ok (if decide (y = None) then Some true else None)
  | Some l =>
      match h !! l with
      | Some (OEntity e) => __eq__ h e y
      | Some (ODisordered _) => Ok (if decide (y = x) then Some true else None)
      | Some (OAtom _) | Some (ODict _) | None => Undef
      end
  end.

Definition py_eq (h : heap) (x y : option loc) : res bool :=
  let! r1 := dunder_eq h x y in
  match r1 with
  | Some b => Ok b
  | None =>
      let! r2 := dunder_eq h y x in
      match r2 with
      | Some b => Ok b
      | None => Ok (bool_decide (x = y))
      end
  end.

(** A wrapper defines the four ordering methods as
    [self.selected_child OP other]. *)
Fixpoint py_cmp (fuel : nat) (op : cmpop) (h : heap) (x y : option loc) : res bool :=
  match fuel with
  | 0 => Diverge
  | S k =>
      let dunder (op : cmpop) (x y : option loc) : res (option bool) :=
        match x with
        | None => Ok None
        | Some l =>
            match h !! l with
            | Some (OEntity e) => __cmp__ op h e y
            | Some (ODisordered w) =>
                let! b := py_cmp k op h (selected_child w) y in Ok (Some b)
            | Some (OAtom _) | Some (ODict _) | None => Undef
            end
        end in
      let! r1 := dunder op x y in
      match r1 with
      | Some b => Ok b
      | None =>
          let! r2 := dunder (swap_op op) y x in
          match r2 with
          | Some b => Ok b
          | None => Raise TypeError
          end
      end
  end.

(** [l.remove(value)]: the first item that is [value] or equal to it goes;
    [ValueError] when there is none. *)
Fixpoint list_remove (h : heap) (value : loc) (l : list loc) : res (list loc) :=
  match l with
  | [] => Raise ValueError
  | item :: l' =>
      let! b := (if decide (item = value) then Ok true
                 else py_eq h (Some item) (Some value)) in
      if b then Ok l'
      else let! r := list_remove h value l' in Ok (item :: r)
  end.

(** *** Public methods that change the children *)

Definition detach_child (fuel : nat) (h : heap) (l : loc) (i : pyid) : outcome unit :=
  match entity_at h l with
  | None => Stuck
  | Some e =>
      match dict_get i (child_dict e) with
      | None => Exc KeyError h
      | Some child =>
          let* _u , h1 := detach_parent fuel h child in
          match entity_at h1 l with
          | None => Stuck
          | Some e1 =>
              match dict_del i (child_dict e1) with
              | None => Exc KeyError h1
              | Some d' =>
                  let h2 := set_entity l (with_children (child_list e1) d') h1 in
                  let* l' , h3 := lift (list_remove h2 child (child_list e1)) h2 in
                  Ret tt (set_entity l (λ e', with_children l' (child_dict e') e') h3)
              end
          end
      end
  end.

Definition add (fuel : nat) (h : heap) (l : loc) (entity : loc) : outcome unit :=
  let* entity_id , h := lift (get_id h entity) h in
  let* dup , h := lift (has_id h l entity_id) h in
  if (dup : bool) then Exc PDBConstructionException h
  else
    let* _u , h1 := set_parent fuel h entity l in
    Ret tt (set_entity l (λ e, with_children (child_list e ++ [entity])
                                 (dict_set entity_id entity (child_dict e)) e) h1).

(** The index at which [child_list[pos:pos] = [entity]] splices: a negative
    position counts from the end, and positions are clamped to the list. *)
Definition slice_index (pos : Z) (n : nat) : nat :=
  if (pos <? 0)%Z then Z.to_nat (Z.max 0 (pos + Z.of_nat n))
  else Z.to_nat (Z.min pos (Z.of_nat n)).

Definition insert (fuel : nat) (h : heap) (l : loc) (pos : Z) (entity : loc)
    : outcome unit :=
  let* entity_id , h := lift (get_id h entity) h in
  let* dup , h := lift (has_id h l entity_id) h in
  if (dup : bool) then Exc PDBConstructionException h
  else
    let* _u , h1 := set_parent fuel h entity l in
    Ret tt (set_entity l
              (λ e, let i := slice_index pos (length (child_list e)) in
                    with_children (take i (child_list e) ++ entity :: drop i (child_list e))
                                  (dict_set entity_id entity (child_dict e)) e) h1).

(** The warning of the id setter: [value] is used by a sibling. *)
Inductive BiopythonWarning : Type := IdAlreadyUsed (old value : pyid).

Definition obj_child_dict (o : pyobj) : option (dict loc) :=
  match o with
  | OEntity e => Some (child_dict e)
  | ODisordered w => Some (d_child_dict w)
  | _ => None
  end.

Definition obj_with_child_dict (d : dict loc) (o : pyobj) : pyobj :=
  match o with
  | OEntity e => OEntity (with_children (child_list e) d e)
  | ODisordered w => ODisordered (d_with_child_dict d w)
  | _ => o
  end.

(** The setter of the property [id].  The value returned is the list of
    warnings issued. *)
Definition set_id (fuel : nat) (h : heap) (l : loc) (value : pyid)
    : outcome (list BiopythonWarning) :=
  match entity_at h l with
  | None => Stuck
  | Some e =>
      if decide (value = _id e) then Ret [] h
      else
        let* ws , h1 :=
          match parent e with
          | None => Ret [] h
          | Some p =>
              match h !! p with
              | None | Some (ODict _) => Stuck
              | Some (OAtom _) => Exc AttributeError h
              | Some po =>
                  let d := default [] (obj_child_dict po) in
                  let ws := if dict_mem value d then [IdAlreadyUsed (_id e) value] else [] in
                  match dict_del (_id e) d with
                  | None => Exc KeyError h
                  | Some d' =>
                      Ret ws (alter (obj_with_child_dict (dict_set value l d')) p h)
                  end
              end
          end in
        let h2 := set_entity l (with_id value) h1 in
        let* _u , h3 := _reset_full_id fuel fuel h2 l in
        Ret ws h3
  end.

(** *** Rigid-body transformation

    [rot] is the 3x3 array, [tran] the vector.  Modelled from the spec:
    [Atom.transform] (in Atom.py) replaces the coordinate of the atom by
    its image; the floating-point kernel [dot_add coord rot tran] is an
    argument. *)

Definition rotation : Type := coord * coord * coord.
Definition translation : Type := coord.

Fixpoint transform (dot_add : coord → rotation → translation → coord)
    (fuel : nat) (h : heap) (l : loc) (rot : rotation) (tran : translation)
    : outcome unit :=
  match fuel with
  | 0 => Loop
  | S k =>
      match h !! l with
      | Some (OEntity e) =>
          for_each (λ o h', transform dot_add k h' o rot tran) (child_list e) h
      | Some (OAtom a) =>
          Ret tt (<[l := OAtom (a_with_coord (dot_add (a_coord a) rot tran) a)]> h)
      | Some (ODisordered w) =>
          match selected_child w with
          | Some s => transform dot_add k h s rot tran
          | None => Exc AttributeError h
          end
      | Some (ODict _) | None => Stuck
      end
  end.

(** *** Center of mass *)

Fixpoint res_map {A B} (f : A → res B) (xs : list A) : res (list B) :=
  match xs with
  | [] => Ok []
  | x :: xs' => let! y := f x in let! ys := res_map f xs' in Ok (y :: ys)
  end.

(** The attribute [level] of an object; a wrapper forwards the lookup to
    its selected child. *)
Fixpoint attr_level (fuel : nat) (h : heap) (l : loc) : res level :=
  match fuel with
  | 0 => Diverge
  | S k =>
      match h !! l with
      | Some (OEntity e) => Ok (cls_level (cls e))
      | Some (OAtom _) => Ok LA
      | Some (ODisordered w) =>
          match selected_child w with
          | Some s => attr_level k h s
          | None => Raise AttributeError
          end
      | Some (ODict _) | None => Undef
      end
  end.

(** The attributes [coord] and [mass], of an atom or forwarded to one. *)
Fixpoint attr_atom (fuel : nat) (h : heap) (l : loc) : res Atom :=
  match fuel with
  | 0 => Diverge
  | S k =>
      match h !! l with
      | Some (OAtom a) => Ok a
      | Some (OEntity _) => Raise AttributeError
      | Some (ODisordered w) =>
          match selected_child w with
          | Some s => attr_atom k h s
          | None => Raise AttributeError
          end
      | Some (ODict _) | None => Undef
      end
  end.

(** Modelled from the spec: [get_unpacked_list] is defined by Chain and
    Residue (Chain.py, Residue.py), which are not part of the sources.
    The children with every disordered child replaced by its currently
    selected alternative. *)
Definition get_unpacked_list (h : heap) (e : Entity) : res (list loc) :=
  res_map (λ c, match h !! c with
                | Some (ODisordered w) =>
                    match selected_child w with
                    | Some s => Ok s
                    | None => Undef
                    end
                | Some _ => Ok c
                | None => Undef
                end) (child_list e).

(** What one turn of the loop appends for the entity [e] it popped:
    [e.get_unpacked_list()] at the levels "R" and "C", [e.child_list]
    otherwise. *)
Fixpoint unpack (fuel : nat) (h : heap) (l : loc) : res (list loc) :=
  match fuel with
  | 0 => Diverge
  | S k =>
      match h !! l with
      | Some (OEntity e) =>
          match cls_level (cls e) with
          | LR | LC => get_unpacked_list h e
          | _ => Ok (child_list e)
          end
      | Some (OAtom _) => Raise AttributeError
      | Some (ODisordered w) =>
          match selected_child w with
          | Some s => unpack k h s
          | None => Raise AttributeError
          end
      | Some (ODict _) | None => Undef
      end
  end.

(** [elevels == only_atom_level] *)
Definition only_atom_level (elevels : list level) : bool :=
  bool_decide (elevels ≠ [] ∧ Forall (λ v, v = LA) elevels).

(** The loop [while True] over the deque [entities]. *)
Fixpoint unpack_loop (g fuel : nat) (h : heap) (entities : list loc)
    : res (list loc) :=
  match fuel with
  | 0 => Diverge
  | S k =>
      match entities with
      | [] => Raise IndexError
      | e :: rest =>
          let! added := unpack g h e in
          let entities' := rest ++ added in
          let! elevels := res_map (attr_level g h) entities' in
          if only_atom_level elevels then Ok entities'
          else unpack_loop g k h entities'
      end
  end.

Definition center_of_mass
    (np_average : list coord → option (list float) → res coord)
    (fuel : nat) (h : heap) (l : loc) (geometric : bool) : res coord :=
  match entity_at h l with
  | None => Undef
  | Some e =>
      if decide (length (child_list e) = 0) then Raise ValueError
      else
        let! entities := unpack_loop fuel fuel h [l] in
        let! atoms := res_map (attr_atom fuel h) entities in
        let coords := a_coord <$> atoms in
        let masses := if geometric then None else Some (a_mass <$> atoms) in
        np_average coords masses
  end.

(** *** Copy and strict equality *)

(** [o.copy()]: [Entity.copy]; [DisorderedEntityWrapper.copy], whose
    [disordered_add] is abstract; for an atom (modelled from the spec) a
    new atom with the same id, coordinate and mass and no parent. *)
Fixpoint copy (fuel : nat) (h : heap) (l : loc) : outcome loc :=
  match fuel with
  | 0 => Loop
  | S k =>
      match h !! l with
      | Some (OEntity e) =>
          let shallow := length h in
          let h1 := h ++ [OEntity (with_children [] [] e)] in
          match h1 !! xtra e with
          | Some (ODict d) =>
              let h2 := set_entity shallow (with_xtra (length h1)) (h1 ++ [ODict d]) in
              let* _u , h3 := detach_parent k h2 shallow in
              let* _u , h4 :=
                for_each (λ child h',
                            let* c , h'' := copy k h' child in
                            add k h'' shallow c)
                         (child_list e) h3 in
              Ret shallow h4
          | _ => Stuck
          end
      | Some (OAtom a) =>
          Ret (length h) (h ++ [OAtom (a_with_parent None a)])
      | Some (ODisordered w) =>
          let shallow := length h in
          let h1 := h ++ [ODisordered (d_with_child_dict [] w)] in
          let* _u , h2 := detach_parent k h1 shallow in
          let* _u , h3 :=
            for_each (λ child h',
                        let* c , h'' := copy k h' child in
                        Exc NotImplementedError h'')
                     (dict_values (d_child_dict w)) h2 in
          Ret shallow h3
      | Some (ODict _) | None => Stuck
      end
  end.

(** The loop over [zip(...)] that returns [False] at the first pair that
    differs. *)
Fixpoint all_pairs (f : loc → loc → res bool) (ps : list (loc * loc)) : res bool :=
  match ps with
  | [] => Ok true
  | (a, b) :: ps' =>
      let! r := f a b in
      if (r : bool) then all_pairs f ps' else Ok false
  end.

(** [o.strictly_equals(other, compare_coordinates)].  Modelled from the
    spec for an atom: same kind, same id and, when asked, coordinates that
    the leaf-level comparison [close] accepts. *)
Fixpoint strictly_equals (close : coord → coord → bool) (fuel : nat) (h : heap)
    (l other : loc) (compare_coordinates : bool) : res bool :=
  match fuel with
  | 0 => Diverge
  | S k =>
      match h !! l with
      | Some (OEntity e) =>
          match same_type h e (Some other) with
          | None => Ok false
          | Some o =>
              if decide (_id e ≠ _id o) then Ok false
              else if decide (length (child_list e) ≠ length (child_list o))
              then Ok false
              else all_pairs (λ a b, strictly_equals close k h a b compare_coordinates)
                             (zip (child_list e) (child_list o))
          end
      | Some (OAtom a) =>
          match h !! other with
          | Some (OAtom b) =>
              Ok (bool_decide (a_id a = a_id b)
                  && (negb compare_coordinates || close (a_coord a) (a_coord b)))
          | Some _ => Ok false
          | None => Undef
          end
      | Some (ODisordered w) =>
          match h !! other with
          | Some (ODisordered v) =>
              if decide (d_id w ≠ d_id v) then Ok false
              else
                match selected_child w, selected_child v with
                | Some s, Some t =>
                    let! i := get_id h s in
                    let! j := get_id h t in
                    if decide (i ≠ j) then Ok false
                    else if bool_decide (dict_keys (d_child_dict w) ≡ₚ dict_keys (d_child_dict v))
                    then all_pairs (λ a b, strictly_equals close k h a b compare_coordinates)
                           (omap (λ kv, pair kv.2 <$> dict_get kv.1 (d_child_dict v))
                                 (d_child_dict w))
                    else Ok false
                | _, _ => Raise AttributeError
                end
          | Some _ => Ok false
          | None => Undef
          end
      | Some (ODict _) | None => Undef
      end
  end.

(** *** The container protocol and the remaining accessors *)

(** [__len__] *)
Definition __len__ (h : heap) (l : loc) : res nat :=
  match entity_at h l with
  | Some e => Ok (length (child_list e))
  | None => Undef
  end.

(** [__getitem__]: [self.child_dict[id]] *)
Definition __getitem__ (h : heap) (l : loc) (i : pyid) : res loc :=
  match entity_at h l with
  | Some e =>
      match dict_get i (child_dict e) with
      | Some c => Ok c
      | None => Raise KeyError
      end
  | None => Undef
  end.

(** [__delitem__] *)
Definition __delitem__ (fuel : nat) (h : heap) (l : loc) (i : pyid) : outcome unit :=
  detach_child fuel h l i.

(** [__contains__] *)
Definition __contains__ (h : heap) (l : loc) (i : pyid) : res bool :=
  match entity_at h l with
  | Some e => Ok (dict_mem i (child_dict e))
  | None => Undef
  end.

(** [__iter__] and [get_iterator]: the children in the order of the list. *)
Definition __iter__ (h : heap) (l : loc) : res (list loc) :=
  match entity_at h l with
  | Some e => Ok (child_list e)
  | None => Undef
  end.

Definition get_iterator (h : heap) (l : loc) : res (list loc) :=
  match entity_at h l with
  | Some e => Ok (child_list e)
  | None => Undef
  end.

(** [get_level] *)
Definition get_level (h : heap) (l : loc) : res level :=
  match entity_at h l with
  | Some e => Ok (cls_level (cls e))
  | None => Undef
  end.

End Entity.

Module DisorderedEntityWrapper.

Definition wrapper_at (h : heap) (l : loc) : option Disordered :=
  match h !! l with
  | Some (ODisordered w) => Some w
  | _ => None
  end.

Definition __init__ (i : pyid) (h : heap) : outcome loc :=
  Ret (length h) (h ++ [ODisordered (mkDisordered i [] None None)]).

(** [self.child_dict[id] = child] *)
Definition __setitem__ (h : heap) (l : loc) (i : pyid) (child : loc) : outcome unit :=
  match wrapper_at h l with
  | Some w => Ret tt (<[l := ODisordered (d_with_child_dict (dict_set i child (d_child_dict w)) w)]> h)
  | None => Stuck
  end.

Definition disordered_select (h : heap) (l : loc) (i : pyid) : outcome unit :=
  match wrapper_at h l with
  | Some w =>
      match dict_get i (d_child_dict w) with
      | Some c => Ret tt (<[l := ODisordered (d_with_selected (Some c) w)]> h)
      | None => Exc KeyError h
      end
  | None => Stuck
  end.

(** *** [len(x)], [x[id]], [id in x], [iter(x)] for an object or [None]

    An entity answers with its own special methods; a wrapper forwards to
    its selected child; an atom (a leaf, modelled from the spec) and [None]
    support none of them. *)

Fixpoint py_len (fuel : nat) (h : heap) (x : option loc) : res nat :=
  match x with
  | None => Raise TypeError
  | Some l =>
      match h !! l with
      | Some (OEntity e) => Ok (length (child_list e))
      | Some (OAtom _) => Raise TypeError
      | Some (ODisordered w) =>
          match fuel with
          | 0 => Diverge
          | S k => py_len k h (selected_child w)
          end
      | Some (ODict _) | None => Undef
      end
  end.

Fixpoint py_getitem (fuel : nat) (h : heap) (x : option loc) (i : pyid) : res loc :=
  match x with
  | None => Raise TypeError
  | Some l =>
      match h !! l with
      | Some (OEntity e) =>
          match dict_get i (child_dict e) with
          | Some c => Ok c
          | None => Raise KeyError
          end
      | Some (OAtom _) => Raise TypeError
      | Some (ODisordered w) =>
          match fuel with
          | 0 => Diverge
          | S k => py_getitem k h (selected_child w) i
          end
      | Some (ODict _) | None => Undef
      end
  end.

Fixpoint py_contains (fuel : nat) (h : heap) (x : option loc) (i : pyid) : res bool :=
  match x with
  | None => Raise TypeError
  | Some l =>
      match h !! l with
      | Some (OEntity e) => Ok (dict_mem i (child_dict e))
      | Some (OAtom _) => Raise TypeError
      | Some (ODisordered w) =>
          match fuel with
          | 0 => Diverge
          | S k => py_contains k h (selected_child w) i
          end
      | Some (ODict _) | None => Undef
      end
  end.

Fixpoint py_iter (fuel : nat) (h : heap) (x : option loc) : res (list loc) :=
  match x with
  | None => Raise TypeError
  | Some l =>
      match h !! l with
      | Some (OEntity e) => Ok (child_list e)
      | Some (OAtom _) => Raise TypeError
      | Some (ODisordered w) =>
          match fuel with
          | 0 => Diverge
          | S k => py_iter k h (selected_child w)
          end
      | Some (ODict _) | None => Undef
      end
  end.

(** *** The special methods of the wrapper *)

Definition __len__ (fuel : nat) (h : heap) (l : loc) : res nat :=
  match wrapper_at h l with
  | Some w => py_len fuel h (selected_child w)
  | None => Undef
  end.

Definition __getitem__ (fuel : nat) (h : heap) (l : loc) (i : pyid) : res loc :=
  match wrapper_at h l with
  | Some w => py_getitem fuel h (selected_child w) i
  | None => Undef
  end.

Definition __contains__ (fuel : nat) (h : heap) (l : loc) (i : pyid) : res bool :=
  match wrapper_at h l with
  | Some w => py_contains fuel h (selected_child w) i
  | None => Undef
  end.

Definition __iter__ (fuel : nat) (h : heap) (l : loc) : res (list loc) :=
  match wrapper_at h l with
  | Some w => py_iter fuel h (selected_child w)
  | None => Undef
  end.

(** [__gt__], [__ge__], [__lt__], [__le__]: [self.selected_child OP other] *)
Definition __cmp__ (op : cmpop) (fuel : nat) (h : heap) (l : loc)
    (other : option loc) : res bool :=
  match wrapper_at h l with
  | Some w => Entity.py_cmp fuel op h (selected_child w) other
  | None => Undef
  end.

(** *** The alternatives *)

Definition disordered_has_id (h : heap) (l : loc) (i : pyid) : res bool :=
  match wrapper_at h l with
  | Some w => Ok (dict_mem i (d_child_dict w))
  | None => Undef
  end.

(** [disordered_get(id)]; the argument [None] asks for the selected child,
    which is [None] as long as nothing was selected. *)
Definition disordered_get (h : heap) (l : loc) (i : option pyid) : res (option loc) :=
  match wrapper_at h l with
  | Some w =>
      match i with
      | None => Ok (selected_child w)
      | Some k =>
          match dict_get k (d_child_dict w) with
          | Some c => Ok (Some c)
          | None => Raise KeyError
          end
      end
  | None => Undef
  end.

Definition disordered_get_list (h : heap) (l : loc) : res (list loc) :=
  match wrapper_at h l with
  | Some w => Ok (dict_values (d_child_dict w))
  | None => Undef
  end.

(** [disordered_add] and [disordered_remove] are left to the subclasses. *)
Definition disordered_add (h : heap) (l child : loc) : outcome unit :=
  Exc NotImplementedError h.

Definition disordered_remove (h : heap) (l child : loc) : outcome unit :=
  Exc NotImplementedError h.

Definition is_disordered (h : heap) (l : loc) : res nat :=
  match wrapper_at h l with
  | Some _ => Ok 2
  | None => Undef
  end.

End DisorderedEntityWrapper.

(** ** Well-formed heaps

    Python bounds neither the depth of a hierarchy nor the length of a
    chain of parents, and a cyclic object graph makes the recursive methods
    run forever.  A heap is [ranked] when a rank function, bounded by
    [top], decreases from every object to its children (for a wrapper: its
    alternatives and its selected child) and increases from every object
    to its parent; every reference is to an object of the hierarchy. *)

Definition hier (h : heap) (l : loc) : bool :=
  match h !! l with
  | Some (ODict _) | None => false
  | Some _ => true
  end.

Definition obj_children (o : pyobj) : list loc :=
  match o with
  | OEntity e => child_list e
  | ODisordered w => option_list (selected_child w) ++ dict_values (d_child_dict w)
  | OAtom _ | ODict _ => []
  end.

Definition obj_ranked (rk : loc → nat) (top : nat) (h : heap) (l : loc) (o : pyobj) : bool :=
  bool_decide (rk l ≤ top)
  && match obj_parent o with
     | Some (Some q) => bool_decide (rk l < rk q) && hier h q
     | _ => true
     end
  && forallb (λ c, bool_decide (rk c < rk l) && hier h c) (obj_children o).

Definition ranked (rk : loc → nat) (top : nat) (h : heap) : Prop :=
  forallb (λ b : bool, b) (imap (obj_ranked rk top h) h) = true.

(** Two heaps have the same shape when they differ in cached full ids
    only. *)
Definition erase (o : pyobj) : pyobj := on_entity (with_full_id None) o.

Definition same_shape (h h' : heap) : Prop := erase <$> h = erase <$> h'.

(** From [h] to [h'] nothing changed but caches, and a cache that changed
    holds the path walked from its entity. *)
Definition cache_upd (g : nat) (h h' : heap) : Prop :=
  same_shape h h'
  ∧ ∀ d e', entity_at h' d = Some e' →
      full_id <$> entity_at h d = Some (full_id e')
      ∨ ∃ f, full_id e' = Some f ∧ Entity._generate_full_id g h d = Ok f.

(** The entities whose cached full id a call [l._reset_full_id()] visits:
    [l], the children of a visited entity, the selected child of a wrapper
    met on the way. *)
Inductive reset_reach (h : heap) : loc → loc → Prop :=
  | reach_self l e :
      entity_at h l = Some e → reset_reach h l l
  | reach_child l e c d :
      entity_at h l = Some e → c ∈ child_list e → reset_reach h c d →
      reset_reach h l d
  | reach_selected l w s d :
      h !! l = Some (ODisordered w) → selected_child w = Some s →
      reset_reach h s d → reset_reach h l d.

(** The cache of the entity at [d] holds the path that walking the parent
    references from [d] gives. *)
Definition cache_fresh (g : nat) (h : heap) (d : loc) : Prop :=
  ∃ e f, entity_at h d = Some e ∧ full_id e = Some f
         ∧ Entity._generate_full_id g h d = Ok f.

(** The index of the children is in step with the list of children: the
    keys are the ids of the children, and each id is mapped to the child of
    the list that bears it. *)
Definition index_in_sync (h : heap) (e : Entity) : Prop :=
  forallb (λ kc, bool_decide (kc.2 ∈ child_list e)
                 && bool_decide (h !! kc.2 ≫= obj_id = Some kc.1))
          (child_dict e)
  && forallb (λ c, match h !! c ≫= obj_id with
                   | Some k => bool_decide (dict_get k (child_dict e) = Some c)
                   | None => false
                   end)
             (child_list e)
  && bool_decide (NoDup (dict_keys (child_dict e)))
  = true.



(** From [h] to [h'] nothing changed but caches and parent references,
    and a parent reference that changed now points to [p], from an object
    of lower rank. *)
Definition unparent (o : pyobj) : pyobj :=
  match o with
  | OEntity e => OEntity (with_parent None (with_full_id None e))
  | OAtom a => OAtom (a_with_parent None a)
  | ODisordered w => ODisordered (d_with_parent None w)
  | ODict d => ODict d
  end.

Definition reparented (rk : loc → nat) (p : loc) (h h' : heap) : Prop :=
  unparent <$> h = unparent <$> h'
  ∧ ∀ l o', h' !! l = Some o' →
      obj_parent <$> h !! l = Some (obj_parent o')
      ∨ (obj_parent o' = Some (Some p) ∧ rk l < rk p).

(** Two heaps have the same graph when they differ only in the ids, the
    indexes and the caches of their entities. *)
Definition strip (o : pyobj) : pyobj :=
  on_entity (λ e, mkEntity (cls e) (IdInt 0) None (parent e) (child_list e) [] (xtra e)) o.

Definition same_graph (h h' : heap) : Prop := strip <$> h = strip <$> h'.

(** The objects that [l.transform(rot, tran)] visits: [l], the children of
    a visited entity, the selected child of a visited wrapper. *)
Inductive transform_reach (h : heap) : loc → loc → Prop :=
  | visit_self l : transform_reach h l l
  | visit_child l e c d :
      entity_at h l = Some e → c ∈ child_list e → transform_reach h c d →
      transform_reach h l d
  | visit_selected l w s d :
      h !! l = Some (ODisordered w) → selected_child w = Some s →
      transform_reach h s d → transform_reach h l d.

(** An object with its coordinate forgotten: all of an entity, of a
    wrapper and of a dictionary; the id, the parent and the mass of an
    atom. *)
Definition uncoord (o : pyobj) : pyobj :=
  match o with
  | OAtom a => OAtom (a_with_coord (0, 0, 0)%Z a)
  | _ => o
  end.

(** ** Sequences of operations on the children *)

Inductive child_op : Type :=
  | Add (p c : loc)
  | Insert (p : loc) (pos : Z) (c : loc)
  | Remove (p : loc) (i : pyid).

Definition child_op_run (fuel : nat) (o : child_op) (h : heap) : outcome unit :=
  match o with
  | Add p c => Entity.add fuel h p c
  | Insert p pos c => Entity.insert fuel h p pos c
  | Remove p i => Entity.detach_child fuel h p i
  end.

(** The operations one after the other; the caller catches the exception
    of an operation that raises and goes on from the heap it left.  [None]
    when an operation does not come back. *)
Fixpoint child_ops_run (fuel : nat) (ops : list child_op) (h : heap) : option heap :=
  match ops with
  | [] => Some h
  | o :: ops' =>
      match child_op_run fuel o h with
      | Ret _ h' | Exc _ h' => child_ops_run fuel ops' h'
      | Loop | Stuck => None
      end
  end.

(** Every entity of the heap is as [__init__] leaves it. *)
Definition all_new (h : heap) : Prop :=
  forallb (λ o, match o with
                | OEntity e =>
                    bool_decide (parent e = None ∧ child_list e = []
                                 ∧ child_dict e = [] ∧ full_id e = None)
                | _ => true
                end) h = true.

(** The cached paths that [==] reads: a cache that is set ends with the id
    of its entity, and an entity with a parent has a cache of two ids or
    more. *)
Definition caches_ok (h : heap) : Prop :=
  ∀ d e, entity_at h d = Some e →
    (∀ f, full_id e = Some f → last f = Some (_id e))
    ∧ (parent e ≠ None → ∃ f, full_id e = Some f ∧ 2 ≤ length f).

(** ** Well-formed nodes

    A node is well formed to depth [d] when what is below it, through the
    lists of children, are entities and atoms down to depth [d] at most,
    the children of an entity bear different ids, the [xtra] of an entity
    is a dictionary, and the coordinate of an atom is one that the
    leaf-level comparison accepts as equal to itself. *)
Fixpoint wf_node (close : coord → coord → bool) (d : nat) (h : heap) (l : loc) : bool :=
  match d with
  | 0 => false
  | S d' =>
      match h !! l with
      | Some (OEntity e) =>
          match h !! xtra e with
          | Some (ODict _) => true
          | _ => false
          end
          && bool_decide (NoDup ((λ c, h !! c ≫= obj_id) <$> child_list e))
          && forallb (wf_node close d' h) (child_list e)
      | Some (OAtom a) => close (a_coord a) (a_coord a)
      | _ => false
      end
  end.

(** ** Detaching

    An object with its parent reference cleared, and the relation between
    two heaps of which the second has, in place of some objects of the
    first, the same objects without their parent. *)
Definition no_parent (o : pyobj) : pyobj :=
  match o with
  | OEntity e => OEntity (with_parent None e)
  | OAtom a => OAtom (a_with_parent None a)
  | ODisordered w => ODisordered (d_with_parent None w)
  | ODict d => ODict d
  end.

Definition detached (h h' : heap) : Prop :=
  Forall2 (λ o o', o' = o ∨ o' = no_parent o) h h'.

(** A tree of entities and atoms, [d] levels deep at most, in which the
    coordinate of every atom is one that the leaf-level comparison accepts
    as equal to itself. *)
Fixpoint plain_tree (close : coord → coord → bool) (d : nat) (h : heap) (l : loc) : bool :=
  match d with
  | 0 => false
  | S d' =>
      match h !! l with
      | Some (OEntity e) => forallb (plain_tree close d' h) (child_list e)
      | Some (OAtom a) => close (a_coord a) (a_coord a)
      | _ => false
      end
  end.

(** What [strictly_equals] reads of an object: the class, the id and the
    list of children of an entity; the id and the coordinate of an atom;
    the id, the alternatives and the selection of a wrapper. *)
Definition bare (o : pyobj) : pyobj :=
  match o with
  | OEntity e => OEntity (mkEntity (cls e) (_id e) None None (child_list e) [] 0)
  | OAtom a => OAtom (mkAtom (a_id a) None (a_coord a) 0%Z)
  | ODisordered w => ODisordered (d_with_parent None w)
  | ODict d => ODict []
  end.

(** ** Copies

    [h'] has every object of [h], at the same place and unchanged. *)
Definition extends (h h' : heap) : Prop :=
  ∀ i o, h !! i = Some o → h' !! i = Some o.

(** The object at [c] in [h] is a deep copy, made of objects at or after
    [base], of the object at [l] in [h0]: an entity of the same class with
    the same id, a dictionary of its own for [xtra] with the same content,
    children that are deep copies of the children, in the same order, and
    an index that lists them in that order under the ids of the originals;
    or an atom with the same id, coordinate and mass. *)
Fixpoint mirror (d : nat) (h0 h : heap) (base : nat) (l c : loc) : Prop :=
  match d with
  | 0 => False
  | S d' =>
      base ≤ c
      ∧ match h0 !! l, h !! c with
        | Some (OEntity e), Some (OEntity e') =>
            cls e' = cls e ∧ _id e' = _id e
            ∧ base ≤ xtra e'
            ∧ (∃ dd, h0 !! xtra e = Some (ODict dd) ∧ h !! xtra e' = Some (ODict dd))
            ∧ dict_values (child_dict e') = child_list e'
            ∧ Some <$> dict_keys (child_dict e')
              = (λ x, h0 !! x ≫= obj_id) <$> child_list e
            ∧ Forall2 (mirror d' h0 h base) (child_list e) (child_list e')
        | Some (OAtom a), Some (OAtom a') =>
            a_id a' = a_id a ∧ a_coord a' = a_coord a ∧ a_mass a' = a_mass a
        | _, _ => False
        end
  end.

(** A tree of entities, atoms and wrappers, [d] levels deep at most: a
    wrapper of the tree has an object of the hierarchy selected, and its
    alternatives, filed under different ids, are trees. *)
Fixpoint strict_tree (close : coord → coord → bool) (d : nat) (h : heap) (l : loc) : bool :=
  match d with
  | 0 => false
  | S d' =>
      match h !! l with
      | Some (OEntity e) => forallb (strict_tree close d' h) (child_list e)
      | Some (OAtom a) => close (a_coord a) (a_coord a)
      | Some (ODisordered w) =>
          match selected_child w with
          | Some s => hier h s
          | None => false
          end
          && bool_decide (NoDup (dict_keys (d_child_dict w)))
          && forallb (strict_tree close d' h) (dict_values (d_child_dict w))
      | _ => false
      end
  end.

(** ** Levels of a hierarchy

    The children of an entity, the children of the objects of a list, one
    after the other, and the objects [d] levels below those of a list. *)
Definition kids (h : heap) (l : loc) : list loc :=
  match h !! l with
  | Some (OEntity e) => child_list e
  | _ => []
  end.

Definition expand (h : heap) (ls : list loc) : list loc := ls ≫= kids h.

Fixpoint frontier (d : nat) (h : heap) (ls : list loc) : list loc :=
  match d with
  | 0 => ls
  | S d' => frontier d' h (expand h ls)
  end.

(** A hierarchy without wrappers whose atoms are all [d] levels below
    its top. *)
Fixpoint uniform (d : nat) (h : heap) (l : loc) : bool :=
  match d with
  | 0 => match h !! l with
         | Some (OAtom _) => true
         | _ => false
         end
  | S d' => match h !! l with
            | Some (OEntity e) => forallb (uniform d' h) (child_list e)
            | _ => false
            end
  end.

(** The number of entities in the [d] levels that start with [ls]. *)
Fixpoint pops (d : nat) (h : heap) (ls : list loc) : nat :=
  match d with
  | 0 => 0
  | S d' => length ls + pops d' h (expand h ls)
  end.

(** The level of an entity; "A" for everything else. *)
Definition node_level (h : heap) (l : loc) : level :=
  match h !! l with
  | Some (OEntity e) => cls_level (cls e)
  | _ => LA
  end.

(** ** Scenarios *)

Module Scenario.
Import Entity.

(** [c = Chain("A"); r = Residue((" ", 10, "A"))]: [c] is at 0, [r] at 2. *)
Definition chain_and_residue : heap :=
  [OEntity (mkEntity Chain (IdStr "A") None None [] [] 1); ODict [];
   OEntity (mkEntity Residue (IdRes " " 10 "A") None None [] [] 3); ODict []].

(** [c.add(r)] *)
Definition residue_added : outcome unit := add 3 chain_and_residue 0 2.

(** [c.add(r); c.detach_child(r.id)] *)
Definition residue_detached : outcome unit :=
  let* _u , h := add 3 chain_and_residue 0 2 in
  detach_child 3 h 0 (IdRes " " 10 "A").

(** [m = Model(0); a = Chain("A"); m.add(a); b = Chain("A")]:
    [m] is at 0, [a] at 2, [b] at 4. *)
Definition attached_and_fresh_chain : outcome loc :=
  let* m , h := __init__ Model (IdInt 0) [] in
  let* a , h := __init__ Chain (IdStr "A") h in
  let* _u , h := add 3 h m a in
  __init__ Chain (IdStr "A") h.

(** A chain (at 0) whose only child is a residue (at 2) without atoms. *)
Definition chain_of_empty_residue : heap :=
  [OEntity (mkEntity Chain (IdStr "A") None None [2] [(IdRes " " 10 "A", 2)] 1);
   ODict [];
   OEntity (mkEntity Residue (IdRes " " 10 "A")
              (Some [IdStr "A"; IdRes " " 10 "A"]) (Some 0) [] [] 3);
   ODict []].

(** [Chain("A")] at 0, [Residue((" ", 10, " "))] at 2 and
    [Residue((" ", 11, " "))] at 4, all new. *)
Definition new_chain_and_two_residues : heap :=
  [OEntity (mkEntity Chain (IdStr "A") None None [] [] 1); ODict [];
   OEntity (mkEntity Residue (IdRes " " 10 " ") None None [] [] 3); ODict [];
   OEntity (mkEntity Residue (IdRes " " 11 " ") None None [] [] 5); ODict []].

(** [c.add(r10); c.add(r11); c.detach_child(r10.id); c.insert(0, r10);
    c.add(r10)], the last of which raises. *)
Definition add_remove_insert : list child_op :=
  [Add 0 2; Add 0 4; Remove 0 (IdRes " " 10 " "); Insert 0 0 2; Add 0 2].

(** [c.add(r10); c.add(r11); r11.id = (" ", 10, " ");
    r10.id = (" ", 12, " "); n = Residue((" ", 10, " "))]: the first
    assignment warns that the id is that of a sibling and goes on; [n] is
    the location returned. *)
Definition sibling_id_reused : outcome loc :=
  let* _u , h := add 3 new_chain_and_two_residues 0 2 in
  let* _u , h := add 3 h 0 4 in
  let* _w , h := set_id 3 h 4 (IdRes " " 10 " ") in
  let* _w , h := set_id 3 h 2 (IdRes " " 12 " ") in
  __init__ Residue (IdRes " " 10 " ") h.

(** A chain (at 0) with the residues 10 (at 2) and 11 (at 4). *)
Definition chain_of_two_residues : heap :=
  [OEntity (mkEntity Chain (IdStr "A") None None [2; 4]
              [(IdRes " " 10 " ", 2); (IdRes " " 11 " ", 4)] 1);
   ODict [];
   OEntity (mkEntity Residue (IdRes " " 10 " ")
              (Some [IdStr "A"; IdRes " " 10 " "]) (Some 0) [] [] 3);
   ODict [];
   OEntity (mkEntity Residue (IdRes " " 11 " ")
              (Some [IdStr "A"; IdRes " " 11 " "]) (Some 0) [] [] 5);
   ODict []].

(** [chain_of_two_residues] and a new residue 12 (at 6). *)
Definition chain_of_two_residues_and_one : heap :=
  chain_of_two_residues
  ++ [OEntity (mkEntity Residue (IdRes " " 12 " ") None None [] [] 7); ODict []].

(** A disordered residue (at 0) with the alternatives "GLY" (at 1, two
    atoms at 5 and 6) and "ALA" (at 3, no atom); nothing is selected. *)
Definition disordered_residue : heap :=
  [ODisordered (mkDisordered (IdRes " " 10 " ")
                  [(IdStr "GLY", 1); (IdStr "ALA", 3)] None None);
   OEntity (mkEntity Residue (IdRes " " 10 " ") None None [5; 6]
              [(IdStr "N", 5); (IdStr "CA", 6)] 2);
   ODict [];
   OEntity (mkEntity Residue (IdRes " " 10 " ") None None [] [] 4);
   ODict [];
   OAtom (mkAtom (IdStr "N") (Some 1) (0, 0, 0)%Z 14%Z);
   OAtom (mkAtom (IdStr "CA") (Some 1) (1, 0, 0)%Z 12%Z)].

(** Ranks for [disordered_residue]: the wrapper above its alternatives,
    these above the atoms. *)
Definition disordered_residue_rank (l : loc) : nat :=
  match l with
  | 0 => 2
  | 1 | 3 => 1
  | _ => 0
  end.

(** A stand-in for the floating-point kernel of [Atom.transform]: the
    translation alone. *)
Definition translate (c : coord) (rot : Entity.rotation) (tran : Entity.translation) : coord :=
  (c.1.1 + tran.1.1, c.1.2 + tran.1.2, c.2 + tran.2)%Z.

Definition unit_rotation : Entity.rotation :=
  ((1, 0, 0), (0, 1, 0), (0, 0, 1))%Z.

(** [disordered_residue] after [disordered_select("GLY")]. *)
Definition gly_selected : heap :=
  <[0 := ODisordered (mkDisordered (IdRes " " 10 " ")
                        [(IdStr "GLY", 1); (IdStr "ALA", 3)] (Some 1) None)]>
    disordered_residue.

(** A chain (at 0) with the residues 10 (at 2, atoms at 6 and 7) and 11
    (at 4, one atom at 8). *)
Definition chain_with_atoms : heap :=
  [OEntity (mkEntity Chain (IdStr "A") None None [2; 4]
              [(IdRes " " 10 " ", 2); (IdRes " " 11 " ", 4)] 1);
   ODict [];
   OEntity (mkEntity Residue (IdRes " " 10 " ")
              (Some [IdStr "A"; IdRes " " 10 " "]) (Some 0) [6; 7]
              [(IdStr "N", 6); (IdStr "CA", 7)] 3);
   ODict [];
   OEntity (mkEntity Residue (IdRes " " 11 " ")
              (Some [IdStr "A"; IdRes " " 11 " "]) (Some 0) [8]
              [(IdStr "N", 8)] 5);
   ODict [];
   OAtom (mkAtom (IdStr "N") (Some 2) (0, 0, 0)%Z 14%Z);
   OAtom (mkAtom (IdStr "CA") (Some 2) (1, 0, 0)%Z 12%Z);
   OAtom (mkAtom (IdStr "N") (Some 4) (4, 0, 0)%Z 14%Z)].

End Scenario.

(** * Properties *)

(** Closed goals about the scenarios are settled by evaluation. *)
Ltac by_evaluation := vm_compute; reflexivity.

Ltac evaluate_as H t :=
  let v := eval vm_compute in t in
  assert (t = v) as H by by_evaluation.

(** ** Dictionaries *)

Lemma dict_mem_true {V} (k : pyid) (d : dict V) :
  dict_mem k d = true ↔ is_Some (dict_get k d).
Proof. unfold dict_mem. by rewrite bool_decide_eq_true. Qed.

Lemma dict_mem_false {V} (k : pyid) (d : dict V) :
  dict_mem k d = false ↔ dict_get k d = None.
Proof.
  unfold dict_mem. rewrite bool_decide_eq_false, eq_None_not_Some. done.
Qed.

Lemma dict_get_set {V} (k k' : pyid) (v : V) (d : dict V) :
  dict_get k' (dict_set k v d) = if decide (k' = k) then Some v else dict_get k' d.
Proof.
  induction d as [|[k0 v0] d IH]; simpl.
  - repeat case_decide; congruence.
  - repeat (case_decide; simpl; subst); try congruence.
Qed.

Lemma dict_get_set_eq {V} (k : pyid) (v : V) (d : dict V) :
  dict_get k (dict_set k v d) = Some v.
Proof. rewrite dict_get_set. by case_decide. Qed.

Lemma dict_get_set_ne {V} (k k' : pyid) (v : V) (d : dict V) :
  k' ≠ k → dict_get k' (dict_set k v d) = dict_get k' d.
Proof. intros. rewrite dict_get_set. by case_decide. Qed.

Lemma dict_get_elem_of {V} (k : pyid) (v : V) (d : dict V) :
  dict_get k d = Some v → (k, v) ∈ d.
Proof.
  induction d as [|[k0 v0] d IH]; simpl; [done|].
  case_decide; intros Hv.
  - injection Hv as <-. subst. left.
  - right. auto.
Qed.

Lemma dict_get_keys {V} (k : pyid) (d : dict V) :
  is_Some (dict_get k d) ↔ k ∈ dict_keys d.
Proof.
  unfold dict_keys. induction d as [|[k0 v0] d IH]; csimpl.
  - split; [by intros [? ?] | by intros ?%elem_of_nil].
  - case_decide; subst.
    + split; [intros _; left | eauto].
    + rewrite IH, elem_of_cons. naive_solver.
Qed.

Lemma dict_get_remove_ne {V} (k k' : pyid) (d : dict V) :
  k' ≠ k → dict_get k' (dict_remove k d) = dict_get k' d.
Proof.
  intros Hne. induction d as [|[k0 v0] d IH]; csimpl; [done|].
  repeat (case_decide; csimpl; subst); congruence.
Qed.

Lemma dict_get_remove_eq {V} (k : pyid) (d : dict V) :
  NoDup (dict_keys d) → dict_get k (dict_remove k d) = None.
Proof.
  unfold dict_keys. induction d as [|[k0 v0] d IH]; csimpl; [done|].
  intros [Hk Hd]%NoDup_cons. case_decide; subst.
  - destruct (dict_get k0 d) eqn:E; [|done].
    exfalso. apply Hk. apply dict_get_keys. eauto.
  - csimpl. case_decide; [done|]. auto.
Qed.

Lemma dict_keys_set {V} (k : pyid) (v : V) (d : dict V) :
  dict_keys (dict_set k v d)
  = if dict_mem k d then dict_keys d else dict_keys d ++ [k].
Proof.
  unfold dict_keys. induction d as [|[k0 v0] d IH]; csimpl; [done|].
  destruct (dict_mem k ((k0, v0) :: d)) eqn:E.
  - apply dict_mem_true in E. csimpl in E. case_decide; subst; csimpl; [done|].
    rewrite IH. apply dict_mem_true in E. by rewrite E.
  - apply dict_mem_false in E. csimpl in E. case_decide; [done|]. csimpl.
    rewrite IH. apply dict_mem_false in E. by rewrite E.
Qed.

Lemma dict_keys_remove {V} (k : pyid) (d : dict V) :
  NoDup (dict_keys d) →
  NoDup (dict_keys (dict_remove k d))
  ∧ ∀ k', k' ∈ dict_keys (dict_remove k d) ↔ k' ∈ dict_keys d ∧ k' ≠ k.
Proof.
  unfold dict_keys. induction d as [|[k0 v0] d IH]; csimpl.
  - intros _. split; [constructor|]. intros k'. rewrite elem_of_nil. naive_solver.
  - intros [Hk Hd]%NoDup_cons. destruct (IH Hd) as [IH1 IH2].
    case_decide; subst; csimpl.
    + split; [done|]. intros k'. rewrite elem_of_cons. naive_solver.
    + split.
      * apply NoDup_cons. split; [|done]. rewrite IH2. naive_solver.
      * intros k'. rewrite !elem_of_cons, IH2. naive_solver.
Qed.

Lemma dict_keys_set_NoDup {V} (k : pyid) (v : V) (d : dict V) :
  NoDup (dict_keys d) → NoDup (dict_keys (dict_set k v d)).
Proof.
  intros Hd. rewrite dict_keys_set. destruct (dict_mem k d) eqn:E; [done|].
  apply NoDup_app. split_and!; [done| |apply NoDup_singleton].
  intros x Hx ->%list_elem_of_singleton.
  apply dict_mem_false in E. apply dict_get_keys in Hx. rewrite E in Hx.
  by destruct Hx.
Qed.

(** ** Reading and writing the heap *)

Lemma entity_at_Some (h : heap) (l : loc) (e : Entity) :
  entity_at h l = Some e ↔ h !! l = Some (OEntity e).
Proof.
  unfold entity_at. destruct (h !! l) as [[]|]; naive_solver.
Qed.

Lemma lookup_set_entity (l l' : loc) (f : Entity → Entity) (h : heap) :
  set_entity l f h !! l'
  = if decide (l = l') then on_entity f <$> h !! l' else h !! l'.
Proof.
  unfold set_entity. rewrite list_lookup_alter.
  by case_decide; subst.
Qed.

Lemma entity_at_set_entity (l l' : loc) (f : Entity → Entity) (h : heap) :
  entity_at (set_entity l f h) l'
  = if decide (l = l') then f <$> entity_at h l' else entity_at h l'.
Proof.
  unfold entity_at. rewrite lookup_set_entity.
  case_decide; [|done]. by destruct (h !! l') as [[]|].
Qed.

Lemma length_set_entity (l : loc) (f : Entity → Entity) (h : heap) :
  length (set_entity l f h) = length h.
Proof. apply length_alter. Qed.

(** ** Heaps of the same shape *)

Lemma erase_with_full_id (v : option (list pyid)) (o : pyobj) :
  erase (on_entity (with_full_id v) o) = erase o.
Proof. by destruct o. Qed.

Lemma erase_obj_id (o : pyobj) : obj_id (erase o) = obj_id o.
Proof. by destruct o. Qed.

Lemma erase_obj_parent (o : pyobj) : obj_parent (erase o) = obj_parent o.
Proof. by destruct o. Qed.

Lemma erase_obj_children (o : pyobj) : obj_children (erase o) = obj_children o.
Proof. by destruct o. Qed.

#[export] Instance same_shape_equiv : Equivalence same_shape.
Proof.
  unfold same_shape. split.
  - by intros h.
  - by intros h h'.
  - intros h1 h2 h3 H1 H2. by rewrite H1.
Qed.

Lemma same_shape_lookup (h h' : heap) (l : loc) :
  same_shape h h' → erase <$> h !! l = erase <$> h' !! l.
Proof.
  intros Hs. rewrite <- !list_lookup_fmap. unfold same_shape in Hs. by rewrite Hs.
Qed.

Lemma same_shape_length (h h' : heap) :
  same_shape h h' → length h = length h'.
Proof.
  intros Hs. unfold same_shape in Hs.
  rewrite <- (length_fmap erase h), <- (length_fmap erase h'). by rewrite Hs.
Qed.

Lemma same_shape_set_full_id (h : heap) (l : loc) (v : option (list pyid)) :
  same_shape h (set_entity l (with_full_id v) h).
Proof.
  unfold same_shape, set_entity. apply list_eq. intros i.
  rewrite !list_lookup_fmap, list_lookup_alter.
  case_decide; subst; [|done].
  destruct (h !! i) as [o|]; [|done]. simpl. by rewrite erase_with_full_id.
Qed.

(** What [same_shape] keeps of an object. *)
Lemma same_shape_obj (h h' : heap) (l : loc) (o : pyobj) :
  same_shape h h' → h !! l = Some o →
  ∃ o', h' !! l = Some o' ∧ erase o' = erase o.
Proof.
  intros Hs Hl. pose proof (same_shape_lookup h h' l Hs) as E.
  rewrite Hl in E. destruct (h' !! l) as [o'|]; [|done].
  exists o'. split; [done|]. simpl in E. congruence.
Qed.

Lemma same_shape_entity (h h' : heap) (l : loc) (e : Entity) :
  same_shape h h' → entity_at h l = Some e →
  ∃ e', entity_at h' l = Some e' ∧ with_full_id None e' = with_full_id None e.
Proof.
  intros Hs He%entity_at_Some.
  destruct (same_shape_obj h h' l _ Hs He) as (o' & Ho' & E).
  destruct o' as [e'| | |]; try done. exists e'.
  split; [by apply entity_at_Some|]. simpl in E. congruence.
Qed.

Lemma with_full_id_None_inv (e e' : Entity) :
  with_full_id None e' = with_full_id None e →
  cls e' = cls e ∧ _id e' = _id e ∧ parent e' = parent e
  ∧ child_list e' = child_list e ∧ child_dict e' = child_dict e ∧ xtra e' = xtra e.
Proof. destruct e, e'. unfold with_full_id. simpl. intros [=]. by subst. Qed.

Lemma same_shape_not_entity (h h' : heap) (l : loc) (o : pyobj) :
  same_shape h h' → h !! l = Some o → (∀ e, o ≠ OEntity e) →
  h' !! l = Some o.
Proof.
  intros Hs Hl Hne. destruct (same_shape_obj h h' l o Hs Hl) as (o' & Ho' & E).
  rewrite Ho'. f_equal. destruct o, o'; simpl in E; try done; by exfalso; eapply Hne.
Qed.

Lemma same_shape_get_id (h h' : heap) (l : loc) :
  same_shape h h' → get_id h l = get_id h' l.
Proof.
  intros Hs. unfold get_id. pose proof (same_shape_lookup h h' l Hs) as E.
  destruct (h !! l) as [o|], (h' !! l) as [o'|]; simpl in *; try done.
  injection E as E. by rewrite <- (erase_obj_id o), E, erase_obj_id.
Qed.

Lemma same_shape_get_parent (h h' : heap) (l : loc) :
  same_shape h h' → get_parent h l = get_parent h' l.
Proof.
  intros Hs. unfold get_parent. pose proof (same_shape_lookup h h' l Hs) as E.
  destruct (h !! l) as [o|], (h' !! l) as [o'|]; simpl in *; try done.
  injection E as E. by rewrite <- (erase_obj_parent o), E, erase_obj_parent.
Qed.

Lemma same_shape_hier (h h' : heap) (l : loc) :
  same_shape h h' → hier h l = hier h' l.
Proof.
  intros Hs. unfold hier. pose proof (same_shape_lookup h h' l Hs) as E.
  destruct (h !! l) as [o|], (h' !! l) as [o'|]; simpl in *; try done.
  injection E as E. by destruct o, o'.
Qed.

Lemma same_shape_walk_parents (h h' : heap) :
  same_shape h h' →
  ∀ fuel p parts,
    Entity.walk_parents fuel h p parts = Entity.walk_parents fuel h' p parts.
Proof.
  intros Hs fuel. induction fuel as [|k IH]; intros [q|] parts; simpl; try done.
  rewrite (same_shape_get_id h h' q Hs), (same_shape_get_parent h h' q Hs).
  destruct (get_id h' q); simpl; try done.
  destruct (get_parent h' q); simpl; try done.
Qed.

Lemma same_shape_generate (g : nat) (h h' : heap) (l : loc) :
  same_shape h h' →
  Entity._generate_full_id g h l = Entity._generate_full_id g h' l.
Proof.
  intros Hs. unfold Entity._generate_full_id.
  rewrite (same_shape_get_id h h' l Hs), (same_shape_get_parent h h' l Hs).
  destruct (get_id h' l); simpl; try done.
  destruct (get_parent h' l); simpl; try done.
  by rewrite (same_shape_walk_parents h h' Hs).
Qed.

Lemma same_shape_reach (h h' : heap) (l d : loc) :
  same_shape h h' → reset_reach h l d → reset_reach h' l d.
Proof.
  intros Hs Hr. induction Hr as [l e He|l e c d He Hc _ IH|l w s d Hw Hsel _ IH].
  - destruct (same_shape_entity h h' l e Hs He) as (e' & He' & _).
    by eapply reach_self.
  - destruct (same_shape_entity h h' l e Hs He) as (e' & He' & E).
    apply with_full_id_None_inv in E as (_ & _ & _ & E & _).
    eapply reach_child; [done| |done]. by rewrite E.
  - eapply reach_selected; [|done|done].
    by eapply same_shape_not_entity.
Qed.

(** ** The path generated from the parent references *)

Lemma walk_parents_app (fuel : nat) (h : heap) :
  ∀ p parts r,
    Entity.walk_parents fuel h p parts = Ok r →
    ∃ more, r = parts ++ more ∧ (p ≠ None → more ≠ []).
Proof.
  induction fuel as [|k IH]; intros [q|] parts r; simpl; try done.
  - intros [= <-]. exists []. by rewrite app_nil_r.
  - destruct (get_id h q) as [i| | |]; simpl; try done.
    destruct (get_parent h q) as [p'| | |]; simpl; try done.
    intros (more & -> & _)%IH. exists (i :: more).
    by rewrite <- app_assoc.
  - intros [= <-]. exists []. by rewrite app_nil_r.
Qed.

Lemma generate_full_id_last (g : nat) (h : heap) (l : loc) (f : list pyid) :
  Entity._generate_full_id g h l = Ok f →
  ∃ i, get_id h l = Ok i ∧ last f = Some i
       ∧ (get_parent h l ≠ Ok None → 2 ≤ length f).
Proof.
  unfold Entity._generate_full_id.
  destruct (get_id h l) as [i| | |]; simpl; try done.
  destruct (get_parent h l) as [p| | |]; simpl; try done.
  destruct (Entity.walk_parents g h p [i]) as [parts| | |] eqn:E; simpl; try done.
  intros [= <-]. exists i. split; [done|].
  apply walk_parents_app in E as (more & -> & Hne).
  change ([i] ++ more) with (i :: more). split.
  - simpl. apply last_snoc.
  - intros Hp. rewrite length_rev. simpl.
    destruct more; simpl; [|lia]. exfalso. apply Hne; [|done]. congruence.
Qed.

(** ** Ranked heaps *)

Definition ranked_at (rk : loc → nat) (top : nat) (h : heap) (l : loc) (o : pyobj) : Prop :=
  rk l ≤ top
  ∧ (∀ q, obj_parent o = Some (Some q) → rk l < rk q ∧ hier h q = true)
  ∧ (∀ c, c ∈ obj_children o → rk c < rk l ∧ hier h c = true).

Definition ranked_prop (rk : loc → nat) (top : nat) (h : heap) : Prop :=
  ∀ l o, h !! l = Some o → ranked_at rk top h l o.

Lemma obj_ranked_spec (rk : loc → nat) (top : nat) (h : heap) (l : loc) (o : pyobj) :
  obj_ranked rk top h l o = true → ranked_at rk top h l o.
Proof.
  unfold obj_ranked, ranked_at.
  intros [[Ht%bool_decide_eq_true Hp]%andb_true_iff Hc]%andb_true_iff.
  split_and!; [done| |].
  - intros q Hq. rewrite Hq in Hp.
    apply andb_true_iff in Hp as [Hp ?]. by apply bool_decide_eq_true in Hp.
  - intros c Hc'. rewrite forallb_forall in Hc.
    specialize (Hc c (proj1 (list_elem_of_In _ _) Hc')).
    apply andb_true_iff in Hc as [Hc ?]. by apply bool_decide_eq_true in Hc.
Qed.

Lemma ranked_ranked_prop (rk : loc → nat) (top : nat) (h : heap) :
  ranked rk top h → ranked_prop rk top h.
Proof.
  unfold ranked. intros Hr l o Hl.
  rewrite forallb_forall in Hr.
  apply obj_ranked_spec. apply Hr. apply list_elem_of_In.
  by apply elem_of_lookup_imap_2.
Qed.

Lemma same_shape_ranked (rk : loc → nat) (top : nat) (h h' : heap) :
  same_shape h h' → ranked_prop rk top h → ranked_prop rk top h'.
Proof.
  intros Hs Hr l o' Hl.
  assert (same_shape h' h) as Hs' by done.
  destruct (same_shape_obj h' h l o' Hs' Hl) as (o & Ho & E).
  destruct (Hr l o Ho) as (Ht & Hp & Hc). split_and!; [done| |].
  - intros q Hq. rewrite <- (same_shape_hier h h' q Hs). apply Hp.
    by rewrite <- erase_obj_parent, E, erase_obj_parent.
  - intros c Hc'. rewrite <- (same_shape_hier h h' c Hs). apply Hc.
    by rewrite <- erase_obj_children, E, erase_obj_children.
Qed.

Lemma hier_get_id (h : heap) (l : loc) :
  hier h l = true → ∃ i p, get_id h l = Ok i ∧ get_parent h l = Ok p
    ∧ ∃ o, h !! l = Some o ∧ obj_parent o = Some p.
Proof.
  unfold hier, get_id, get_parent.
  destruct (h !! l) as [[e|a|w|d]|]; simpl; try done; eauto 8.
Qed.

Lemma walk_parents_total (rk : loc → nat) (top : nat) (h : heap) :
  ranked_prop rk top h →
  ∀ fuel q parts, hier h q = true → top - rk q < fuel →
    ∃ r, Entity.walk_parents fuel h (Some q) parts = Ok r.
Proof.
  intros Hr fuel. induction fuel as [|k IH]; intros q parts Hq Hf; [lia|].
  simpl. destruct (hier_get_id h q Hq) as (i & p & -> & -> & o & Ho & Hp).
  simpl. destruct p as [q'|].
  - destruct (Hr q o Ho) as (Ht & Hpar & _). destruct (Hpar q' Hp) as [? Hq'].
    destruct (hier_get_id h q' Hq') as (_ & _ & _ & _ & o' & Ho' & _).
    destruct (Hr q' o' Ho') as (Ht' & _).
    apply IH; [done|lia].
  - destruct k; simpl; eauto.
Qed.

Lemma generate_full_id_total (rk : loc → nat) (top g : nat) (h : heap) (l : loc) :
  ranked_prop rk top h → hier h l = true → top ≤ g + rk l →
  ∃ f, Entity._generate_full_id g h l = Ok f.
Proof.
  intros Hr Hl Hg. unfold Entity._generate_full_id.
  destruct (hier_get_id h l Hl) as (i & p & -> & -> & o & Ho & Hp). simpl.
  destruct p as [q|].
  - destruct (Hr l o Ho) as (Ht & Hpar & _). destruct (Hpar q Hp) as [? Hq].
    destruct (hier_get_id h q Hq) as (_ & _ & _ & _ & o' & Ho' & _).
    destruct (Hr q o' Ho') as (Ht' & _).
    destruct (walk_parents_total rk top h Hr g q [i]) as [r ->]; [done|lia|].
    simpl. eauto.
  - destruct g; simpl; eauto.
Qed.

(** ** Resetting the cached paths *)

Lemma cache_upd_refl (g : nat) (h : heap) : cache_upd g h h.
Proof.
  split; [done|]. intros d e' He. left. by rewrite He.
Qed.

Lemma cache_upd_trans (g : nat) (h1 h2 h3 : heap) :
  cache_upd g h1 h2 → cache_upd g h2 h3 → cache_upd g h1 h3.
Proof.
  intros [S12 U12] [S23 U23]. split; [by etrans|].
  intros d e3 He3. destruct (U23 d e3 He3) as [E|(f & Hf & Hg)].
  - destruct (entity_at h2 d) as [e2|] eqn:He2; [|done].
    injection E as E. rewrite <- E. by apply U12.
  - right. exists f. split; [done|]. by rewrite (same_shape_generate g h1 h2 d S12).
Qed.

Lemma cache_fresh_upd (g : nat) (h h' : heap) (d : loc) :
  cache_fresh g h d → cache_upd g h h' → cache_fresh g h' d.
Proof.
  intros (e & f & He & Hf & Hg) [Hs Hu].
  destruct (same_shape_entity h h' d e Hs He) as (e' & He' & _).
  exists e', f. split; [done|].
  rewrite <- (same_shape_generate g h h' d Hs). split; [|done].
  destruct (Hu d e' He') as [E|(f' & Hf' & Hg')].
  - rewrite He in E. injection E as E. congruence.
  - congruence.
Qed.

Lemma cache_upd_set (g : nat) (h : heap) (l : loc) (f : list pyid) :
  Entity._generate_full_id g h l = Ok f →
  cache_upd g h (set_entity l (with_full_id (Some f)) h).
Proof.
  intros Hg. split; [apply same_shape_set_full_id|].
  intros d e'. rewrite entity_at_set_entity. case_decide; subst.
  - destruct (entity_at h d) as [e|]; [|done]. intros [= <-].
    right. by exists f.
  - intros ->. by left.
Qed.

Lemma get_id_not_raise (h : heap) (l : loc) (x : exn) : get_id h l ≠ Raise x.
Proof. unfold get_id. by destruct (h !! l ≫= obj_id). Qed.

Lemma get_parent_not_raise (h : heap) (l : loc) (x : exn) : get_parent h l ≠ Raise x.
Proof. unfold get_parent. by destruct (h !! l ≫= obj_parent). Qed.

Lemma walk_parents_not_raise (fuel : nat) (h : heap) :
  ∀ p parts x, Entity.walk_parents fuel h p parts ≠ Raise x.
Proof.
  induction fuel as [|k IH]; intros [q|] parts x; simpl; try done.
  destruct (get_id h q) as [i|y| |] eqn:E1; simpl; try done.
  - destruct (get_parent h q) as [p'|y| |] eqn:E2; simpl; try done.
    by apply get_parent_not_raise in E2.
  - by apply get_id_not_raise in E1.
Qed.

Lemma generate_full_id_not_raise (g : nat) (h : heap) (l : loc) (x : exn) :
  Entity._generate_full_id g h l ≠ Raise x.
Proof.
  unfold Entity._generate_full_id.
  destruct (get_id h l) as [i|y| |] eqn:E1; simpl; try done.
  - destruct (get_parent h l) as [p|y| |] eqn:E2; simpl; try done.
    + destruct (Entity.walk_parents g h p [i]) as [r|y| |] eqn:E3; simpl; try done.
      by apply walk_parents_not_raise in E3.
    + by apply get_parent_not_raise in E2.
  - by apply get_id_not_raise in E1.
Qed.

(** What a call [l._reset_full_id()] that comes back has done. *)
Definition reset_post (g : nat) (h : heap) (l : loc) (r : outcome unit) : Prop :=
  match r with
  | Ret _ h' => cache_upd g h h' ∧ ∀ d, reset_reach h l d → cache_fresh g h' d
  | Exc x h' => x = AttributeError ∧ h' = h ∧ ∀ d, ¬ reset_reach h l d
  | Loop | Stuck => True
  end.

Lemma reset_children_sound (g k : nat) :
  (∀ h l, reset_post g h l (Entity._reset_full_id g k h l)) →
  ∀ cs h,
    match for_each (λ child h', except_AttributeError
                                  (Entity._reset_full_id g k h' child)) cs h with
    | Ret _ h' =>
        cache_upd g h h' ∧ ∀ c d, c ∈ cs → reset_reach h c d → cache_fresh g h' d
    | Exc _ _ => False
    | Loop | Stuck => True
    end.
Proof.
  intros IH cs. induction cs as [|c cs IHcs]; intros h; simpl.
  - split; [apply cache_upd_refl|]. by intros c d ?%elem_of_nil.
  - specialize (IH h c).
    destruct (Entity._reset_full_id g k h c) as [[] h1|x h1| |]; simpl in *; try done.
    + specialize (IHcs h1). destruct IH as [U1 F1].
      destruct (for_each _ cs h1) as [[] h2|x h2| |]; try done.
      destruct IHcs as [U2 F2]. split; [by eapply cache_upd_trans|].
      intros c' d [->|Hc']%elem_of_cons Hr.
      * eapply cache_fresh_upd; [|done]. by apply F1.
      * eapply F2; [done|]. eapply same_shape_reach; [|done]. apply U1.
    + destruct IH as (-> & -> & Hno). simpl. specialize (IHcs h).
      destruct (for_each _ cs h) as [[] h2|x h2| |]; try done.
      destruct IHcs as [U2 F2]. split; [done|].
      intros c' d [->|Hc']%elem_of_cons Hr; [by destruct (Hno d)|by eapply F2].
Qed.

Lemma reset_sound (g : nat) :
  ∀ fuel h l, reset_post g h l (Entity._reset_full_id g fuel h l).
Proof.
  induction fuel as [|k IH]; intros h l; [done|]. simpl.
  destruct (h !! l) as [[e|a|w|dd]|] eqn:Hl; try done.
  - pose proof (reset_children_sound g k IH (child_list e) h) as Hc.
    destruct (for_each _ (child_list e) h) as [[] h1|x h1| |]; simpl; try done.
    destruct Hc as [U1 F1].
    pose proof (generate_full_id_not_raise g h1 l) as Hnr.
    destruct (Entity._generate_full_id g h1 l) as [fid|x| |] eqn:Hg; simpl; try done.
    + pose proof (cache_upd_set g h1 l fid Hg) as U2.
      split; [by eapply cache_upd_trans|].
      intros d Hr. inversion Hr as [l0 e0 He0|l0 e0 c d0 He0 Hc Hr'|l0 w s d0 Hw]; subst.
      * destruct (same_shape_entity h h1 d e0 (proj1 U1) He0) as (e1 & He1 & _).
        exists (with_full_id (Some fid) e1), fid. split_and!; [|done|].
        -- rewrite entity_at_set_entity. case_decide; [|done]. by rewrite He1.
        -- by rewrite <- (same_shape_generate g _ _ d (proj1 U2)).
      * apply entity_at_Some in He0. rewrite Hl in He0. injection He0 as <-.
        eapply cache_fresh_upd; [|done]. by eapply F1.
      * congruence.
    + by destruct (Hnr x).
  - split_and!; try done. intros d Hr. inversion Hr; subst.
    + apply entity_at_Some in H. congruence.
    + apply entity_at_Some in H. congruence.
    + congruence.
  - destruct (selected_child w) as [s|] eqn:Hs.
    + specialize (IH h s).
      destruct (Entity._reset_full_id g k h s) as [[] h1|x h1| |]; simpl in *; try done.
      * destruct IH as [U F]. split; [done|]. intros d Hr. apply F.
        inversion Hr; subst.
        -- apply entity_at_Some in H. congruence.
        -- apply entity_at_Some in H. congruence.
        -- congruence.
      * destruct IH as (-> & -> & Hno). split_and!; try done.
        intros d Hr. apply (Hno d). inversion Hr; subst.
        -- apply entity_at_Some in H. congruence.
        -- apply entity_at_Some in H. congruence.
        -- congruence.
    + split_and!; try done. intros d Hr. inversion Hr; subst.
      * apply entity_at_Some in H. congruence.
      * apply entity_at_Some in H. congruence.
      * congruence.
Qed.

(** In a ranked heap the call comes back: normally on an entity, and
    otherwise with the [AttributeError] that the caller catches. *)
Definition reset_returns (h : heap) (l : loc) (r : outcome unit) : Prop :=
  match r with
  | Ret _ _ => True
  | Exc _ _ => entity_at h l = None
  | Loop | Stuck => False
  end.

Lemma reset_children_total (rk : loc → nat) (top g k : nat) :
  (∀ h l, ranked_prop rk top h → hier h l = true → rk l < k →
          reset_returns h l (Entity._reset_full_id g k h l)) →
  ∀ cs h, ranked_prop rk top h →
    (∀ c, c ∈ cs → rk c < k ∧ hier h c = true) →
    ∃ h', for_each (λ child h', except_AttributeError
                                  (Entity._reset_full_id g k h' child)) cs h
          = Ret tt h'.
Proof.
  intros IH cs. induction cs as [|c cs IHcs]; intros h Hr Hcs; simpl; [eauto|].
  destruct (Hcs c) as [Hk Hh]; [left|].
  specialize (IH h c Hr Hh Hk). pose proof (reset_sound g k h c) as Hp.
  destruct (Entity._reset_full_id g k h c) as [[] h1|x h1| |]; simpl in *; try done.
  - destruct Hp as [[Hs _] _]. apply IHcs; [by eapply same_shape_ranked|].
    intros c' Hc'. rewrite <- (same_shape_hier h h1 c' Hs). apply Hcs. by right.
  - destruct Hp as (-> & -> & _). simpl. apply IHcs; [done|].
    intros c' Hc'. apply Hcs. by right.
Qed.

Lemma reset_total (rk : loc → nat) (top g : nat) :
  top ≤ g →
  ∀ fuel h l, ranked_prop rk top h → hier h l = true → rk l < fuel →
    reset_returns h l (Entity._reset_full_id g fuel h l).
Proof.
  intros Hg. induction fuel as [|k IH]; intros h l Hr Hl Hf; [lia|]. simpl.
  unfold hier in Hl. unfold reset_returns at 1, entity_at.
  destruct (h !! l) as [[e|a|w|dd]|] eqn:Hlk; try done.
  - destruct (Hr l _ Hlk) as (_ & _ & Hch).
    destruct (reset_children_total rk top g k IH (child_list e) h Hr) as [h1 E].
    { intros c Hc. destruct (Hch c Hc). split; [lia|done]. }
    pose proof (reset_children_sound g k (reset_sound g k) (child_list e) h) as Hp.
    rewrite E in Hp |- *. simpl. destruct Hp as [[Hs _] _].
    destruct (generate_full_id_total rk top g h1 l) as [f ->]; [| |lia|done].
    + by eapply same_shape_ranked.
    + rewrite <- (same_shape_hier h h1 l Hs). unfold hier. by rewrite Hlk.
  - destruct (selected_child w) as [s|] eqn:Hs; [|done].
    destruct (Hr l _ Hlk) as (_ & _ & Hch). destruct (Hch s) as [? ?].
    { simpl. rewrite Hs. left. }
    specialize (IH h s Hr H0 ltac:(lia)).
    destruct (Entity._reset_full_id g k h s); done.
Qed.

(** [_reset_full_id] on an entity of a ranked heap: it returns, only
    caches have changed, and the entity and everything below it hold their
    regenerated path. *)
Lemma reset_full_id_entity (rk : loc → nat) (top g fuel : nat) (h : heap)
    (l : loc) (e : Entity) :
  ranked_prop rk top h → top ≤ g → rk l < fuel → entity_at h l = Some e →
  ∃ h', Entity._reset_full_id g fuel h l = Ret tt h'
    ∧ cache_upd g h h'
    ∧ ∀ d, reset_reach h l d → cache_fresh g h' d.
Proof.
  intros Hr Hg Hf He.
  assert (hier h l = true) as Hl.
  { apply entity_at_Some in He. unfold hier. by rewrite He. }
  pose proof (reset_total rk top g Hg fuel h l Hr Hl Hf) as Ht.
  pose proof (reset_sound g fuel h l) as Hp.
  destruct (Entity._reset_full_id g fuel h l) as [[] h1|x h1| |]; simpl in *;
    try done; [|congruence].
  exists h1. by destruct Hp.
Qed.

(** ** Attaching *)

Lemma walk_parents_ext (h h' : heap) :
  (∀ l, h !! l ≫= obj_id = h' !! l ≫= obj_id) →
  (∀ l, h !! l ≫= obj_parent = h' !! l ≫= obj_parent) →
  ∀ fuel p parts,
    Entity.walk_parents fuel h p parts = Entity.walk_parents fuel h' p parts.
Proof.
  intros Hi Hp fuel. induction fuel as [|k IH]; intros [q|] parts; simpl; try done.
  unfold get_id, get_parent. rewrite (Hi q), (Hp q).
  destruct (h' !! q ≫= obj_id); simpl; try done.
  destruct (h' !! q ≫= obj_parent); simpl; try done.
Qed.

Lemma generate_ext (g : nat) (h h' : heap) :
  (∀ l, h !! l ≫= obj_id = h' !! l ≫= obj_id) →
  (∀ l, h !! l ≫= obj_parent = h' !! l ≫= obj_parent) →
  ∀ l, Entity._generate_full_id g h l = Entity._generate_full_id g h' l.
Proof.
  intros Hi Hp l. unfold Entity._generate_full_id, get_id, get_parent.
  rewrite (Hi l), (Hp l).
  destruct (h' !! l ≫= obj_id); simpl; try done.
  destruct (h' !! l ≫= obj_parent); simpl; try done.
  by rewrite (walk_parents_ext h h' Hi Hp).
Qed.

Lemma reach_ext (h h' : heap) :
  (∀ l e, entity_at h l = Some e →
          ∃ e', entity_at h' l = Some e' ∧ child_list e' = child_list e) →
  (∀ l w, h !! l = Some (ODisordered w) →
          ∃ w', h' !! l = Some (ODisordered w')
                ∧ selected_child w' = selected_child w) →
  ∀ l d, reset_reach h l d → reset_reach h' l d.
Proof.
  intros HE HW l d Hr.
  induction Hr as [l e He|l e c d He Hc _ IH|l w s d Hw Hsel _ IH].
  - destruct (HE l e He) as (e' & He' & _). by eapply reach_self.
  - destruct (HE l e He) as (e' & He' & E).
    eapply reach_child; [done| |done]. by rewrite E.
  - destruct (HW l w Hw) as (w' & Hw' & E).
    eapply reach_selected; [done| |done]. by rewrite E.
Qed.

Lemma ranked_ext (rk : loc → nat) (top : nat) (h h' : heap) :
  (∀ l, hier h' l = hier h l) →
  (∀ l o', h' !! l = Some o' →
     ∃ o, h !! l = Some o ∧ obj_parent o' = obj_parent o
          ∧ obj_children o' ⊆ obj_children o) →
  ranked_prop rk top h → ranked_prop rk top h'.
Proof.
  intros Hh Ho Hr l o' Hl. destruct (Ho l o' Hl) as (o & Hlo & Ep & Ec).
  destruct (Hr l o Hlo) as (Ht & Hp & Hc). split_and!; [done| |].
  - intros q Hq. rewrite Hh. apply Hp. by rewrite <- Ep.
  - intros c Hc'. rewrite Hh. apply Hc. by apply Ec.
Qed.

Lemma unparent_lookup (h h' : heap) (l : loc) :
  unparent <$> h = unparent <$> h' → unparent <$> h !! l = unparent <$> h' !! l.
Proof. intros E. by rewrite <- !list_lookup_fmap, E. Qed.

Lemma unparent_obj (h h' : heap) (l : loc) (o : pyobj) :
  unparent <$> h = unparent <$> h' → h !! l = Some o →
  ∃ o', h' !! l = Some o' ∧ unparent o' = unparent o.
Proof.
  intros Hs Hl. pose proof (unparent_lookup h h' l Hs) as E.
  rewrite Hl in E. destruct (h' !! l) as [o'|]; [|done].
  exists o'. split; [done|]. simpl in E. congruence.
Qed.

Lemma unparent_obj_id (o o' : pyobj) :
  unparent o' = unparent o → obj_id o' = obj_id o.
Proof.
  destruct o as [[]| [] | [] |], o' as [[]| [] | [] |]; simpl; intros [=];
    by subst.
Qed.

Lemma unparent_obj_children (o o' : pyobj) :
  unparent o' = unparent o → obj_children o' = obj_children o.
Proof.
  destruct o as [[]| [] | [] |], o' as [[]| [] | [] |]; simpl; intros [=];
    by subst.
Qed.

Lemma unparent_hier (h h' : heap) (l : loc) :
  unparent <$> h = unparent <$> h' → hier h' l = hier h l.
Proof.
  intros Hs. unfold hier. pose proof (unparent_lookup h h' l Hs) as E.
  destruct (h !! l) as [o|], (h' !! l) as [o'|]; simpl in *; try done.
  injection E as E. by destruct o, o'.
Qed.

Lemma unparent_entity (h h' : heap) (l : loc) (e : Entity) :
  unparent <$> h = unparent <$> h' → entity_at h l = Some e →
  ∃ e', entity_at h' l = Some e'
    ∧ cls e' = cls e ∧ _id e' = _id e ∧ child_list e' = child_list e
    ∧ child_dict e' = child_dict e ∧ xtra e' = xtra e.
Proof.
  intros Hs He%entity_at_Some.
  destruct (unparent_obj h h' l _ Hs He) as (o' & Ho' & E).
  destruct o' as [e'| | |]; try done. exists e'.
  split; [by apply entity_at_Some|]. destruct e, e'. simpl in *.
  injection E as -> -> -> -> ->. done.
Qed.

Lemma unparent_wrapper (h h' : heap) (l : loc) (w : Disordered) :
  unparent <$> h = unparent <$> h' → h !! l = Some (ODisordered w) →
  ∃ w', h' !! l = Some (ODisordered w')
    ∧ d_id w' = d_id w ∧ d_child_dict w' = d_child_dict w
    ∧ selected_child w' = selected_child w.
Proof.
  intros Hs Hw.
  destruct (unparent_obj h h' l _ Hs Hw) as (o' & Ho' & E).
  destruct o' as [|  |w'|]; try done. exists w'.
  split; [done|]. destruct w, w'. simpl in *.
  injection E as -> -> ->. done.
Qed.

Lemma unparent_reach (h h' : heap) (l d : loc) :
  unparent <$> h = unparent <$> h' → reset_reach h l d → reset_reach h' l d.
Proof.
  intros Hs. apply reach_ext.
  - intros l0 e He. destruct (unparent_entity h h' l0 e Hs He) as (e' & ? & ?).
    exists e'. naive_solver.
  - intros l0 w Hw. destruct (unparent_wrapper h h' l0 w Hs Hw) as (w' & ? & ?).
    exists w'. naive_solver.
Qed.

Lemma reparented_refl (rk : loc → nat) (p : loc) (h : heap) : reparented rk p h h.
Proof. split; [done|]. intros l o' ->. by left. Qed.

Lemma reparented_trans (rk : loc → nat) (p : loc) (h1 h2 h3 : heap) :
  reparented rk p h1 h2 → reparented rk p h2 h3 → reparented rk p h1 h3.
Proof.
  intros [S12 U12] [S23 U23]. split; [by etrans|].
  intros l o3 Ho3. destruct (U23 l o3 Ho3) as [E|?]; [|by right].
  destruct (h2 !! l) as [o2|] eqn:Ho2; [|done]. injection E as E.
  rewrite <- E. by apply U12.
Qed.

Lemma same_shape_unparent (h h' : heap) :
  same_shape h h' → unparent <$> h = unparent <$> h'.
Proof.
  unfold same_shape. intros Hs.
  assert (∀ o, unparent o = unparent (erase o)) as E by (by intros []).
  rewrite (list_fmap_ext unparent (unparent ∘ erase) h) by (intros; apply E).
  rewrite (list_fmap_ext unparent (unparent ∘ erase) h') by (intros; apply E).
  by rewrite !list_fmap_compose, Hs.
Qed.

Lemma same_shape_reparented (rk : loc → nat) (p : loc) (h h' : heap) :
  same_shape h h' → reparented rk p h h'.
Proof.
  intros Hs. split; [by apply same_shape_unparent|].
  intros l o' Ho'. left. assert (same_shape h' h) as Hs' by done.
  destruct (same_shape_obj h' h l o' Hs' Ho') as (o & -> & E). simpl.
  by rewrite <- (erase_obj_parent o), E, erase_obj_parent.
Qed.

Lemma reparented_ranked (rk : loc → nat) (top : nat) (p : loc) (h h' : heap) :
  ranked_prop rk top h → hier h p = true → reparented rk p h h' →
  ranked_prop rk top h'.
Proof.
  intros Hr Hp [Hs Hu] l o' Hl.
  assert (unparent <$> h' = unparent <$> h) as Hs' by done.
  destruct (unparent_obj h' h l o' Hs' Hl) as (o & Ho & E).
  destruct (Hr l o Ho) as (Ht & Hpar & Hc). split_and!; [done| |].
  - intros q Hq. rewrite (unparent_hier h h' q Hs).
    destruct (Hu l o' Hl) as [E'|[E' ?]].
    + rewrite Ho in E'. injection E' as E'. apply Hpar. congruence.
    + rewrite Hq in E'. injection E' as ->. done.
  - intros c Hc'. rewrite (unparent_hier h h' c Hs). apply Hc.
    by rewrite (unparent_obj_children o' o).
Qed.

Lemma hier_Some (h : heap) (l : loc) :
  hier h l = true → ∃ o, h !! l = Some o ∧ ∀ d, o ≠ ODict d.
Proof.
  unfold hier. destruct (h !! l) as [[]|]; try done; eauto.
Qed.

Lemma reparented_insert (rk : loc → nat) (p l : loc) (h : heap) (o o' : pyobj) :
  h !! l = Some o → unparent o' = unparent o →
  obj_parent o' = Some (Some p) → rk l < rk p →
  reparented rk p h (<[l := o']> h).
Proof.
  intros Hl E Hp Hlt. split.
  - apply list_eq. intros i. rewrite !list_lookup_fmap.
    destruct (decide (i = l)) as [->|Hne].
    + rewrite list_lookup_insert_eq by (by eapply lookup_lt_Some).
      rewrite Hl. simpl. by rewrite E.
    + by rewrite list_lookup_insert_ne.
  - intros i o2. destruct (decide (i = l)) as [->|Hne].
    + rewrite list_lookup_insert_eq by (by eapply lookup_lt_Some).
      intros [= <-]. by right.
    + rewrite list_lookup_insert_ne by done. intros ->. by left.
Qed.

Lemma set_entity_insert (h : heap) (l : loc) (e : Entity) (f : Entity → Entity) :
  entity_at h l = Some e → set_entity l f h = <[l := OEntity (f e)]> h.
Proof.
  intros He%entity_at_Some. unfold set_entity. apply list_eq. intros i.
  rewrite list_lookup_alter. case_decide; subst.
  - rewrite list_lookup_insert_eq by (by eapply lookup_lt_Some). by rewrite He.
  - by rewrite list_lookup_insert_ne.
Qed.

(** [o.set_parent(p)] in a ranked heap, for an object of any kind. *)
Lemma set_parent_spec (rk : loc → nat) (top : nat) (p : loc) :
  ∀ fuel h l,
    ranked_prop rk top h → hier h p = true → hier h l = true →
    rk l < rk p → top + rk l < fuel →
    ∃ h', Entity.set_parent fuel h l p = Ret tt h'
      ∧ reparented rk p h h'
      ∧ h' !! l ≫= obj_parent = Some (Some p)
      ∧ (∀ d, is_Some (entity_at h l) → reset_reach h l d → cache_fresh fuel h' d).
Proof.
  induction fuel as [|k IH]; intros h l Hr Hp Hl Hlt Hf; [lia|].
  destruct (hier_Some h l Hl) as (o & Ho & Hnd).
  destruct o as [e|a|w|dd]; [| | |by destruct (Hnd dd)].
  - (* an entity *)
    assert (entity_at h l = Some e) as He by (by apply entity_at_Some).
    cbn [Entity.set_parent]. rewrite Ho.
    set (h0 := set_entity l (with_parent (Some p)) h).
    assert (reparented rk p h h0) as R0.
    { unfold h0. rewrite (set_entity_insert h l e) by done.
      by eapply reparented_insert. }
    assert (ranked_prop rk top h0) as Hr0
      by (apply (reparented_ranked rk top p h h0 Hr Hp R0)).
    assert (entity_at h0 l = Some (with_parent (Some p) e)) as He0.
    { unfold h0. rewrite entity_at_set_entity. case_decide; [|done]. by rewrite He. }
    destruct (reset_full_id_entity rk top (S k) (S k) h0 l
                (with_parent (Some p) e) Hr0) as (h1 & Hreset & U & F);
      [lia|lia|done|].
    fold h0. rewrite Hreset.
    exists h1. split; [done|]. split_and!.
    + eapply reparented_trans; [done|]. apply same_shape_reparented, U.
    + destruct (same_shape_entity h0 h1 l _ (proj1 U) He0) as (e1 & He1 & E).
      apply entity_at_Some in He1. rewrite He1. simpl.
      apply with_full_id_None_inv in E as (_ & _ & -> & _). done.
    + intros d _ Hd. apply F. by eapply unparent_reach; [apply R0|].
  - (* an atom *)
    cbn [Entity.set_parent]. rewrite Ho. eexists. split; [done|]. split_and!.
    + by eapply reparented_insert.
    + rewrite list_lookup_insert_eq by (by eapply lookup_lt_Some). done.
    + intros d [e He]. apply entity_at_Some in He. congruence.
  - (* a wrapper *)
    cbn [Entity.set_parent]. rewrite Ho.
    set (h0 := <[l := ODisordered (d_with_parent (Some p) w)]> h).
    assert (reparented rk p h h0) as R0 by (by eapply reparented_insert).
    assert (ranked_prop rk top h0) as Hr0
      by (apply (reparented_ranked rk top p h h0 Hr Hp R0)).
    destruct (Hr l _ Ho) as (Ht & _ & Hch).
    assert (∀ cs h1, ranked_prop rk top h1 → hier h1 p = true →
              (∀ c, c ∈ cs → rk c < rk l ∧ hier h1 c = true) →
              ∃ h', for_each (λ child h', Entity.set_parent k h' child p) cs h1
                    = Ret tt h' ∧ reparented rk p h1 h') as Hloop.
    { induction cs as [|c cs IHcs]; intros h1 Hr1 Hp1 Hcs; simpl.
      { eexists. split; [done|]. apply reparented_refl. }
      destruct (Hcs c) as [Hc1 Hc2]; [left|].
      destruct (IH h1 c) as (h2 & -> & R2 & _); [done|done|done|lia|lia|].
      simpl. destruct (IHcs h2) as (h3 & -> & R3).
      - apply (reparented_ranked rk top p h1 h2 Hr1 Hp1 R2).
      - by rewrite (unparent_hier h1 h2 p (proj1 R2)).
      - intros c' Hc'. rewrite (unparent_hier h1 h2 c' (proj1 R2)).
        apply Hcs. by right.
      - eexists. split; [done|]. by eapply reparented_trans. }
    destruct (Hloop (dict_values (d_child_dict w)) h0 Hr0) as (h' & -> & R').
    { by rewrite (unparent_hier h h0 p (proj1 R0)). }
    { intros c Hc. rewrite (unparent_hier h h0 c (proj1 R0)).
      apply Hch. simpl. apply elem_of_app. by right. }
    exists h'. split; [done|]. split_and!.
    + by eapply reparented_trans.
    + assert (h0 !! l = Some (ODisordered (d_with_parent (Some p) w))) as Hl0.
      { unfold h0. rewrite list_lookup_insert_eq by (by eapply lookup_lt_Some). done. }
      destruct (unparent_obj h0 h' l _ (proj1 R') Hl0) as (o' & Ho' & _).
      rewrite Ho'. simpl. destruct R' as [_ U'].
      destruct (U' l o' Ho') as [E|[E _]]; [|done].
      rewrite Hl0 in E. simpl in E. by injection E as <-.
    + intros d [e He]. apply entity_at_Some in He. congruence.
Qed.

(** ** The index of the children *)

Definition in_sync_prop (h : heap) (e : Entity) : Prop :=
  NoDup (dict_keys (child_dict e))
  ∧ (∀ c, c ∈ child_list e → is_Some (h !! c ≫= obj_id))
  ∧ ∀ k c, dict_get k (child_dict e) = Some c
           ↔ c ∈ child_list e ∧ h !! c ≫= obj_id = Some k.

Lemma dict_get_NoDup {V} (k : pyid) (v : V) (d : dict V) :
  NoDup (dict_keys d) → (k, v) ∈ d → dict_get k d = Some v.
Proof.
  unfold dict_keys. induction d as [|[k0 v0] d IH]; csimpl.
  - by intros _ ?%elem_of_nil.
  - intros [Hk Hd]%NoDup_cons [[= -> ->]|Hin]%elem_of_cons.
    + by case_decide.
    + case_decide; subst; [|by apply IH].
      exfalso. apply Hk. apply list_elem_of_fmap. by exists (k0, v).
Qed.

Lemma index_in_sync_prop (h : heap) (e : Entity) :
  index_in_sync h e ↔ in_sync_prop h e.
Proof.
  unfold index_in_sync, in_sync_prop.
  rewrite !andb_true_iff, bool_decide_eq_true, !forallb_forall. split.
  - intros [[H1 H2] Hnd]. split_and!; [done| |].
    + intros c Hc%list_elem_of_In. specialize (H2 c Hc).
      destruct (h !! c ≫= obj_id); [eauto|done].
    + intros k c. split.
      * intros Hg%dict_get_elem_of%list_elem_of_In. specialize (H1 _ Hg).
        apply andb_true_iff in H1 as [Ha Hb]. simpl in *.
        by apply bool_decide_eq_true in Ha, Hb.
      * intros [Hc%list_elem_of_In Hi]. specialize (H2 c Hc).
        rewrite Hi in H2. by apply bool_decide_eq_true in H2.
  - intros (Hnd & Hid & Hs). split_and!; [| |done].
    + intros [k c] Hin%list_elem_of_In. simpl.
      apply (dict_get_NoDup k c _ Hnd), Hs in Hin as [Ha Hb].
      apply andb_true_iff. by rewrite !bool_decide_eq_true.
    + intros c Hc%list_elem_of_In. destruct (Hid c Hc) as [k Hk].
      rewrite Hk. apply bool_decide_eq_true. by apply Hs.
Qed.

Lemma get_id_Ok (h : heap) (l : loc) (k : pyid) :
  get_id h l = Ok k ↔ h !! l ≫= obj_id = Some k.
Proof.
  unfold get_id. destruct (h !! l ≫= obj_id); naive_solver.
Qed.

Lemma get_id_hier (h : heap) (l : loc) (k : pyid) :
  get_id h l = Ok k → hier h l = true.
Proof.
  rewrite get_id_Ok. unfold hier. by destruct (h !! l) as [[]|].
Qed.

(** ** [add] *)

(** [set_parent] raises nothing, whatever the heap. *)
Lemma set_parent_not_exc (p : loc) :
  ∀ fuel h l x h', Entity.set_parent fuel h l p ≠ Exc x h'.
Proof.
  induction fuel as [|k IH]; intros h l x h'.
  - simpl. destruct (h !! l) as [[e|a|w|dd]|] eqn:Hl; try done.
  - cbn [Entity.set_parent]. destruct (h !! l) as [[e|a|w|dd]|] eqn:Hl; try done.
    + intros E. pose proof (reset_sound (S k) (S k)
                              (set_entity l (with_parent (Some p)) h) l) as Hp.
      rewrite E in Hp. destruct Hp as (_ & _ & Hno). apply (Hno l).
      eapply reach_self. rewrite entity_at_set_entity. case_decide; [|done].
      apply entity_at_Some in Hl. by rewrite Hl.
    + generalize (<[l:=ODisordered (d_with_parent (Some p) w)]> h).
      induction (dict_values (d_child_dict w)) as [|c cs IHcs]; intros h0; simpl; [done|].
      destruct (Entity.set_parent k h0 c p) as [[] h1|y h1| |] eqn:E; simpl; try done.
      by apply IH in E.
Qed.

Lemma add_unfold (fuel : nat) (h : heap) (p c : loc) (e : Entity) (cid : pyid) :
  entity_at h p = Some e → get_id h c = Ok cid →
  Entity.add fuel h p c
  = if dict_mem cid (child_dict e) then Exc PDBConstructionException h
    else let* _u , h1 := Entity.set_parent fuel h c p in
         Ret tt (set_entity p
                   (λ e, with_children (child_list e ++ [c])
                           (dict_set cid c (child_dict e)) e) h1).
Proof.
  intros He Hc. unfold Entity.add, Entity.has_id. rewrite Hc. simpl.
  rewrite He. simpl. done.
Qed.

(** The claim of C3 that [add] raises whenever one of the children of
    the parent bears the id fails once the index is out of step with the
    children.  After [c.add(r10); c.add(r11); r11.id = (" ", 10, " ");
    r10.id = (" ", 12, " ")] the index of [c] has the single key
    [(" ", 12, " ")], while [r11], a child of [c], bears [(" ", 10, " ")]:
    [c.add(Residue((" ", 10, " ")))] returns. *)
Lemma C3_add_accepts_sibling_id :
  ¬ (∀ h n e cid,
       Scenario.sibling_id_reused = Ret n h →
       entity_at h 0 = Some e → get_id h n = Ok cid →
       ((∃ h', Entity.add 3 h 0 n = Exc PDBConstructionException h')
        ↔ ∃ s, s ∈ child_list e ∧ get_id h s = Ok cid)).
Proof.
  intros H. evaluate_as Hr Scenario.sibling_id_reused.
  specialize (H _ _ _ (IdRes " " 10 " ") Hr eq_refl eq_refl).
  destruct (proj2 H) as [h' E].
  { exists 4. split; [simpl; right; left|reflexivity]. }
  vm_compute in E. discriminate E.
Qed.

(** C3, amended.  [p.add(c)] raises [PDBConstructionException] exactly
    when the id of [c] is a key of the index of [p], which is what
    [has_id] tests; as long as the index of [p] is in step with its
    children, this is exactly when one of the children of [p] bears the
    id.  An [add] that raises leaves the heap as it was; otherwise it sets
    the parent of [c] to [p], appends [c] to the children of [p] and enters
    it in the index. *)
Theorem C3_add_checks_index (rk : loc → nat) (top fuel : nat) (h : heap)
    (p c : loc) (e : Entity) (cid : pyid) :
  entity_at h p = Some e → get_id h c = Ok cid →
  ((∃ h', Entity.add fuel h p c = Exc PDBConstructionException h')
   ↔ Entity.has_id h p cid = Ok true)
  ∧ (index_in_sync h e →
     (Entity.has_id h p cid = Ok true
      ↔ ∃ s, s ∈ child_list e ∧ get_id h s = Ok cid))
  ∧ (∀ x h', Entity.add fuel h p c = Exc x h' →
             x = PDBConstructionException ∧ h' = h)
  ∧ (ranked rk top h → 2 * top < fuel → rk c < rk p →
     Entity.has_id h p cid = Ok false →
     ∃ h' e', Entity.add fuel h p c = Ret tt h'
       ∧ h' !! c ≫= obj_parent = Some (Some p)
       ∧ entity_at h' p = Some e'
       ∧ child_list e' = child_list e ++ [c]
       ∧ child_dict e' = dict_set cid c (child_dict e)
       ∧ dict_get cid (child_dict e') = Some c).
Proof.
  intros He Hc.
  rewrite (add_unfold fuel h p c e cid He Hc).
  assert (∀ b, Entity.has_id h p cid = Ok b ↔ dict_mem cid (child_dict e) = b)
    as Hhas.
  { intros b. unfold Entity.has_id. rewrite He. split; [by intros [= ->]|].
    by intros ->. }
  split_and!.
  - rewrite Hhas. destruct (dict_mem cid (child_dict e)); [naive_solver|].
    split; [|done]. intros [h' E].
    destruct (Entity.set_parent fuel h c p) as [[] h1|y h1| |] eqn:E'; simpl in E;
      try done.
    by apply set_parent_not_exc in E'.
  - intros (Hnd & Hid & Hs)%index_in_sync_prop.
    rewrite Hhas, dict_mem_true. split.
    + intros [s Hg]. exists s. rewrite get_id_Ok. by apply Hs.
    + intros (s & Hin & Hi). exists s. apply Hs. by rewrite <- get_id_Ok.
  - intros x h'. destruct (dict_mem cid (child_dict e)); [naive_solver|].
    destruct (Entity.set_parent fuel h c p) as [[] h1|y h1| |] eqn:E'; simpl;
      try done.
    by apply set_parent_not_exc in E'.
  - intros Hr%ranked_ranked_prop Hf Hlt Hm%Hhas. rewrite Hm.
    assert (hier h p = true) as Hp.
    { apply entity_at_Some in He. unfold hier. by rewrite He. }
    pose proof (get_id_hier h c cid Hc) as Hl.
    destruct (hier_Some h c Hl) as (oc & Hoc & _).
    destruct (Hr c oc Hoc) as (Htop & _).
    destruct (set_parent_spec rk top p fuel h c Hr Hp Hl Hlt)
      as (h1 & -> & [Hu Hpar] & Hcp & _); [lia|]. simpl.
    destruct (unparent_entity h h1 p e Hu He) as (e1 & He1 & _ & _ & El & Ed & _).
    eexists _, (with_children (child_list e1 ++ [c])
                  (dict_set cid c (child_dict e1)) e1).
    split; [done|]. split_and!.
    + rewrite lookup_set_entity. case_decide; [subst; lia|done].
    + rewrite entity_at_set_entity. case_decide; [|done]. by rewrite He1.
    + simpl. by rewrite El.
    + simpl. by rewrite Ed.
    + simpl. apply dict_get_set_eq.
Qed.

Lemma C3_add_checks_index_witness :
  entity_at Scenario.chain_of_two_residues_and_one 0
  = Some (mkEntity Chain (IdStr "A") None None [2; 4]
            [(IdRes " " 10 " ", 2); (IdRes " " 11 " ", 4)] 1)
  ∧ get_id Scenario.chain_of_two_residues_and_one 6 = Ok (IdRes " " 12 " ")
  ∧ get_id Scenario.chain_of_two_residues_and_one 2 = Ok (IdRes " " 10 " ")
  ∧ (∃ h' e', Entity.add 3 Scenario.chain_of_two_residues_and_one 0 6 = Ret tt h'
       ∧ entity_at h' 0 = Some e'
       ∧ child_list e' = [2; 4; 6])
  ∧ ∃ h', Entity.add 3 Scenario.chain_of_two_residues_and_one 0 2
          = Exc PDBConstructionException h'.
Proof.
  split; [reflexivity|]. split; [reflexivity|]. split; [reflexivity|]. split.
  - destruct (C3_add_checks_index (λ l, if decide (l = 0) then 1 else 0) 1 3
                Scenario.chain_of_two_residues_and_one 0 6 _ (IdRes " " 12 " ")
                eq_refl eq_refl) as (_ & _ & _ & Hadd).
    destruct Hadd as (h' & e' & Ha & _ & He' & Hl & _).
    + reflexivity.
    + simpl. lia.
    + simpl. lia.
    + reflexivity.
    + exists h', e'. by split_and!.
  - destruct (C3_add_checks_index (λ l, if decide (l = 0) then 1 else 0) 1 3
                Scenario.chain_of_two_residues_and_one 0 2 _ (IdRes " " 10 " ")
                eq_refl eq_refl) as (Hexc & _).
    apply Hexc. reflexivity.
Defined.

(** ** Renaming *)

#[export] Instance same_graph_equiv : Equivalence same_graph.
Proof.
  unfold same_graph. split.
  - by intros h.
  - by intros h h'.
  - intros h1 h2 h3 H1 H2. by rewrite H1.
Qed.

Lemma same_graph_obj (h h' : heap) (l : loc) (o : pyobj) :
  same_graph h h' → h !! l = Some o →
  ∃ o', h' !! l = Some o' ∧ strip o' = strip o.
Proof.
  intros Hs Hl. unfold same_graph in Hs.
  assert (strip <$> h !! l = strip <$> h' !! l) as E
    by (by rewrite <- !list_lookup_fmap, Hs).
  rewrite Hl in E. destruct (h' !! l) as [o'|]; [|done].
  exists o'. split; [done|]. simpl in E. congruence.
Qed.

Lemma strip_obj_parent (o o' : pyobj) :
  strip o' = strip o → obj_parent o' = obj_parent o.
Proof.
  destruct o as [[]| | |], o' as [[]| | |]; simpl; intros [=]; by subst.
Qed.

Lemma strip_obj_children (o o' : pyobj) :
  strip o' = strip o → obj_children o' = obj_children o.
Proof.
  destruct o as [[]| | |], o' as [[]| | |]; simpl; intros [=]; by subst.
Qed.

Lemma same_graph_hier (h h' : heap) (l : loc) :
  same_graph h h' → hier h' l = hier h l.
Proof.
  intros Hs. unfold hier. destruct (h !! l) as [o|] eqn:Hl.
  - destruct (same_graph_obj h h' l o Hs Hl) as (o' & -> & E).
    by destruct o, o'.
  - destruct (h' !! l) as [o'|] eqn:Hl'; [|done].
    assert (same_graph h' h) as Hs' by done.
    destruct (same_graph_obj h' h l o' Hs' Hl') as (o & Ho & _). congruence.
Qed.

Lemma same_graph_ranked (rk : loc → nat) (top : nat) (h h' : heap) :
  same_graph h h' → ranked_prop rk top h → ranked_prop rk top h'.
Proof.
  intros Hs. apply ranked_ext.
  - intros l. by apply same_graph_hier.
  - intros l o' Hl. assert (same_graph h' h) as Hs' by done.
    destruct (same_graph_obj h' h l o' Hs' Hl) as (o & Ho & E).
    exists o. split; [done|].
    by rewrite (strip_obj_parent o o'), (strip_obj_children o o').
Qed.

Lemma same_graph_reach (h h' : heap) (l d : loc) :
  same_graph h h' → reset_reach h l d → reset_reach h' l d.
Proof.
  intros Hs. apply reach_ext.
  - intros l0 e He%entity_at_Some.
    destruct (same_graph_obj h h' l0 _ Hs He) as (o' & Ho' & E).
    destruct o' as [e'| | |]; try done. exists e'.
    split; [by apply entity_at_Some|].
    destruct e, e'. simpl in *. by injection E.
  - intros l0 w Hw.
    destruct (same_graph_obj h h' l0 _ Hs Hw) as (o' & Ho' & E).
    destruct o' as [| |w'|]; try done. exists w'.
    split; [done|]. simpl in E. by injection E as ->.
Qed.

Lemma same_graph_alter (h : heap) (l : loc) (f : pyobj → pyobj) :
  (∀ o, h !! l = Some o → strip (f o) = strip o) → same_graph h (alter f l h).
Proof.
  intros Hf. unfold same_graph. apply list_eq. intros i.
  rewrite !list_lookup_fmap, list_lookup_alter.
  case_decide; subst; [|done].
  destruct (h !! i) as [o|] eqn:Hi; [|done]. simpl. by rewrite Hf.
Qed.

Lemma set_id_unfold_entity_parent (fuel : nat) (h : heap) (l p : loc)
    (e pe : Entity) (value : pyid) :
  entity_at h l = Some e → value ≠ _id e → parent e = Some p →
  entity_at h p = Some pe → is_Some (dict_get (_id e) (child_dict pe)) →
  Entity.set_id fuel h l value
  = let h2 := set_entity l (with_id value)
                (alter (Entity.obj_with_child_dict
                          (dict_set value l (dict_remove (_id e) (child_dict pe)))) p h) in
    let* _u , h3 := Entity._reset_full_id fuel fuel h2 l in
    Ret (if dict_mem value (child_dict pe)
         then [Entity.IdAlreadyUsed (_id e) value] else []) h3.
Proof.
  intros He Hv Hp Hpe Hk. unfold Entity.set_id. rewrite He.
  case_decide; [done|]. rewrite Hp.
  apply entity_at_Some in Hpe. rewrite Hpe. simpl.
  unfold dict_del. apply dict_mem_true in Hk. rewrite Hk. simpl. done.
Qed.

Lemma set_id_unfold_root (fuel : nat) (h : heap) (l : loc) (e : Entity)
    (value : pyid) :
  entity_at h l = Some e → value ≠ _id e → parent e = None →
  Entity.set_id fuel h l value
  = let* _u , h3 :=
      Entity._reset_full_id fuel fuel (set_entity l (with_id value) h) l in
    Ret [] h3.
Proof.
  intros He Hv Hp. unfold Entity.set_id. rewrite He.
  case_decide; [done|]. rewrite Hp. simpl. done.
Qed.

(** The heap in which the id setter calls [_reset_full_id], and what the
    call makes of it. *)
Lemma rename_then_reset (rk : loc → nat) (top fuel : nat) (h h2 : heap)
    (l : loc) (e : Entity) (value : pyid) :
  ranked_prop rk top h → top < fuel → entity_at h l = Some e →
  same_graph h h2 →
  ∃ h3, Entity._reset_full_id fuel fuel h2 l = Ret tt h3
    ∧ cache_upd fuel h2 h3
    ∧ ∀ d, reset_reach h l d → cache_fresh fuel h3 d.
Proof.
  intros Hr Hf He Hg.
  assert (ranked_prop rk top h2) as Hr2 by (by eapply same_graph_ranked).
  apply entity_at_Some in He as Hl.
  destruct (same_graph_obj h h2 l _ Hg Hl) as (o2 & Ho2 & E).
  destruct o2 as [e2| | |]; try done. apply entity_at_Some in Ho2.
  destruct (Hr l _ Hl) as (Ht & _).
  destruct (reset_full_id_entity rk top fuel fuel h2 l e2 Hr2)
    as (h3 & -> & U & F); [lia|lia|done|].
  exists h3. split_and!; [done|done|].
  intros d Hd. apply F. by eapply same_graph_reach.
Qed.

Lemma set_id_root_spec (rk : loc → nat) (top fuel : nat) (h : heap) (l : loc)
    (e : Entity) (value : pyid) :
  ranked_prop rk top h → top < fuel → entity_at h l = Some e →
  value ≠ _id e → parent e = None →
  ∃ h', Entity.set_id fuel h l value = Ret [] h'
    ∧ _id <$> entity_at h' l = Some value
    ∧ ∀ d, reset_reach h l d → cache_fresh fuel h' d.
Proof.
  intros Hr Hf He Hv Hp. rewrite (set_id_unfold_root fuel h l e value He Hv Hp).
  set (h2 := set_entity l (with_id value) h).
  assert (same_graph h h2) as Hg by (apply same_graph_alter; by intros []).
  destruct (rename_then_reset rk top fuel h h2 l e value Hr Hf He Hg)
    as (h3 & -> & [Hs _] & F).
  exists h3. split_and!; [done| |done].
  assert (entity_at h2 l = Some (with_id value e)) as He2.
  { unfold h2. rewrite entity_at_set_entity. case_decide; [|done]. by rewrite He. }
  destruct (same_shape_entity h2 h3 l _ Hs He2) as (e3 & -> & E).
  apply with_full_id_None_inv in E as (_ & E & _). simpl. by rewrite E.
Qed.

Lemma set_id_child_spec (rk : loc → nat) (top fuel : nat) (h : heap) (l p : loc)
    (e pe : Entity) (value : pyid) :
  ranked_prop rk top h → top < fuel → entity_at h l = Some e →
  value ≠ _id e → parent e = Some p → entity_at h p = Some pe →
  is_Some (dict_get (_id e) (child_dict pe)) →
  ∃ h' pe',
    Entity.set_id fuel h l value
    = Ret (if dict_mem value (child_dict pe)
           then [Entity.IdAlreadyUsed (_id e) value] else []) h'
    ∧ entity_at h' p = Some pe'
    ∧ child_dict pe' = dict_set value l (dict_remove (_id e) (child_dict pe))
    ∧ dict_get value (child_dict pe') = Some l
    ∧ child_list pe' = child_list pe
    ∧ _id <$> entity_at h' l = Some value
    ∧ ∀ d, reset_reach h l d → cache_fresh fuel h' d.
Proof.
  intros Hr Hf He Hv Hp Hpe Hk.
  rewrite (set_id_unfold_entity_parent fuel h l p e pe value He Hv Hp Hpe Hk).
  set (d' := dict_set value l (dict_remove (_id e) (child_dict pe))).
  set (h1 := alter (Entity.obj_with_child_dict d') p h).
  set (h2 := set_entity l (with_id value) h1). cbn zeta.
  assert (same_graph h h2) as Hg.
  { etrans; [|apply same_graph_alter; by intros []].
    apply same_graph_alter. intros o Ho.
    apply entity_at_Some in Hpe. rewrite Hpe in Ho. by injection Ho as <-. }
  destruct (rename_then_reset rk top fuel h h2 l e value Hr Hf He Hg)
    as (h3 & -> & [Hs _] & F).
  assert (l ≠ p) as Hlp.
  { intros ->. apply entity_at_Some in He.
    destruct (Hr p _ He) as (_ & Hpar & _).
    destruct (Hpar p) as [? _]; [simpl; by rewrite Hp|lia]. }
  assert (entity_at h2 p = Some (with_children (child_list pe) d' pe)) as Hp2.
  { unfold h2. rewrite entity_at_set_entity. case_decide; [done|].
    apply entity_at_Some. unfold h1. rewrite list_lookup_alter.
    case_decide; [|done]. apply entity_at_Some in Hpe. by rewrite Hpe. }
  assert (entity_at h2 l = Some (with_id value e)) as He2.
  { unfold h2. rewrite entity_at_set_entity. case_decide; [|done].
    unfold entity_at, h1. rewrite list_lookup_alter_ne by done.
    apply entity_at_Some in He. by rewrite He. }
  destruct (same_shape_entity h2 h3 p _ Hs Hp2) as (pe3 & Hpe3 & Ep).
  destruct (same_shape_entity h2 h3 l _ Hs He2) as (e3 & He3 & El).
  apply with_full_id_None_inv in Ep as (_ & _ & _ & Epl & Epd & _).
  apply with_full_id_None_inv in El as (_ & Eid & _).
  exists h3, pe3. simpl in *. split_and!; try done.
  - rewrite Epd. apply dict_get_set_eq.
  - rewrite He3. simpl. by rewrite Eid.
Qed.

(** C9. [set_id(new_id)] changes nothing when [new_id] is the current id.
    Otherwise, under a parent in whose index the node is entered, it moves
    the entry of the node from the old id to [new_id]: it does not fail
    when [new_id] is the id of a sibling, it warns, and [new_id] then leads
    to the renamed node in place of the sibling; it sets the id of the node
    and replaces the cached path of the node and of everything below it by
    the path regenerated with the new id. *)
Theorem C9_set_id (rk : loc → nat) (top fuel : nat) (h : heap) (l : loc)
    (e : Entity) (value : pyid) :
  ranked rk top h → top < fuel → entity_at h l = Some e →
  (value = _id e → Entity.set_id fuel h l value = Ret [] h)
  ∧ (value ≠ _id e → parent e = None →
     ∃ h', Entity.set_id fuel h l value = Ret [] h'
       ∧ _id <$> entity_at h' l = Some value
       ∧ ∀ d, reset_reach h l d → cache_fresh fuel h' d)
  ∧ (value ≠ _id e →
     ∀ p pe, parent e = Some p → entity_at h p = Some pe →
       is_Some (dict_get (_id e) (child_dict pe)) →
       ∃ h' pe',
         Entity.set_id fuel h l value
         = Ret (if dict_mem value (child_dict pe)
                then [Entity.IdAlreadyUsed (_id e) value] else []) h'
         ∧ entity_at h' p = Some pe'
         ∧ child_dict pe' = dict_set value l (dict_remove (_id e) (child_dict pe))
         ∧ dict_get value (child_dict pe') = Some l
         ∧ child_list pe' = child_list pe
         ∧ _id <$> entity_at h' l = Some value
         ∧ ∀ d, reset_reach h l d → cache_fresh fuel h' d).
Proof.
  intros Hr%ranked_ranked_prop Hf He. split_and!.
  - intros ->. unfold Entity.set_id. rewrite He. by case_decide.
  - intros Hv Hp. by eapply set_id_root_spec.
  - intros Hv p pe Hp Hpe Hk. by eapply set_id_child_spec.
Qed.

Lemma C9_set_id_witness :
  ranked (λ l, if decide (l = 0) then 1 else 0) 1 Scenario.chain_of_two_residues
  ∧ 1 < 3
  ∧ entity_at Scenario.chain_of_two_residues 4
    = Some (mkEntity Residue (IdRes " " 11 " ")
              (Some [IdStr "A"; IdRes " " 11 " "]) (Some 0) [] [] 5)
  ∧ ∃ h' pe',
      Entity.set_id 3 Scenario.chain_of_two_residues 4 (IdRes " " 10 " ")
      = Ret [Entity.IdAlreadyUsed (IdRes " " 11 " ") (IdRes " " 10 " ")] h'
      ∧ entity_at h' 0 = Some pe'
      ∧ dict_get (IdRes " " 10 " ") (child_dict pe') = Some 4
      ∧ child_list pe' = [2; 4].
Proof.
  assert (ranked (λ l, if decide (l = 0) then 1 else 0) 1
            Scenario.chain_of_two_residues) as Hr by reflexivity.
  split; [exact Hr|]. split; [lia|]. split; [reflexivity|].
  destruct (C9_set_id (λ l, if decide (l = 0) then 1 else 0) 1 3
              Scenario.chain_of_two_residues 4 _ (IdRes " " 10 " ")
              Hr ltac:(lia) eq_refl) as (_ & _ & Hren).
  destruct (Hren ltac:(done) 0 _ eq_refl eq_refl ltac:(by eexists))
    as (h' & pe' & Hs & Hp & _ & Hg & Hl & _).
  exists h', pe'. by split_and!.
Defined.

(** ** Disorder forwarding *)

Section forwarding.
Import DisorderedEntityWrapper.

Lemma wrapper_at_Some (h : heap) (l : loc) (w : Disordered) :
  wrapper_at h l = Some w ↔ h !! l = Some (ODisordered w).
Proof. unfold wrapper_at. destruct (h !! l) as [[]|]; naive_solver. Qed.

Lemma wrapper_at_insert (h : heap) (l : loc) (w w' : Disordered) :
  wrapper_at h l = Some w →
  wrapper_at (<[l := ODisordered w']> h) l = Some w'.
Proof.
  intros Hw%wrapper_at_Some. apply wrapper_at_Some.
  apply list_lookup_insert_eq. by eapply lookup_lt_Some.
Qed.

(** With [None] on either side an ordering never yields a value: every
    path ends in the interpreter's [TypeError] (or leaves the module). *)
Lemma py_cmp_None (fuel : nat) (h : heap) :
  ∀ op x y, x = None ∨ y = None →
    ∀ b, Entity.py_cmp fuel op h x y ≠ Ok b.
Proof.
  induction fuel as [|k IH]; intros op x y Hxy b; [done|].
  simpl. destruct x as [lx|], y as [ly|]; try (by destruct Hxy); simpl.
  - destruct (h !! lx) as [[e|a|w|d]|] eqn:Hx; simpl; try done.
    destruct (Entity.py_cmp k op h (selected_child w) None) eqn:E; simpl; try done.
    exfalso. eapply IH; [|exact E]. by right.
  - destruct (h !! ly) as [[e|a|w|d]|] eqn:Hy; simpl; try done.
    destruct (Entity.py_cmp k (swap_op op) h (selected_child w) None) eqn:E;
      simpl; try done.
    exfalso. eapply IH; [|exact E]. by right.
Qed.

Lemma py_cmp_None_entity (fuel : nat) (op : cmpop) (h : heap) (other : option loc) :
  other = None ∨ is_Some (other ≫= entity_at h) →
  Entity.py_cmp (S fuel) op h None other = Raise TypeError.
Proof.
  intros [->|[e He]]; simpl; [done|].
  destruct other as [l|]; [|done]. simpl in He.
  apply entity_at_Some in He. rewrite He. done.
Qed.

End forwarding.

(** C8. For a disordered group [g]: after [disordered_select(k)] with [k]
    among the alternatives, the forwarded special methods ([__len__],
    [__getitem__], [__contains__], [__iter__] and the four orderings) give
    on [g] what the same operation gives on the alternative [child_dict[k]];
    [disordered_select(k)] with [k] absent raises [KeyError] and leaves the
    heap, hence the selection, as it was; and while nothing is selected the
    forwarded operations fail (the interpreter's [TypeError] on [None]). *)
Theorem C8_disorder_forwarding (fuel : nat) (h : heap) (g : loc)
    (w : Disordered) (k : pyid) :
  DisorderedEntityWrapper.wrapper_at h g = Some w →
  (∀ alt, dict_get k (d_child_dict w) = Some alt →
     ∃ h', DisorderedEntityWrapper.disordered_select h g k = Ret tt h'
       ∧ DisorderedEntityWrapper.wrapper_at h' g = Some (d_with_selected (Some alt) w)
       ∧ DisorderedEntityWrapper.__len__ fuel h' g
         = DisorderedEntityWrapper.py_len fuel h' (Some alt)
       ∧ (∀ i, DisorderedEntityWrapper.__getitem__ fuel h' g i
               = DisorderedEntityWrapper.py_getitem fuel h' (Some alt) i)
       ∧ (∀ i, DisorderedEntityWrapper.__contains__ fuel h' g i
               = DisorderedEntityWrapper.py_contains fuel h' (Some alt) i)
       ∧ DisorderedEntityWrapper.__iter__ fuel h' g
         = DisorderedEntityWrapper.py_iter fuel h' (Some alt)
       ∧ (∀ op other, DisorderedEntityWrapper.__cmp__ op fuel h' g other
                      = Entity.py_cmp fuel op h' (Some alt) other))
  ∧ (dict_get k (d_child_dict w) = None →
     DisorderedEntityWrapper.disordered_select h g k = Exc KeyError h)
  ∧ (selected_child w = None →
     DisorderedEntityWrapper.__len__ fuel h g = Raise TypeError
     ∧ (∀ i, DisorderedEntityWrapper.__getitem__ fuel h g i = Raise TypeError)
     ∧ (∀ i, DisorderedEntityWrapper.__contains__ fuel h g i = Raise TypeError)
     ∧ DisorderedEntityWrapper.__iter__ fuel h g = Raise TypeError
     ∧ (∀ op other b, DisorderedEntityWrapper.__cmp__ op fuel h g other ≠ Ok b)
     ∧ (∀ op other, other = None ∨ is_Some (other ≫= entity_at h) →
          DisorderedEntityWrapper.__cmp__ op (S fuel) h g other = Raise TypeError)).
Proof.
  intros Hw. split_and!.
  - intros alt Hk. eexists.
    unfold DisorderedEntityWrapper.disordered_select. rewrite Hw, Hk.
    split; [done|].
    pose proof (wrapper_at_insert h g w (d_with_selected (Some alt) w) Hw) as Hw'.
    unfold DisorderedEntityWrapper.__len__, DisorderedEntityWrapper.__getitem__,
      DisorderedEntityWrapper.__contains__, DisorderedEntityWrapper.__iter__,
      DisorderedEntityWrapper.__cmp__.
    rewrite Hw'. done.
  - intros Hk. unfold DisorderedEntityWrapper.disordered_select.
    by rewrite Hw, Hk.
  - intros Hs.
    unfold DisorderedEntityWrapper.__len__, DisorderedEntityWrapper.__getitem__,
      DisorderedEntityWrapper.__contains__, DisorderedEntityWrapper.__iter__,
      DisorderedEntityWrapper.__cmp__.
    rewrite Hw, Hs. split_and!; try (by destruct fuel).
    + intros op other b. apply py_cmp_None. by left.
    + intros op other Ho. by apply py_cmp_None_entity.
Qed.

Lemma C8_disorder_forwarding_witness :
  DisorderedEntityWrapper.wrapper_at Scenario.disordered_residue 0
  = Some (mkDisordered (IdRes " " 10 " ")
            [(IdStr "GLY", 1); (IdStr "ALA", 3)] None None)
  ∧ (∃ h', DisorderedEntityWrapper.disordered_select
             Scenario.disordered_residue 0 (IdStr "GLY") = Ret tt h'
           ∧ DisorderedEntityWrapper.__len__ 2 h' 0 = Ok 2)
  ∧ DisorderedEntityWrapper.disordered_select
      Scenario.disordered_residue 0 (IdStr "VAL")
    = Exc KeyError Scenario.disordered_residue
  ∧ DisorderedEntityWrapper.__len__ 2 Scenario.disordered_residue 0
    = Raise TypeError.
Proof.
  split; [reflexivity|].
  destruct (C8_disorder_forwarding 2 Scenario.disordered_residue 0 _
              (IdStr "GLY") eq_refl) as (Hsel & _ & Hnone).
  destruct (C8_disorder_forwarding 2 Scenario.disordered_residue 0 _
              (IdStr "VAL") eq_refl) as (_ & Habs & _).
  split_and!.
  - destruct (Hsel 1 eq_refl) as (h' & Hs & _ & Hlen & _).
    exists h'. split; [exact Hs|]. rewrite Hlen.
    injection Hs as <-. reflexivity.
  - apply Habs. reflexivity.
  - apply Hnone. reflexivity.
Defined.

(** ** Caches after an attachment or a renaming *)

Lemma cache_fresh_set_entity (g : nat) (h : heap) (p d : loc) (f : Entity → Entity) :
  (∀ e, _id (f e) = _id e ∧ parent (f e) = parent e ∧ full_id (f e) = full_id e) →
  cache_fresh g h d → cache_fresh g (set_entity p f h) d.
Proof.
  intros Hf (e & fid & He & Hc & Hg).
  assert (∀ l, set_entity p f h !! l ≫= obj_id = h !! l ≫= obj_id) as Hi.
  { intros l. rewrite lookup_set_entity. case_decide; [|done].
    destruct (h !! l) as [[e0| | |]|]; simpl; try done.
    f_equal. apply Hf. }
  assert (∀ l, set_entity p f h !! l ≫= obj_parent = h !! l ≫= obj_parent) as Hp.
  { intros l. rewrite lookup_set_entity. case_decide; [|done].
    destruct (h !! l) as [[e0| | |]|]; simpl; try done.
    f_equal. apply Hf. }
  rewrite <- (generate_ext g _ _ Hi Hp d) in Hg.
  destruct (decide (p = d)) as [->|Hne].
  - exists (f e), fid. split_and!; [|by rewrite (proj2 (proj2 (Hf e)))|done].
    rewrite entity_at_set_entity. case_decide; [|done]. by rewrite He.
  - exists e, fid. split_and!; [|done|done].
    rewrite entity_at_set_entity. by case_decide.
Qed.

(** The claim of C2 that [add] leaves the cached path of the child unset,
    to be computed at the next read, fails: after [c.add(r)] the cache of
    [r] holds the path. *)
Lemma C2_add_leaves_cache_set :
  ¬ (∀ h, Scenario.residue_added = Ret tt h →
          full_id <$> entity_at h 2 = Some None).
Proof.
  intros H. evaluate_as Hr Scenario.residue_added.
  specialize (H _ Hr). vm_compute in H. discriminate H.
Qed.

(** C2, amended.  When a node is attached through [set_parent], as [add]
    does, or its id changes through the id setter, the cached path of the
    node and of every node below it is recomputed at once, not set to
    unset: right after the call each of these caches holds the path that
    walking the parent references gives. *)
Theorem C2_caches_recomputed_eagerly (rk : loc → nat) (top fuel : nat)
    (h : heap) (l : loc) (e : Entity) :
  ranked rk top h → 2 * top < fuel → entity_at h l = Some e →
  (∀ p, hier h p = true → rk l < rk p →
     ∃ h', Entity.set_parent fuel h l p = Ret tt h'
       ∧ ∀ d, reset_reach h l d → cache_fresh fuel h' d)
  ∧ (∀ p pe, entity_at h p = Some pe → rk l < rk p →
       dict_mem (_id e) (child_dict pe) = false →
       ∃ h', Entity.add fuel h p l = Ret tt h'
         ∧ ∀ d, reset_reach h l d → cache_fresh fuel h' d)
  ∧ (∀ value, value ≠ _id e →
       parent e = None
       ∨ (∃ p pe, parent e = Some p ∧ entity_at h p = Some pe
                  ∧ is_Some (dict_get (_id e) (child_dict pe))) →
       ∃ ws h', Entity.set_id fuel h l value = Ret ws h'
         ∧ ∀ d, reset_reach h l d → cache_fresh fuel h' d).
Proof.
  intros Hr%ranked_ranked_prop Hf He.
  assert (hier h l = true) as Hl.
  { apply entity_at_Some in He. unfold hier. by rewrite He. }
  assert (rk l ≤ top) as Htop.
  { apply entity_at_Some in He. by destruct (Hr l _ He). }
  split_and!.
  - intros p Hp Hlt.
    destruct (set_parent_spec rk top p fuel h l Hr Hp Hl Hlt)
      as (h' & -> & _ & _ & F); [lia|].
    exists h'. split; [done|]. intros d Hd. by apply F.
  - intros p pe Hpe Hlt Hm.
    assert (get_id h l = Ok (_id e)) as Hid.
    { apply get_id_Ok. apply entity_at_Some in He. by rewrite He. }
    rewrite (add_unfold fuel h p l pe (_id e) Hpe Hid), Hm.
    assert (hier h p = true) as Hp.
    { apply entity_at_Some in Hpe. unfold hier. by rewrite Hpe. }
    destruct (set_parent_spec rk top p fuel h l Hr Hp Hl Hlt)
      as (h' & -> & _ & _ & F); [lia|]. simpl.
    eexists. split; [done|]. intros d Hd.
    apply cache_fresh_set_entity; [by intros []|]. by apply F.
  - intros value Hv [Hp|(p & pe & Hp & Hpe & Hk)].
    + destruct (set_id_root_spec rk top fuel h l e value Hr) as (h' & ? & _ & ?);
        try done; [lia|]. by exists [], h'.
    + destruct (set_id_child_spec rk top fuel h l p e pe value Hr)
        as (h' & pe' & ? & _ & _ & _ & _ & _ & ?); try done; [lia|].
      by eexists _, h'.
Qed.

Lemma C2_caches_recomputed_eagerly_witness :
  ranked (λ l, if decide (l = 0) then 1 else 0) 1 Scenario.chain_and_residue
  ∧ 2 * 1 < 3
  ∧ entity_at Scenario.chain_and_residue 2
    = Some (mkEntity Residue (IdRes " " 10 "A") None None [] [] 3)
  ∧ ∃ h', Entity.add 3 Scenario.chain_and_residue 0 2 = Ret tt h'
      ∧ cache_fresh 3 h' 2.
Proof.
  assert (ranked (λ l, if decide (l = 0) then 1 else 0) 1
            Scenario.chain_and_residue) as Hr by reflexivity.
  split; [exact Hr|]. split; [lia|]. split; [reflexivity|].
  destruct (C2_caches_recomputed_eagerly
              (λ l, if decide (l = 0) then 1 else 0) 1 3
              Scenario.chain_and_residue 2 _ Hr ltac:(lia) eq_refl)
    as (_ & Hadd & _).
  destruct (Hadd 0 _ eq_refl ltac:(simpl; lia) eq_refl) as (h' & Ha & F).
  exists h'. split; [exact Ha|]. apply F. by eapply reach_self.
Defined.

(** ** Transformation *)

Definition coord_frame (P : loc → Prop) (h h' : heap) : Prop :=
  uncoord <$> h' = uncoord <$> h ∧ ∀ i, ¬ P i → h' !! i = h !! i.

Lemma uncoord_obj (h h' : heap) (l : loc) (o : pyobj) :
  uncoord <$> h' = uncoord <$> h → h !! l = Some o →
  ∃ o', h' !! l = Some o' ∧ uncoord o' = uncoord o.
Proof.
  intros Hs Hl.
  assert (uncoord <$> h' !! l = uncoord <$> h !! l) as E
    by (by rewrite <- !list_lookup_fmap, Hs).
  rewrite Hl in E. destruct (h' !! l) as [o'|]; [|done].
  exists o'. split; [done|]. simpl in E. congruence.
Qed.

Lemma uncoord_keeps (h h' : heap) (l : loc) (o : pyobj) :
  uncoord <$> h' = uncoord <$> h → h !! l = Some o → (∀ a, o ≠ OAtom a) →
  h' !! l = Some o.
Proof.
  intros Hs Hl Hna. destruct (uncoord_obj h h' l o Hs Hl) as (o' & -> & E).
  f_equal. destruct o, o'; simpl in E; try done; by exfalso; eapply Hna.
Qed.

Lemma uncoord_hier (h h' : heap) (l : loc) :
  uncoord <$> h' = uncoord <$> h → hier h' l = hier h l.
Proof.
  intros Hs. unfold hier. destruct (h !! l) as [o|] eqn:Hl.
  - destruct (uncoord_obj h h' l o Hs Hl) as (o' & -> & E). by destruct o, o'.
  - destruct (h' !! l) as [o'|] eqn:Hl'; [|done].
    destruct (uncoord_obj h' h l o' (eq_sym Hs) Hl') as (o & Ho & _). congruence.
Qed.

Lemma uncoord_ranked (rk : loc → nat) (top : nat) (h h' : heap) :
  uncoord <$> h' = uncoord <$> h → ranked_prop rk top h → ranked_prop rk top h'.
Proof.
  intros Hs. apply ranked_ext.
  - intros l. by apply uncoord_hier.
  - intros l o' Hl. destruct (uncoord_obj h' h l o' (eq_sym Hs) Hl) as (o & Ho & E).
    exists o. split; [done|].
    destruct o as [|[]| |], o' as [|[]| |]; simpl in *; simplify_eq; done.
Qed.

Lemma uncoord_reach (h h' : heap) (l d : loc) :
  uncoord <$> h' = uncoord <$> h → transform_reach h' l d → transform_reach h l d.
Proof.
  intros Hs Hr.
  induction Hr as [l|l e c d He Hc _ IH|l w s d Hw Hsel _ IH].
  - apply visit_self.
  - eapply visit_child; [|done|done]. apply entity_at_Some.
    apply entity_at_Some in He. by eapply (uncoord_keeps h' h); [| |intros a].
  - eapply visit_selected; [|done|done].
    by eapply (uncoord_keeps h' h); [| |intros a].
Qed.

Lemma coord_frame_refl (P : loc → Prop) (h : heap) : coord_frame P h h.
Proof. by split. Qed.

Lemma coord_frame_trans (P : loc → Prop) (h1 h2 h3 : heap) :
  coord_frame P h1 h2 → coord_frame P h2 h3 → coord_frame P h1 h3.
Proof.
  intros [S12 F12] [S23 F23]. split; [by rewrite S23|].
  intros i Hi. by rewrite F23, F12.
Qed.

Lemma coord_frame_mono (P Q : loc → Prop) (h h' : heap) :
  (∀ i, P i → Q i) → coord_frame P h h' → coord_frame Q h h'.
Proof. intros HPQ [S F]. split; [done|]. intros i Hi. apply F. naive_solver. Qed.

(** What [transform] leaves behind, on return and on an exception. *)
Definition transform_post (h : heap) (l : loc) (r : outcome unit) : Prop :=
  match r with
  | Ret _ h' | Exc _ h' => coord_frame (transform_reach h l) h h'
  | Loop | Stuck => True
  end.

Lemma transform_sound (dot_add : coord → Entity.rotation → Entity.translation → coord)
    (rot : Entity.rotation) (tran : Entity.translation) :
  ∀ fuel h l, transform_post h l (Entity.transform dot_add fuel h l rot tran).
Proof.
  induction fuel as [|k IH]; intros h l; [done|]. simpl.
  destruct (h !! l) as [[e|a|w|dd]|] eqn:Hl; try done.
  - assert (∀ cs h1, coord_frame (transform_reach h l) h h1 →
              (∀ c, c ∈ cs → c ∈ child_list e) →
              transform_post h l
                (for_each (λ o h', Entity.transform dot_add k h' o rot tran) cs h1))
      as Hloop.
    { induction cs as [|c cs IHcs]; intros h1 F1 Hcs; simpl; [done|].
      specialize (IH h1 c).
      assert (∀ i, transform_reach h1 c i → transform_reach h l i) as Hsub.
      { intros i Hi. eapply visit_child; [by apply entity_at_Some| |].
        - apply Hcs. left.
        - eapply uncoord_reach; [|done]. apply F1. }
      destruct (Entity.transform dot_add k h1 c rot tran) as [[] h2|x h2| |];
        simpl in *; try done.
      - apply IHcs.
        + eapply coord_frame_trans; [done|]. by eapply coord_frame_mono.
        + intros c' Hc'. apply Hcs. by right.
      - eapply coord_frame_trans; [done|]. by eapply coord_frame_mono. }
    apply Hloop; [apply coord_frame_refl|done].
  - split.
    + apply list_eq. intros i. rewrite !list_lookup_fmap.
      destruct (decide (i = l)) as [->|Hne].
      * rewrite list_lookup_insert_eq by (by eapply lookup_lt_Some).
        by rewrite Hl.
      * by rewrite list_lookup_insert_ne.
    + intros i Hi. rewrite list_lookup_insert_ne; [done|].
      intros ->. apply Hi, visit_self.
  - destruct (selected_child w) as [s|] eqn:Hs; [|apply coord_frame_refl].
    specialize (IH h s).
    destruct (Entity.transform dot_add k h s rot tran) as [[] h2|x h2| |];
      simpl in *; try done;
      (eapply coord_frame_mono; [|done]; intros i Hi; by eapply visit_selected).
Qed.

Definition transform_returns (r : outcome unit) : Prop :=
  match r with
  | Ret _ _ | Exc AttributeError _ => True
  | _ => False
  end.

Lemma transform_total (dot_add : coord → Entity.rotation → Entity.translation → coord)
    (rot : Entity.rotation) (tran : Entity.translation)
    (rk : loc → nat) (top : nat) :
  ∀ fuel h l, ranked_prop rk top h → hier h l = true → rk l < fuel →
    transform_returns (Entity.transform dot_add fuel h l rot tran).
Proof.
  induction fuel as [|k IH]; intros h l Hr Hl Hf; [lia|]. simpl.
  unfold hier in Hl. destruct (h !! l) as [[e|a|w|dd]|] eqn:Hlk; try done.
  - destruct (Hr l _ Hlk) as (_ & _ & Hch). simpl in Hch.
    assert (∀ cs h1, uncoord <$> h1 = uncoord <$> h →
              (∀ c, c ∈ cs → c ∈ child_list e) →
              transform_returns
                (for_each (λ o h', Entity.transform dot_add k h' o rot tran) cs h1))
      as Hloop.
    { induction cs as [|c cs IHcs]; intros h1 E1 Hcs; simpl; [done|].
      destruct (Hch c) as [Hc1 Hc2]; [apply Hcs; left|].
      pose proof (transform_sound dot_add rot tran k h1 c) as Hp.
      specialize (IH h1 c (uncoord_ranked rk top h h1 E1 Hr)).
      rewrite (uncoord_hier h h1 c E1) in IH. specialize (IH Hc2 ltac:(lia)).
      destruct (Entity.transform dot_add k h1 c rot tran) as [[] h2|x h2| |];
        simpl in *; try done.
      apply IHcs.
      - destruct Hp as [-> _]. done.
      - intros c' Hc'. apply Hcs. by right. }
    by apply Hloop.
  - destruct (selected_child w) as [s|] eqn:Hs; [|done].
    destruct (Hr l _ Hlk) as (_ & _ & Hch). destruct (Hch s) as [? ?].
    { simpl. rewrite Hs. left. }
    apply IH; [done|done|lia].
Qed.

(** C10. [transform(rot, tran)] returns (or raises the [AttributeError] of
    a wrapper in which nothing is selected), and whatever it did, it only
    changed coordinates of atoms that it reached from the node: every
    entity, wrapper and dictionary of the heap is as it was, with its id,
    level, parent, children, index, extra table and cached path, and so are
    the id, parent and mass of every atom, and all of an atom that is not
    below the node. *)
Theorem C10_transform_frame
    (dot_add : coord → Entity.rotation → Entity.translation → coord)
    (rot : Entity.rotation) (tran : Entity.translation)
    (rk : loc → nat) (top fuel : nat) (h : heap) (l : loc) :
  ranked rk top h → top < fuel → hier h l = true →
  ∃ h', (Entity.transform dot_add fuel h l rot tran = Ret tt h'
         ∨ Entity.transform dot_add fuel h l rot tran = Exc AttributeError h')
    ∧ uncoord <$> h' = uncoord <$> h
    ∧ (∀ i o, h !! i = Some o → (∀ a, o ≠ OAtom a) → h' !! i = Some o)
    ∧ (∀ i, ¬ transform_reach h l i → h' !! i = h !! i).
Proof.
  intros Hr%ranked_ranked_prop Hf Hl.
  destruct (hier_Some h l Hl) as (o & Ho & _).
  destruct (Hr l o Ho) as (Ht & _).
  pose proof (transform_total dot_add rot tran rk top fuel h l Hr Hl ltac:(lia)) as Hret.
  pose proof (transform_sound dot_add rot tran fuel h l) as Hp.
  destruct (Entity.transform dot_add fuel h l rot tran) as [[] h'|x h'| |];
    simpl in *; try done.
  - exists h'. destruct Hp as [E F]. split_and!; [by left|done| |done].
    intros i o' Hi Hna. by eapply uncoord_keeps.
  - destruct x; try done.
    exists h'. destruct Hp as [E F]. split_and!; [by right|done| |done].
    intros i o' Hi Hna. by eapply uncoord_keeps.
Qed.

Lemma C10_transform_frame_witness :
  ranked Scenario.disordered_residue_rank 2 Scenario.disordered_residue
  ∧ 2 < 3
  ∧ hier Scenario.disordered_residue 1 = true
  ∧ ∃ h', (Entity.transform Scenario.translate 3 Scenario.disordered_residue 1
             Scenario.unit_rotation (0, 0, 1)%Z = Ret tt h'
           ∨ Entity.transform Scenario.translate 3 Scenario.disordered_residue 1
               Scenario.unit_rotation (0, 0, 1)%Z = Exc AttributeError h')
      ∧ h' !! 1 = Scenario.disordered_residue !! 1
      ∧ h' !! 0 = Scenario.disordered_residue !! 0.
Proof.
  assert (ranked Scenario.disordered_residue_rank 2 Scenario.disordered_residue)
    as Hr by reflexivity.
  split; [exact Hr|]. split; [lia|]. split; [reflexivity|].
  destruct (C10_transform_frame Scenario.translate Scenario.unit_rotation
              (0, 0, 1)%Z Scenario.disordered_residue_rank 2 3
              Scenario.disordered_residue 1 Hr ltac:(lia) eq_refl)
    as (h' & Ht & _ & Hk & _).
  exists h'. split; [exact Ht|]. split.
  - apply Hk; [reflexivity|]. intros a. discriminate.
  - apply Hk; [reflexivity|]. intros a. discriminate.
Defined.

(** ** The index stays in step with the children *)

(** From [h] to [h'] only parent references and caches changed, and an
    entity whose parent reference or cache changed has a cache that ends
    with its id, of two ids or more when it has a parent. *)
Definition attach_upd (h h' : heap) : Prop :=
  unparent <$> h = unparent <$> h'
  ∧ ∀ d e', entity_at h' d = Some e' →
      (∃ e, entity_at h d = Some e ∧ full_id e' = full_id e ∧ parent e' = parent e)
      ∨ (∃ f, full_id e' = Some f ∧ last f = Some (_id e')
              ∧ (parent e' ≠ None → 2 ≤ length f)).

Lemma attach_upd_refl (h : heap) : attach_upd h h.
Proof. split; [done|]. intros d e' He. left. by exists e'. Qed.

Lemma attach_upd_trans (h1 h2 h3 : heap) :
  attach_upd h1 h2 → attach_upd h2 h3 → attach_upd h1 h3.
Proof.
  intros [S12 U12] [S23 U23]. split; [by etrans|].
  intros d e3 He3. destruct (U23 d e3 He3) as [(e2 & He2 & Ef & Ep)|?]; [|by right].
  destruct (U12 d e2 He2) as [(e1 & He1 & Ef1 & Ep1)|(f & Hf & Hl & Hn)].
  - left. exists e1. split_and!; congruence.
  - right. exists f.
    destruct (unparent_entity h2 h3 d e2 S23 He2) as (e3' & He3' & _ & Eid & _).
    assert (e3' = e3) as -> by congruence.
    split_and!; [congruence|congruence|].
    intros Hp. apply Hn. congruence.
Qed.

Lemma attach_upd_caches_ok (h h' : heap) :
  attach_upd h h' → caches_ok h → caches_ok h'.
Proof.
  intros [Hs Hu] Hok d e' He'.
  destruct (Hu d e' He') as [(e & He & Ef & Ep)|(f & Hf & Hl & Hn)].
  - destruct (Hok d e He) as [H1 H2].
    destruct (unparent_entity h h' d e Hs He) as (e2 & He2 & _ & Eid & _).
    assert (e2 = e') as -> by congruence.
    rewrite Ef, Ep, Eid. done.
  - split.
    + intros f' Hf'. congruence.
    + intros Hp. exists f. split; [done|]. by apply Hn.
Qed.

Lemma attach_upd_cache_set (h h' : heap) (d : loc) (e : Entity) :
  attach_upd h h' → entity_at h d = Some e → full_id e ≠ None →
  ∃ e', entity_at h' d = Some e' ∧ full_id e' ≠ None.
Proof.
  intros [Hs Hu] He Hf.
  destruct (unparent_entity h h' d e Hs He) as (e' & He' & _).
  exists e'. split; [done|].
  destruct (Hu d e' He') as [(e0 & He0 & Ef & _)|(f & Ef & _)]; congruence.
Qed.

Lemma cache_upd_attach_upd (g : nat) (h h' : heap) :
  cache_upd g h h' →
  unparent <$> h = unparent <$> h'
  ∧ ∀ d e', entity_at h' d = Some e' →
      (∃ e, entity_at h d = Some e ∧ full_id e' = full_id e ∧ parent e' = parent e)
      ∨ (∃ f, full_id e' = Some f ∧ last f = Some (_id e')
              ∧ (parent e' ≠ None → 2 ≤ length f)).
Proof.
  intros [Hs Hu]. split; [by apply same_shape_unparent|].
  intros d e' He'. assert (same_shape h' h) as Hs' by done.
  destruct (same_shape_entity h' h d e' Hs' He') as (e & He & E).
  apply with_full_id_None_inv in E as (_ & Eid & Ep & _).
  destruct (Hu d e' He') as [Ef|(f & Ef & Hg)].
  - left. exists e. rewrite He in Ef. injection Ef as Ef. done.
  - right. exists f. split; [done|].
    apply generate_full_id_last in Hg as (i & Hi & Hl & Hn).
    apply get_id_Ok in Hi. apply entity_at_Some in He. rewrite He in Hi.
    simpl in Hi. injection Hi as <-. split; [congruence|].
    intros Hp. apply Hn. unfold get_parent. rewrite He. simpl.
    intros [=]. congruence.
Qed.

(** [set_parent], when it returns. *)
Lemma set_parent_sound (p : loc) :
  ∀ fuel h l h',
    Entity.set_parent fuel h l p = Ret tt h' →
    attach_upd h h'
    ∧ ∀ e, entity_at h l = Some e →
        ∃ e', entity_at h' l = Some e' ∧ full_id e' ≠ None.
Proof.
  induction fuel as [|k IH]; intros h l h'.
  - simpl. destruct (h !! l) as [[e|a|w|dd]|] eqn:Hl; try done.
    intros [= <-]. split.
    + split.
      * apply list_eq. intros i. rewrite !list_lookup_fmap.
        destruct (decide (i = l)) as [->|Hne].
        -- rewrite list_lookup_insert_eq by (by eapply lookup_lt_Some).
           by rewrite Hl.
        -- by rewrite list_lookup_insert_ne.
      * intros d e'. unfold entity_at. destruct (decide (d = l)) as [->|Hne].
        -- rewrite list_lookup_insert_eq by (by eapply lookup_lt_Some). done.
        -- rewrite list_lookup_insert_ne by done. intros He. left.
           exists e'. by split_and!.
    + intros e He. apply entity_at_Some in He. congruence.
  - cbn [Entity.set_parent].
    destruct (h !! l) as [[e|a|w|dd]|] eqn:Hl; try done.
    + (* entity *)
      set (h0 := set_entity l (with_parent (Some p)) h). intros Hreset.
      pose proof (reset_sound (S k) (S k) h0 l) as Hp. rewrite Hreset in Hp.
      destruct Hp as [U F].
      assert (entity_at h0 l = Some (with_parent (Some p) e)) as He0.
      { unfold h0. rewrite entity_at_set_entity. case_decide; [|done].
        apply entity_at_Some in Hl. by rewrite Hl. }
      destruct (F l) as (e1 & f & He1 & Hf & Hg); [by eapply reach_self|].
      apply cache_upd_attach_upd in U as [Hs Hu]. split.
      * split.
        -- etrans; [|exact Hs]. apply list_eq. intros i.
           unfold h0. rewrite !list_lookup_fmap, lookup_set_entity.
           case_decide; subst; [|done]. by rewrite Hl.
        -- intros d e' He'. destruct (decide (d = l)) as [->|Hne].
           ++ right. assert (e' = e1) as -> by congruence. exists f.
              split; [done|].
              apply generate_full_id_last in Hg as (i & Hi & Hlast & Hn).
              apply get_id_Ok in Hi. apply entity_at_Some in He1.
              rewrite He1 in Hi. simpl in Hi. injection Hi as <-.
              split; [done|]. intros Hpar. apply Hn.
              unfold get_parent. rewrite He1. simpl. intros [=]. congruence.
           ++ destruct (Hu d e' He') as [(e0 & He0' & Ef & Ep)|?]; [|by right].
              left. exists e0. split; [|done].
              unfold h0 in He0'. rewrite entity_at_set_entity in He0'.
              by case_decide.
      * intros e2 He2. exists e1. split; [done|]. congruence.
    + (* atom *)
      intros [= <-]. split.
      * split.
        -- apply list_eq. intros i. rewrite !list_lookup_fmap.
           destruct (decide (i = l)) as [->|Hne].
           ++ rewrite list_lookup_insert_eq by (by eapply lookup_lt_Some).
              by rewrite Hl.
           ++ by rewrite list_lookup_insert_ne.
        -- intros d e'. unfold entity_at. destruct (decide (d = l)) as [->|Hne].
           ++ rewrite list_lookup_insert_eq by (by eapply lookup_lt_Some). done.
           ++ rewrite list_lookup_insert_ne by done. intros He. left.
              exists e'. by split_and!.
      * intros e He. apply entity_at_Some in He. congruence.
    + (* wrapper *)
      set (h0 := <[l:=ODisordered (d_with_parent (Some p) w)]> h).
      assert (attach_upd h h0) as U0.
      { split.
        - apply list_eq. intros i. unfold h0. rewrite !list_lookup_fmap.
          destruct (decide (i = l)) as [->|Hne].
          + rewrite list_lookup_insert_eq by (by eapply lookup_lt_Some).
            by rewrite Hl.
          + by rewrite list_lookup_insert_ne.
        - intros d e'. unfold entity_at, h0. destruct (decide (d = l)) as [->|Hne].
          + rewrite list_lookup_insert_eq by (by eapply lookup_lt_Some). done.
          + rewrite list_lookup_insert_ne by done. intros He. left.
            exists e'. by split_and!. }
      intros Hloop. split.
      * eapply attach_upd_trans; [exact U0|]. clear U0. revert Hloop.
        generalize h0. clear h0.
        induction (dict_values (d_child_dict w)) as [|c cs IHcs]; intros h0; simpl.
        -- intros [= <-]. apply attach_upd_refl.
        -- destruct (Entity.set_parent k h0 c p) as [[] h1|x h1| |] eqn:E; simpl;
             try done.
           intros Hrest. eapply attach_upd_trans; [|by apply IHcs].
           by apply IH in E as [? _].
      * intros e He. apply entity_at_Some in He. congruence.
Qed.

(** [detach_parent] raises nothing, and clears parent references only. *)
Definition detach_upd (h h' : heap) : Prop :=
  unparent <$> h = unparent <$> h'
  ∧ ∀ d e', entity_at h' d = Some e' →
      ∃ e, entity_at h d = Some e ∧ full_id e' = full_id e
           ∧ (parent e' = parent e ∨ parent e' = None).

Lemma detach_upd_insert (h : heap) (l : loc) (o o' : pyobj) :
  h !! l = Some o → unparent o' = unparent o →
  (∀ e', o' = OEntity e' →
         ∃ e, o = OEntity e ∧ full_id e' = full_id e ∧ parent e' = None) →
  detach_upd h (<[l := o']> h).
Proof.
  intros Hl E Ho. split.
  - apply list_eq. intros i. rewrite !list_lookup_fmap.
    destruct (decide (i = l)) as [->|Hne].
    + rewrite list_lookup_insert_eq by (by eapply lookup_lt_Some).
      rewrite Hl. simpl. by rewrite E.
    + by rewrite list_lookup_insert_ne.
  - intros d e'. unfold entity_at. destruct (decide (d = l)) as [->|Hne].
    + rewrite list_lookup_insert_eq by (by eapply lookup_lt_Some).
      rewrite Hl. destruct o' as [e2| | |]; try done. intros [= ->].
      destruct (Ho e' eq_refl) as (e & -> & Ef & Ep). exists e. auto.
    + rewrite list_lookup_insert_ne by done.
      destruct (h !! d) as [[e| | |]|]; try done. intros [= ->]. exists e'. auto.
Qed.

Lemma detach_upd_trans (h1 h2 h3 : heap) :
  detach_upd h1 h2 → detach_upd h2 h3 → detach_upd h1 h3.
Proof.
  intros [S12 U12] [S23 U23]. split; [by etrans|].
  intros d e3 He3. destruct (U23 d e3 He3) as (e2 & He2 & Ef & Ep).
  destruct (U12 d e2 He2) as (e1 & He1 & Ef1 & Ep1).
  exists e1. split_and!; [done|congruence|].
  destruct Ep as [Ep|Ep]; [|by right].
  destruct Ep1 as [Ep1|Ep1]; [left|right]; congruence.
Qed.

Lemma detach_parent_sound :
  ∀ fuel h l,
    match Entity.detach_parent fuel h l with
    | Ret _ h' => detach_upd h h'
    | Exc _ _ => False
    | Loop | Stuck => True
    end.
Proof.
  assert (∀ h l e, h !! l = Some (OEntity e) →
            detach_upd h (set_entity l (with_parent None) h)) as Hent.
  { intros h l e Hl. rewrite (set_entity_insert h l e) by (by apply entity_at_Some).
    eapply detach_upd_insert; [done|done|]. intros e' [= <-]. by exists e. }
  induction fuel as [|k IH]; intros h l.
  - simpl. destruct (h !! l) as [[e|a|w|dd]|] eqn:Hl; try done; [by eapply Hent|].
    by eapply detach_upd_insert.
  - cbn [Entity.detach_parent].
    destruct (h !! l) as [[e|a|w|dd]|] eqn:Hl; try done; [by eapply Hent| |].
    + by eapply detach_upd_insert.
    + assert (detach_upd h (<[l:=ODisordered (d_with_parent None w)]> h)) as U0
        by (by eapply detach_upd_insert).
      revert U0. generalize (<[l:=ODisordered (d_with_parent None w)]> h).
      induction (dict_values (d_child_dict w)) as [|c cs IHcs]; intros h0 U0; simpl;
        [done|].
      specialize (IH h0 c).
      destruct (Entity.detach_parent k h0 c) as [[] h1|x h1| |]; simpl; try done.
      apply IHcs. by eapply detach_upd_trans.
Qed.

(** *** [==] between two children, and [list.remove] *)

Lemma tail_last_eq (f1 f2 : list pyid) (a b : pyid) :
  last f1 = Some a → 2 ≤ length f1 → last f2 = Some b →
  tail f1 = tail f2 → a = b.
Proof.
  destruct f1 as [|x [|y r]]; simpl; try lia. intros Ha _ Hb Ht.
  destruct f2 as [|z t]; [done|]. simpl in Ht. subst t.
  simpl in Hb. congruence.
Qed.

Lemma py_eq_distinct_children (h : heap) (x child : loc) :
  x ≠ child → caches_ok h →
  (∀ ec, entity_at h child = Some ec → full_id ec ≠ None) →
  (∀ i j, h !! x ≫= obj_id = Some i → h !! child ≫= obj_id = Some j → i ≠ j) →
  Entity.py_eq h (Some x) (Some child) = Ok false
  ∨ Entity.py_eq h (Some x) (Some child) = Undef.
Proof.
  intros Hne Hok Hcache Hids.
  assert (∀ a b : option bool,
            (if decide (Some x = Some child) then a else b) = b) as Hd1.
  { intros a b. destruct (decide (Some x = Some child)) as [E|_]; [|done].
    injection E as E. by destruct Hne. }
  assert (∀ a b : option bool,
            (if decide (Some child = Some x) then a else b) = b) as Hd2.
  { intros a b. destruct (decide (Some child = Some x)) as [E|_]; [|done].
    injection E as E. by destruct Hne. }
  assert (bool_decide (Some x = Some child) = false) as Hbd
    by (apply bool_decide_eq_false; congruence).
  pose proof (Hok x) as Hokx. pose proof (Hok child) as Hokc.
  unfold entity_at in Hcache, Hokx, Hokc.
  destruct (h !! x) as [[ex|ax|wx|dx]|] eqn:Hx;
    destruct (h !! child) as [[ec|ac|wc|dc]|] eqn:Hc;
    unfold Entity.py_eq, Entity.dunder_eq, Entity.__eq__, Entity.same_type;
    rewrite ?Hx, ?Hc; simpl; rewrite ?Hd1, ?Hd2; simpl; rewrite ?Hbd; auto.
  assert (_id ex ≠ _id ec) as Hid by (by apply Hids).
  destruct (decide (cls ec = cls ex)) as [Hcls|Hcls].
  - destruct (parent ex) as [q|] eqn:Hq; simpl.
    + destruct (Hokx ex eq_refl) as [Hl1 Hp1].
      destruct Hp1 as (f1 & Hf1 & Hlen); [by rewrite Hq|].
      destruct (Hokc ec eq_refl) as [Hl2 _].
      destruct (full_id ec) as [f2|] eqn:Hf2; [|by destruct (Hcache ec eq_refl)].
      rewrite Hf1. simpl. left. f_equal. apply bool_decide_eq_false.
      intros Ht. apply Hid.
      eapply tail_last_eq; [by apply Hl1|done|by apply Hl2|done].
    + left. f_equal. by apply bool_decide_eq_false.
  - simpl. destruct (decide (cls ex = cls ec)) as [E|_]; [by destruct Hcls|].
    simpl. by left.
Qed.

Lemma list_remove_spec (h : heap) (child : loc) :
  ∀ l, NoDup l → child ∈ l →
    (∀ x, x ∈ l → x ≠ child →
       Entity.py_eq h (Some x) (Some child) = Ok false
       ∨ Entity.py_eq h (Some x) (Some child) = Undef) →
    (∃ l', Entity.list_remove h child l = Ok l' ∧ NoDup l'
           ∧ ∀ x, x ∈ l' ↔ x ∈ l ∧ x ≠ child)
    ∨ Entity.list_remove h child l = Undef.
Proof.
  induction l as [|y l IH]; [by intros _ ?%elem_of_nil|].
  intros [Hy Hnd]%NoDup_cons Hin Heq. simpl.
  destruct (decide (y = child)) as [->|Hne]; simpl.
  - left. exists l. split_and!; [done|done|].
    intros x. rewrite elem_of_cons. naive_solver.
  - destruct (Heq y) as [->| ->]; [left|done| |by right]. simpl.
    apply elem_of_cons in Hin as [->|Hin]; [done|].
    destruct IH as [(l' & -> & Hnd' & Hl')| ->]; [done|done| | |by right].
    { intros x Hx. apply Heq. by right. }
    left. simpl. exists (y :: l'). split_and!; [done| |].
    + apply NoDup_cons. split; [|done]. rewrite Hl'. naive_solver.
    + intros x. rewrite !elem_of_cons, Hl'. naive_solver.
Qed.

(** *** The invariant *)

Definition children_ok (h : heap) : Prop :=
  ∀ n e, entity_at h n = Some e →
    in_sync_prop h e ∧ NoDup (child_list e)
    ∧ ∀ c ec, c ∈ child_list e → entity_at h c = Some ec → full_id ec ≠ None.

Definition hierarchy_inv (h : heap) : Prop := caches_ok h ∧ children_ok h.

Lemma unparent_ids (h h' : heap) (c : loc) :
  unparent <$> h = unparent <$> h' → h' !! c ≫= obj_id = h !! c ≫= obj_id.
Proof.
  intros Hs. pose proof (unparent_lookup h h' c Hs) as E.
  destruct (h !! c) as [o|], (h' !! c) as [o'|]; simpl in *; try done.
  injection E as E. symmetry. by apply unparent_obj_id.
Qed.

Lemma in_sync_ext (h h' : heap) (e e' : Entity) :
  (∀ c, h' !! c ≫= obj_id = h !! c ≫= obj_id) →
  child_list e' = child_list e → child_dict e' = child_dict e →
  in_sync_prop h e → in_sync_prop h' e'.
Proof.
  intros Hi El Ed (Hnd & Hid & Hs). unfold in_sync_prop. rewrite El, Ed.
  split_and!; [done| |].
  - intros c Hc. rewrite Hi. by apply Hid.
  - intros k c. rewrite Hi. apply Hs.
Qed.

Lemma all_new_inv (h : heap) : all_new h → hierarchy_inv h.
Proof.
  unfold all_new. rewrite forallb_forall. intros Hnew.
  assert (∀ d e, entity_at h d = Some e →
            parent e = None ∧ child_list e = [] ∧ child_dict e = []
            ∧ full_id e = None) as H.
  { intros d e He%entity_at_Some. apply list_elem_of_lookup_2, list_elem_of_In in He.
    specialize (Hnew _ He). by apply bool_decide_eq_true in Hnew. }
  split.
  - intros d e He. destruct (H d e He) as (Hp & _ & _ & Hf). split.
    + intros f. by rewrite Hf.
    + by rewrite Hp.
  - intros n e He. destruct (H n e He) as (_ & Hl & Hd & _).
    unfold in_sync_prop. rewrite Hl, Hd. split_and!.
    + constructor.
    + by intros c ?%elem_of_nil.
    + intros k c. split; [done|]. by intros [?%elem_of_nil _].
    + constructor.
    + by intros c ec ?%elem_of_nil.
Qed.

(** A step that changed parent references and caches only, and kept what
    the invariant says about caches. *)
Definition benign (h h1 : heap) : Prop :=
  unparent <$> h = unparent <$> h1
  ∧ (caches_ok h → caches_ok h1)
  ∧ ∀ x ex, entity_at h x = Some ex → full_id ex ≠ None →
      ∃ ex1, entity_at h1 x = Some ex1 ∧ full_id ex1 ≠ None.

Lemma attach_upd_benign (h h1 : heap) : attach_upd h h1 → benign h h1.
Proof.
  intros U. split_and!; [apply U|by apply attach_upd_caches_ok|].
  intros x ex. by apply attach_upd_cache_set.
Qed.

Lemma detach_upd_benign (h h1 : heap) : detach_upd h h1 → benign h h1.
Proof.
  intros [Hs Hu]. split_and!; [done| |].
  - intros Hok d e1 He1. destruct (Hu d e1 He1) as (e & He & Ef & Ep).
    destruct (Hok d e He) as [H1 H2].
    destruct (unparent_entity h h1 d e Hs He) as (e2 & He2 & _ & Eid & _).
    assert (e2 = e1) as -> by congruence. rewrite Ef, Eid. split; [done|].
    intros Hp. apply H2. destruct Ep; congruence.
  - intros x ex Hx Hf. destruct (unparent_entity h h1 x ex Hs Hx) as (e1 & He1 & _).
    exists e1. split; [done|]. destruct (Hu x e1 He1) as (e & He & Ef & _).
    congruence.
Qed.

Lemma entity_at_insert (h : heap) (p d : loc) (e e' : Entity) :
  entity_at h p = Some e →
  entity_at (<[p := OEntity e']> h) d
  = if decide (d = p) then Some e' else entity_at h d.
Proof.
  intros He%entity_at_Some. unfold entity_at. case_decide; subst.
  - by rewrite list_lookup_insert_eq by (by eapply lookup_lt_Some).
  - by rewrite list_lookup_insert_ne.
Qed.

(** New lists of children for the entity at [p], after a benign step. *)
Lemma edit_children_inv (h h1 : heap) (p : loc) (e1 : Entity)
    (l2 : list loc) (d2 : dict loc) :
  hierarchy_inv h → benign h h1 → entity_at h1 p = Some e1 →
  in_sync_prop h (with_children l2 d2 e1) → NoDup l2 →
  (∀ x ex, x ∈ l2 → entity_at h1 x = Some ex → full_id ex ≠ None) →
  hierarchy_inv (<[p := OEntity (with_children l2 d2 e1)]> h1).
Proof.
  intros [Hok Hch] (Hs & Hok1 & Hset) He1 Hsync Hnd Hcache.
  set (e' := with_children l2 d2 e1). set (h' := <[p := OEntity e']> h1).
  assert (∀ d, entity_at h' d = if decide (d = p) then Some e' else entity_at h1 d)
    as HE by (intros d; by eapply entity_at_insert).
  assert (∀ x, h' !! x ≫= obj_id = h !! x ≫= obj_id) as HI.
  { intros x. rewrite <- (unparent_ids h h1 x Hs). unfold h'.
    destruct (decide (x = p)) as [->|Hne].
    - apply entity_at_Some in He1 as Hl.
      rewrite list_lookup_insert_eq by (by eapply lookup_lt_Some). by rewrite Hl.
    - by rewrite list_lookup_insert_ne. }
  assert (∀ x ex', entity_at h' x = Some ex' →
            ∃ ex1, entity_at h1 x = Some ex1 ∧ full_id ex' = full_id ex1
                   ∧ _id ex' = _id ex1 ∧ parent ex' = parent ex1
                   ∧ (x ≠ p → ex' = ex1)) as H1.
  { intros x ex'. rewrite HE. case_decide; subst.
    - intros [= <-]. by exists e1.
    - intros Hx. by exists ex'. }
  assert (∀ x ex1, entity_at h1 x = Some ex1 →
            ∃ ex, entity_at h x = Some ex ∧ child_list ex1 = child_list ex
                  ∧ child_dict ex1 = child_dict ex) as H2.
  { intros x ex1 Hx.
    destruct (unparent_entity h1 h x ex1 (eq_sym Hs) Hx) as (ex & Hex & _ & _ & El & Ed & _).
    exists ex. by split_and!. }
  assert (∀ x ex ex', entity_at h x = Some ex → full_id ex ≠ None →
            entity_at h' x = Some ex' → full_id ex' ≠ None) as H3.
  { intros x ex ex' Hx Hf Hx'. destruct (Hset x ex Hx Hf) as (ex1 & Hx1 & Hf1).
    destruct (H1 x ex' Hx') as (ex1' & Hx1' & Ef & _). congruence. }
  split.
  - intros d ed' Hd. destruct (H1 d ed' Hd) as (ed1 & Hd1 & Ef & Ei & Ep & _).
    destruct (Hok1 Hok d ed1 Hd1) as [Ha Hb]. rewrite Ef, Ei, Ep. done.
  - intros n en' Hn. rewrite HE in Hn. case_decide; subst.
    + injection Hn as <-. split_and!.
      * eapply in_sync_ext; [exact HI|done|done|exact Hsync].
      * done.
      * intros x ex' Hx Hx'. destruct (H1 x ex' Hx') as (ex1 & Hx1 & Ef & _).
        rewrite Ef. by eapply Hcache.
    + destruct (H2 n en' Hn) as (en & Hen & El & Ed).
      destruct (Hch n en Hen) as (Hsy & Hndn & Hcn). split_and!.
      * apply (in_sync_ext h h' en en' HI El Ed Hsy).
      * by rewrite El.
      * intros x ex' Hx Hx'. rewrite El in Hx.
        destruct (H1 x ex' Hx') as (ex1 & Hx1 & _).
        destruct (H2 x ex1 Hx1) as (ex & Hex & _).
        eapply H3; [done| |done]. by eapply Hcn.
Qed.

(** Linking a new child [c] under [p], at any position of the list. *)
Lemma link_inv (h h1 : heap) (p c : loc) (e : Entity) (cid : pyid) (l2 : list loc) :
  hierarchy_inv h → entity_at h p = Some e → get_id h c = Ok cid →
  dict_mem cid (child_dict e) = false →
  attach_upd h h1 →
  (∀ ec, entity_at h c = Some ec →
         ∃ e', entity_at h1 c = Some e' ∧ full_id e' ≠ None) →
  (∀ x, x ∈ l2 ↔ x = c ∨ x ∈ child_list e) →
  (c ∉ child_list e → NoDup l2) →
  ∃ e1, entity_at h1 p = Some e1
    ∧ child_list e1 = child_list e ∧ child_dict e1 = child_dict e
    ∧ hierarchy_inv
        (<[p := OEntity (with_children l2 (dict_set cid c (child_dict e)) e1)]> h1).
Proof.
  intros Hinv He Hc Hm U Hcc Hl2 Hnd2.
  pose proof (attach_upd_benign h h1 U) as B. destruct U as [Hs _].
  destruct (unparent_entity h h1 p e Hs He) as (e1 & He1 & _ & _ & El & Ed & _).
  exists e1. split_and!; try done.
  destruct Hinv as [Hok Hch]. destruct (Hch p e He) as ((Hnd & Hid & Hsy) & Hndl & Hcl).
  apply get_id_Ok in Hc. apply dict_mem_false in Hm.
  assert (c ∉ child_list e) as Hnin.
  { intros Hin. assert (dict_get cid (child_dict e) = Some c) as E by (by apply Hsy).
    congruence. }
  apply (edit_children_inv h h1 p e1 l2 _ (conj Hok Hch) B He1).
  - unfold in_sync_prop. simpl. split_and!.
    + by apply dict_keys_set_NoDup.
    + intros x [->|Hx]%Hl2; [by rewrite Hc|by apply Hid].
    + intros k x. rewrite dict_get_set, Hl2. case_decide; subst.
      * split; [intros [= <-]; auto|].
        intros [[->|Hx] Hk]; [done|].
        assert (dict_get cid (child_dict e) = Some x) as E by (by apply Hsy).
        congruence.
      * rewrite Hsy. split; [naive_solver|].
        intros [[->|Hx] Hk]; [congruence|done].
  - auto.
  - intros x ex [->|Hx]%Hl2 Hex.
    + destruct (unparent_entity h1 h c ex (eq_sym Hs) Hex) as (ec & Hec & _).
      destruct (Hcc ec Hec) as (e' & He' & Hf). congruence.
    + destruct (unparent_entity h1 h x ex (eq_sym Hs) Hex) as (ex0 & Hex0 & _).
      destruct B as (_ & _ & Hset).
      destruct (Hset x ex0 Hex0) as (ex1 & Hex1 & Hf); [by eapply Hcl|].
      congruence.
Qed.

Lemma add_exc_unchanged (fuel : nat) (h : heap) (p c : loc) (x : exn) (h' : heap) :
  Entity.add fuel h p c = Exc x h' → h' = h.
Proof.
  unfold Entity.add.
  destruct (get_id h c) as [cid|y| |]; simpl; try done; [|by intros [= _ <-]].
  destruct (Entity.has_id h p cid) as [[]|y| |]; simpl; try done;
    [by intros [= _ <-]| |by intros [= _ <-]].
  destruct (Entity.set_parent fuel h c p) as [[] h1|y h1| |] eqn:E; simpl; try done.
  by apply set_parent_not_exc in E.
Qed.

Lemma insert_exc_unchanged (fuel : nat) (h : heap) (p c : loc) (pos : Z)
    (x : exn) (h' : heap) :
  Entity.insert fuel h p pos c = Exc x h' → h' = h.
Proof.
  unfold Entity.insert.
  destruct (get_id h c) as [cid|y| |]; simpl; try done; [|by intros [= _ <-]].
  destruct (Entity.has_id h p cid) as [[]|y| |]; simpl; try done;
    [by intros [= _ <-]| |by intros [= _ <-]].
  destruct (Entity.set_parent fuel h c p) as [[] h1|y h1| |] eqn:E; simpl; try done.
  by apply set_parent_not_exc in E.
Qed.

Lemma add_inv (fuel : nat) (h : heap) (p c : loc) (h' : heap) :
  hierarchy_inv h → Entity.add fuel h p c = Ret tt h' → hierarchy_inv h'.
Proof.
  intros Hinv. unfold Entity.add.
  destruct (get_id h c) as [cid|y| |] eqn:Hc; simpl; try done.
  unfold Entity.has_id. destruct (entity_at h p) as [e|] eqn:He; simpl; [|done].
  destruct (dict_mem cid (child_dict e)) eqn:Hm; [done|].
  destruct (Entity.set_parent fuel h c p) as [[] h1|y h1| |] eqn:E; simpl; try done.
  intros [= <-]. apply set_parent_sound in E as [U Hcc].
  destruct (link_inv h h1 p c e cid (child_list e ++ [c]) Hinv He Hc Hm U Hcc)
    as (e1 & He1 & El & Ed & Hinv').
  - intros x. rewrite elem_of_app, list_elem_of_singleton. naive_solver.
  - intros Hnin. destruct Hinv as [_ Hch]. destruct (Hch p e He) as (_ & Hnd & _).
    apply NoDup_app. split_and!; [done| |apply NoDup_singleton].
    intros x Hx ->%list_elem_of_singleton. done.
  - rewrite (set_entity_insert h1 p e1) by done. simpl. by rewrite El, Ed.
Qed.

Lemma insert_inv (fuel : nat) (h : heap) (p c : loc) (pos : Z) (h' : heap) :
  hierarchy_inv h → Entity.insert fuel h p pos c = Ret tt h' → hierarchy_inv h'.
Proof.
  intros Hinv. unfold Entity.insert.
  destruct (get_id h c) as [cid|y| |] eqn:Hc; simpl; try done.
  unfold Entity.has_id. destruct (entity_at h p) as [e|] eqn:He; simpl; [|done].
  destruct (dict_mem cid (child_dict e)) eqn:Hm; [done|].
  destruct (Entity.set_parent fuel h c p) as [[] h1|y h1| |] eqn:E; simpl; try done.
  intros [= <-]. apply set_parent_sound in E as [U Hcc].
  set (i := Entity.slice_index pos (length (child_list e))).
  assert (∀ x, x ∈ take i (child_list e) ++ c :: drop i (child_list e)
               ↔ x = c ∨ x ∈ child_list e) as Hmem.
  { intros x. rewrite <- (take_drop i (child_list e)) at 3.
    rewrite !elem_of_app, elem_of_cons. naive_solver. }
  destruct (link_inv h h1 p c e cid
              (take i (child_list e) ++ c :: drop i (child_list e))
              Hinv He Hc Hm U Hcc Hmem) as (e1 & He1 & El & Ed & Hinv').
  - intros Hnin. destruct Hinv as [_ Hch]. destruct (Hch p e He) as (_ & Hnd & _).
    rewrite <- (take_drop i (child_list e)) in Hnd, Hnin.
    apply NoDup_app in Hnd as (Hn1 & Hn2 & Hn3).
    apply NoDup_app. split_and!; [done| |].
    + intros x Hx [->|Hx']%elem_of_cons; [|by eapply Hn2].
      apply Hnin, elem_of_app. by left.
    + apply NoDup_cons. split; [|done]. intros Hx. apply Hnin, elem_of_app. by right.
  - rewrite (set_entity_insert h1 p e1) by done. simpl. by rewrite El, Ed.
Qed.

Lemma caches_ok_insert (h : heap) (p : loc) (e1 e2 : Entity) :
  entity_at h p = Some e1 →
  _id e2 = _id e1 → parent e2 = parent e1 → full_id e2 = full_id e1 →
  caches_ok h → caches_ok (<[p := OEntity e2]> h).
Proof.
  intros He1 Ei Ep Ef Hok d e. rewrite (entity_at_insert h p d e1 e2 He1).
  case_decide; subst.
  - intros [= <-]. rewrite Ei, Ep, Ef. by apply (Hok p e1).
  - apply Hok.
Qed.

Lemma detach_child_final (h1 : heap) (p : loc) (e1 : Entity)
    (l' : list loc) (d' : dict loc) :
  entity_at h1 p = Some e1 →
  set_entity p (λ e', with_children l' (child_dict e') e')
    (set_entity p (with_children (child_list e1) d') h1)
  = <[p := OEntity (with_children l' d' e1)]> h1.
Proof.
  intros He1. rewrite (set_entity_insert h1 p e1) by done.
  rewrite (set_entity_insert _ p (with_children (child_list e1) d' e1)).
  - by rewrite list_insert_insert_eq.
  - rewrite (entity_at_insert h1 p p e1) by done. by case_decide.
Qed.

(** [detach_child] keeps the invariant, and changes nothing when it
    raises. *)
Lemma detach_child_inv (fuel : nat) (h : heap) (p : loc) (i : pyid) :
  hierarchy_inv h →
  match Entity.detach_child fuel h p i with
  | Ret _ h' => hierarchy_inv h'
  | Exc _ h' => h' = h
  | Loop | Stuck => True
  end.
Proof.
  intros Hinv. unfold Entity.detach_child.
  destruct (entity_at h p) as [e|] eqn:He; [|done].
  destruct (dict_get i (child_dict e)) as [child|] eqn:Hi; [|done].
  pose proof (detach_parent_sound fuel h child) as Hd.
  destruct (Entity.detach_parent fuel h child) as [[] h1|x h1| |]; simpl; try done.
  pose proof (detach_upd_benign h h1 Hd) as B. destruct Hd as [Hs Hu].
  destruct (unparent_entity h h1 p e Hs He) as (e1 & He1 & _ & _ & El & Ed & _).
  rewrite He1. unfold dict_del.
  assert (dict_mem i (child_dict e1) = true) as ->.
  { apply dict_mem_true. rewrite Ed, Hi. eauto. }
  destruct Hinv as [Hok Hch].
  destruct (Hch p e He) as ((Hnd & Hid & Hsy) & Hndl & Hcl).
  apply Hsy in Hi as Hchild. destruct Hchild as [Hin Hcid].
  set (d' := dict_remove i (child_dict e1)).
  set (h2 := set_entity p (with_children (child_list e1) d') h1).
  assert (h2 = <[p := OEntity (with_children (child_list e1) d' e1)]> h1) as Eh2
    by (by apply set_entity_insert).
  assert (∀ x, h2 !! x ≫= obj_id = h !! x ≫= obj_id) as HI.
  { intros x. rewrite <- (unparent_ids h h1 x Hs), Eh2.
    destruct (decide (x = p)) as [->|Hne].
    - apply entity_at_Some in He1 as Hl.
      rewrite list_lookup_insert_eq by (by eapply lookup_lt_Some). by rewrite Hl.
    - by rewrite list_lookup_insert_ne. }
  assert (caches_ok h2) as Hok2.
  { rewrite Eh2. eapply caches_ok_insert; [done|done|done|done|].
    by apply B. }
  assert (∀ x ex, x ∈ child_list e → entity_at h1 x = Some ex → full_id ex ≠ None)
    as Hc1.
  { intros x ex Hx Hex.
    destruct (unparent_entity h1 h x ex (eq_sym Hs) Hex) as (ex0 & Hex0 & _).
    destruct B as (_ & _ & Hset).
    destruct (Hset x ex0 Hex0) as (ex1 & Hex1 & Hf); [by eapply Hcl|]. congruence. }
  destruct (list_remove_spec h2 child (child_list e1)) as [(l' & -> & Hnd' & Hl')| ->];
    [by rewrite El|by rewrite El| | |done].
  { intros x Hx Hne. rewrite El in Hx. apply py_eq_distinct_children; [done|done| |].
    - intros ec. rewrite Eh2, (entity_at_insert h1 p child e1) by done.
      case_decide; subst.
      + intros [= <-]. simpl. apply (Hc1 p e1 Hin He1).
      + by apply Hc1.
    - intros a b. rewrite !HI. intros Ha Hb ->.
      assert (dict_get b (child_dict e) = Some x) as E1 by (by apply Hsy).
      assert (dict_get b (child_dict e) = Some child) as E2 by (by apply Hsy).
      congruence. }
  simpl. fold d' h2. unfold h2. rewrite (detach_child_final h1 p e1 l' d' He1).
  apply (edit_children_inv h h1 p e1 l' d' (conj Hok Hch) B He1).
  - unfold in_sync_prop. simpl. unfold d'. rewrite Ed.
    destruct (dict_keys_remove i (child_dict e) Hnd) as [Hnd2 Hk2].
    split_and!; [done| |].
    + intros x [Hx _]%Hl'. rewrite El in Hx. by apply Hid.
    + intros k x. rewrite Hl', El. destruct (decide (k = i)) as [->|Hne].
      * rewrite dict_get_remove_eq by done. split; [done|].
        intros [[Hx Hxc] Hk].
        assert (dict_get i (child_dict e) = Some x) as E by (by apply Hsy).
        congruence.
      * rewrite dict_get_remove_ne by done. rewrite Hsy. split; [|naive_solver].
        intros [Hx Hk]. split_and!; [done| |done]. intros ->. congruence.
  - done.
  - intros x ex [Hx _]%Hl'. rewrite El in Hx. by apply Hc1.
Qed.

Lemma child_op_inv (fuel : nat) (o : child_op) (h : heap) :
  hierarchy_inv h →
  match child_op_run fuel o h with
  | Ret _ h' => hierarchy_inv h'
  | Exc _ h' => h' = h
  | Loop | Stuck => True
  end.
Proof.
  intros Hinv. destruct o as [p c|p pos c|p i]; simpl.
  - destruct (Entity.add fuel h p c) as [[] h'|x h'| |] eqn:E; try done.
    + by eapply add_inv.
    + by eapply add_exc_unchanged.
  - destruct (Entity.insert fuel h p pos c) as [[] h'|x h'| |] eqn:E; try done.
    + by eapply insert_inv.
    + by eapply insert_exc_unchanged.
  - by apply detach_child_inv.
Qed.

Lemma child_ops_inv (fuel : nat) (ops : list child_op) :
  ∀ h h', hierarchy_inv h → child_ops_run fuel ops h = Some h' → hierarchy_inv h'.
Proof.
  induction ops as [|o ops IH]; intros h h' Hinv; simpl; [by intros [= <-]|].
  pose proof (child_op_inv fuel o h Hinv) as Hstep.
  destruct (child_op_run fuel o h) as [[] h1|x h1| |]; try done.
  - by apply IH.
  - subst. by apply IH.
Qed.

(** C5. Start from entities that are all new, and run any sequence of
    [add], [insert] and [detach_child] on any of them (catching the
    exception of an operation that raises).  Then for every entity of the
    heap the keys of [child_dict] are the ids of the children in
    [child_list], and [child_dict] maps each id to the child of the list
    that bears it. *)
Theorem C5_index_in_sync (fuel : nat) (ops : list child_op) (h h' : heap)
    (n : loc) (e : Entity) :
  all_new h → child_ops_run fuel ops h = Some h' →
  entity_at h' n = Some e →
  index_in_sync h' e
  ∧ (∀ k, k ∈ dict_keys (child_dict e)
          ↔ ∃ c, c ∈ child_list e ∧ get_id h' c = Ok k)
  ∧ (∀ c k, c ∈ child_list e → get_id h' c = Ok k →
            dict_get k (child_dict e) = Some c).
Proof.
  intros Hnew%all_new_inv Hrun He.
  destruct (child_ops_inv fuel ops h h' Hnew Hrun) as [_ Hch].
  destruct (Hch n e He) as (Hsync & _). split; [by apply index_in_sync_prop|].
  destruct Hsync as (Hnd & Hid & Hsy). split.
  - intros k. rewrite <- dict_get_keys. split.
    + intros [c Hc]. exists c. rewrite get_id_Ok. by apply Hsy.
    + intros (c & Hc & Hk). exists c. apply Hsy. by rewrite <- get_id_Ok.
  - intros c k Hc Hk. apply Hsy. by rewrite <- get_id_Ok.
Qed.

Lemma C5_index_in_sync_witness :
  all_new Scenario.new_chain_and_two_residues
  ∧ ∃ h' e,
      child_ops_run 3 Scenario.add_remove_insert Scenario.new_chain_and_two_residues
      = Some h'
      ∧ entity_at h' 0 = Some e
      ∧ child_list e = [2; 4]
      ∧ index_in_sync h' e.
Proof.
  split; [reflexivity|].
  evaluate_as Hrun (child_ops_run 3 Scenario.add_remove_insert
                      Scenario.new_chain_and_two_residues).
  eexists _, _. split; [exact Hrun|]. split; [reflexivity|]. split; [reflexivity|].
  eapply (C5_index_in_sync 3 Scenario.add_remove_insert
            Scenario.new_chain_and_two_residues _ 0 _ eq_refl Hrun eq_refl).
Defined.

(** ** Stale paths after a detachment *)

(** C1. The full id of a node is the full id of its parent followed by its
    own id, and its own id alone at a root.  [detach_parent] clears the
    parent reference and leaves the cached path in place, unlike
    [set_parent]: after [c.add(r); c.detach_child(r.id)] the residue [r] is
    a root and [r.get_full_id()] still answers with the path through [c]. *)
Theorem C1_full_id_stale_after_detach :
  ∃ h, Scenario.residue_detached = Ret tt h
    ∧ parent <$> entity_at h 2 = Some None
    ∧ _id <$> entity_at h 2 = Some (IdRes " " 10 "A")
    ∧ Entity.get_full_id 3 h 2 = Ret [IdStr "A"; IdRes " " 10 "A"] h
    ∧ Entity._generate_full_id 3 h 2 = Ok [IdRes " " 10 "A"].
Proof.
  evaluate_as Hr Scenario.residue_detached.
  eexists. split; [exact Hr|]. split_and!; by_evaluation.
Qed.

(** ** Equality reads the cache *)

(** C7. [__eq__] and the orderings read the attribute [full_id] of both
    operands and never call [get_full_id]: for a chain [a] that has a
    parent and a new chain [b] with the same id, whose path was never
    computed, [a == b] raises [TypeError], where the paths below the root
    that [get_full_id] gives, [("A",)] and [()], compare unequal. *)
Theorem C7_eq_raises_on_unset_cache :
  ∃ h, Scenario.attached_and_fresh_chain = Ret 4 h
    ∧ Entity.py_eq h (Some 2) (Some 4) = Raise TypeError
    ∧ Entity.py_cmp 1 OpLt h (Some 2) (Some 4) = Raise TypeError
    ∧ Entity._generate_full_id 3 h 2 = Ok [IdInt 0; IdStr "A"]
    ∧ Entity._generate_full_id 3 h 4 = Ok [IdStr "A"].
Proof.
  evaluate_as Hr Scenario.attached_and_fresh_chain.
  eexists. split; [exact Hr|]. split_and!; by_evaluation.
Qed.

(** ** Full ids: generation, the lazy getter, the reset *)

Lemma walk_parents_cons (h : heap) (a : pyid) :
  ∀ fuel p parts,
    Entity.walk_parents fuel h p (a :: parts)
    = let! r := Entity.walk_parents fuel h p parts in Ok (a :: r).
Proof.
  induction fuel as [|k IH]; intros [q|] parts; simpl; try done.
  destruct (get_id h q) as [i| | |]; simpl; try done.
  destruct (get_parent h q) as [p'| | |]; simpl; try done; apply IH.
Qed.

(** X1. [_generate_full_id] builds the path of an entity from that of its
    parent: the path of a root is its id alone, and the path of an object
    with a parent is the path of the parent followed by its own id (with
    one more turn of the loop). *)
Theorem generate_full_id_extends (g : nat) (h : heap) (l : loc) (i : pyid) :
  get_id h l = Ok i →
  (get_parent h l = Ok None → Entity._generate_full_id g h l = Ok [i])
  ∧ (∀ p, get_parent h l = Ok (Some p) →
       Entity._generate_full_id (S g) h l
       = let! f := Entity._generate_full_id g h p in Ok (f ++ [i])).
Proof.
  intros Hi. split.
  - intros Hp. unfold Entity._generate_full_id. rewrite Hi, Hp. simpl.
    by destruct g.
  - intros p Hp. unfold Entity._generate_full_id. rewrite Hi, Hp.
    cbn [rbind Entity.walk_parents].
    destruct (get_id h p) as [j| | |]; simpl; try done.
    destruct (get_parent h p) as [pp| | |]; simpl; try done.
    rewrite walk_parents_cons.
    by destruct (Entity.walk_parents g h pp [j]) as [r| | |].
Qed.

Lemma generate_full_id_extends_witness :
  get_id Scenario.chain_of_two_residues 4 = Ok (IdRes " " 11 " ")
  ∧ get_parent Scenario.chain_of_two_residues 4 = Ok (Some 0)
  ∧ Entity._generate_full_id 1 Scenario.chain_of_two_residues 4
    = Ok [IdStr "A"; IdRes " " 11 " "].
Proof.
  split; [reflexivity|]. split; [reflexivity|].
  destruct (generate_full_id_extends 0 Scenario.chain_of_two_residues 4
              (IdRes " " 11 " ") eq_refl) as [_ H].
  rewrite (H 0 eq_refl). reflexivity.
Defined.

Lemma with_full_id_same (e : Entity) (f : list pyid) :
  full_id e = Some f → with_full_id (Some f) e = e.
Proof. destruct e; simpl; by intros ->. Qed.

Lemma set_full_id_same (h : heap) (l : loc) (e : Entity) (f : list pyid) :
  entity_at h l = Some e → full_id e = Some f →
  set_entity l (with_full_id (Some f)) h = h.
Proof.
  intros He Hf. rewrite (set_entity_insert h l e _ He), (with_full_id_same e f Hf).
  apply list_insert_id. by apply entity_at_Some.
Qed.

Lemma entity_hier (h : heap) (l : loc) (e : Entity) :
  entity_at h l = Some e → hier h l = true.
Proof. intros He%entity_at_Some. unfold hier. by rewrite He. Qed.

(** X2. [get_full_id] is a memoising getter: it comes back on every entity of
    an acyclic heap; a cache that is set is returned as it is, without
    another walk, and the heap stays as it was; a cache that is unset is
    filled with the generated path, nothing else in the heap changes, and
    any later call, whatever its fuel, returns the same path and leaves the
    heap alone. *)
Theorem get_full_id_memo (rk : loc → nat) (top fuel : nat) (h : heap)
    (l : loc) (e : Entity) :
  ranked rk top h → top ≤ fuel → entity_at h l = Some e →
  ∃ f h', Entity.get_full_id fuel h l = Ret f h'
    ∧ same_shape h h'
    ∧ (∀ d, d ≠ l → h' !! d = h !! d)
    ∧ entity_at h' l = Some (with_full_id (Some f) e)
    ∧ (∀ f0, full_id e = Some f0 → f = f0 ∧ h' = h)
    ∧ (full_id e = None → Entity._generate_full_id fuel h l = Ok f)
    ∧ ∀ fuel', Entity.get_full_id fuel' h' l = Ret f h'.
Proof.
  intros Hr%ranked_ranked_prop Hf He. unfold Entity.get_full_id at 1. rewrite He.
  destruct (full_id e) as [f0|] eqn:Hc.
  - exists f0, h. split_and!; try done.
    + by rewrite (with_full_id_same e f0 Hc).
    + by intros ? [= ->].
    + intros fuel'. unfold Entity.get_full_id. by rewrite He, Hc.
  - destruct (generate_full_id_total rk top fuel h l Hr (entity_hier h l e He))
      as [f Hg]; [lia|].
    rewrite Hg. simpl. exists f, (set_entity l (with_full_id (Some f)) h).
    split_and!; try done.
    + apply same_shape_set_full_id.
    + intros d Hd. rewrite lookup_set_entity. by case_decide.
    + rewrite entity_at_set_entity. case_decide; [|done]. by rewrite He.
    + intros fuel'. unfold Entity.get_full_id.
      rewrite entity_at_set_entity. case_decide; [|done]. by rewrite He.
Qed.

Lemma get_full_id_memo_witness :
  ranked (λ l, if decide (l = 0) then 1 else 0) 1 Scenario.chain_of_empty_residue
  ∧ 1 ≤ 1
  ∧ ∃ f h', Entity.get_full_id 1 Scenario.chain_of_empty_residue 0 = Ret f h'
      ∧ f = [IdStr "A"]
      ∧ Entity.get_full_id 0 h' 0 = Ret f h'.
Proof.
  assert (ranked (λ l, if decide (l = 0) then 1 else 0) 1
            Scenario.chain_of_empty_residue) as Hr by reflexivity.
  split; [exact Hr|]. split; [lia|].
  destruct (get_full_id_memo _ 1 1 Scenario.chain_of_empty_residue 0 _ Hr
              (le_n 1) eq_refl) as (f & h' & E & _ & _ & _ & _ & Hg & Hm).
  exists f, h'. split; [exact E|]. split; [|apply Hm].
  specialize (Hg eq_refl). vm_compute in Hg. by injection Hg.
Defined.

(** A call of [_reset_full_id] on objects whose caches are all fresh
    changes nothing. *)
Lemma reset_fixed (g : nat) :
  ∀ fuel h l,
    (∀ d, reset_reach h l d → cache_fresh g h d) →
    match Entity._reset_full_id g fuel h l with
    | Ret _ h' | Exc _ h' => h' = h
    | Loop | Stuck => True
    end.
Proof.
  induction fuel as [|k IH]; intros h l Hfresh; [done|].
  cbn [Entity._reset_full_id].
  destruct (h !! l) as [[e|a|w|dd]|] eqn:Hl; try done.
  - assert (entity_at h l = Some e) as He by by apply entity_at_Some.
    assert (∀ cs, cs ⊆ child_list e →
              match for_each (λ child h', except_AttributeError
                                (Entity._reset_full_id g k h' child)) cs h with
              | Ret _ h' => h' = h
              | Exc _ _ => False
              | Loop | Stuck => True
              end) as Hloop.
    { induction cs as [|c cs IHcs]; intros Hsub; simpl; [done|].
      assert (c ∈ child_list e) as Hc by (apply Hsub; left).
      pose proof (IH h c (λ d Hd, Hfresh d (reach_child h l e c d He Hc Hd))) as Hone.
      pose proof (reset_sound g k h c) as Hs.
      destruct (Entity._reset_full_id g k h c) as [[] h1|x h1| |]; simpl in *;
        try done.
      + subst h1. apply IHcs. intros y Hy. apply Hsub. by right.
      + destruct Hs as (-> & _ & _). subst h1. simpl.
        apply IHcs. intros y Hy. apply Hsub. by right. }
    specialize (Hloop (child_list e) (reflexivity _)).
    destruct (for_each _ (child_list e) h) as [[] h1|x h1| |]; simpl; try done.
    subst h1.
    destruct (Hfresh l (reach_self h l e He)) as (e' & f & He' & Hf & Hg).
    rewrite Hg. simpl. rewrite He in He'. injection He' as <-.
    by apply (set_full_id_same h l e f).
  - destruct (selected_child w) as [s|] eqn:Hs; [|done].
    apply IH. intros d Hd. apply Hfresh. by eapply reach_selected.
Qed.

(** X3. [_reset_full_id] is idempotent: on an entity of an acyclic heap it
    comes back, having changed cached paths only, and a second call comes
    back with the heap the first one left. *)
Theorem reset_full_id_idempotent (rk : loc → nat) (top g fuel : nat)
    (h : heap) (l : loc) (e : Entity) :
  ranked rk top h → top ≤ g → rk l < fuel → entity_at h l = Some e →
  ∃ h1, Entity._reset_full_id g fuel h l = Ret tt h1
    ∧ same_shape h h1
    ∧ Entity._reset_full_id g fuel h1 l = Ret tt h1.
Proof.
  intros Hr%ranked_ranked_prop Hg Hf He.
  destruct (reset_full_id_entity rk top g fuel h l e Hr Hg Hf He)
    as (h1 & E1 & [Hsh Hupd] & Hfresh).
  exists h1. split; [done|]. split; [done|].
  destruct (same_shape_entity h h1 l e Hsh He) as (e1 & He1 & _).
  pose proof (same_shape_ranked rk top h h1 Hsh Hr) as Hr1.
  destruct (reset_full_id_entity rk top g fuel h1 l e1 Hr1 Hg Hf He1)
    as (h2 & E2 & _ & _).
  pose proof (reset_fixed g fuel h1 l) as Hfix. rewrite E2 in Hfix.
  rewrite Hfix in E2; [done|].
  intros d Hd. apply Hfresh. apply (same_shape_reach h1 h); [|done].
  unfold same_shape in *. by symmetry.
Qed.

Lemma reset_full_id_idempotent_witness :
  ranked (λ l, if decide (l = 0) then 1 else 0) 1 Scenario.chain_of_two_residues
  ∧ 1 ≤ 1 ∧ 1 < 2
  ∧ ∃ h1, Entity._reset_full_id 1 2 Scenario.chain_of_two_residues 0 = Ret tt h1
      ∧ Entity._reset_full_id 1 2 h1 0 = Ret tt h1.
Proof.
  assert (ranked (λ l, if decide (l = 0) then 1 else 0) 1
            Scenario.chain_of_two_residues) as Hr by reflexivity.
  split; [exact Hr|]. split; [lia|]. split; [lia|].
  destruct (reset_full_id_idempotent _ 1 1 2 Scenario.chain_of_two_residues 0 _ Hr
              (le_n 1) (le_n 2) eq_refl) as (h1 & E1 & _ & E2).
  by exists h1.
Defined.

(** X4. A new entity is an empty root: [__init__] allocates it after the
    objects that exist, which it leaves alone, together with an empty
    dictionary for [xtra]; the entity has no parent, no children and no
    id in its index, and its full id is the one-element path of its id. *)
Theorem init_fresh (c : ecls) (i : pyid) (h : heap) (fuel : nat) :
  ∃ h', Entity.__init__ c i h = Ret (length h) h'
    ∧ (∀ d o, h !! d = Some o → h' !! d = Some o)
    ∧ get_id h' (length h) = Ok i
    ∧ get_parent h' (length h) = Ok None
    ∧ Entity.__len__ h' (length h) = Ok 0
    ∧ (∀ k, Entity.has_id h' (length h) k = Ok false)
    ∧ (∀ k, Entity.__getitem__ h' (length h) k = Raise KeyError)
    ∧ (∃ x, xtra <$> entity_at h' (length h) = Some x ∧ h' !! x = Some (ODict [])
            ∧ length h < x)
    ∧ ∃ h'', Entity.get_full_id fuel h' (length h) = Ret [i] h''
             ∧ same_shape h' h''.
Proof.
  eexists. split; [reflexivity|].
  set (e := mkEntity c i None None [] [] (S (length h))).
  assert ((h ++ [OEntity e; ODict []]) !! length h = Some (OEntity e)) as Hl.
  { by rewrite lookup_app_r, Nat.sub_diag by lia. }
  assert (entity_at (h ++ [OEntity e; ODict []]) (length h) = Some e) as He.
  { by apply entity_at_Some. }
  split_and!.
  - intros d o Hd. by apply lookup_app_l_Some.
  - unfold get_id. by rewrite Hl.
  - unfold get_parent. by rewrite Hl.
  - unfold Entity.__len__. by rewrite He.
  - intros k. unfold Entity.has_id. by rewrite He.
  - intros k. unfold Entity.__getitem__. by rewrite He.
  - exists (S (length h)). rewrite He. split; [done|]. split; [|lia].
    rewrite lookup_app_r by lia. by replace (S (length h) - length h) with 1 by lia.
  - unfold Entity.get_full_id. rewrite He. simpl.
    unfold Entity._generate_full_id, get_id, get_parent. rewrite Hl. simpl.
    assert (Entity.walk_parents fuel (h ++ [OEntity e; ODict []]) None [i] = Ok [i])
      as -> by by destruct fuel.
    simpl. eexists. split; [done|]. apply same_shape_set_full_id.
Qed.

(** ** The comparison operators *)

Lemma same_type_Some (h : heap) (e o : Entity) (y : loc) :
  entity_at h y = Some o → cls o = cls e →
  Entity.same_type h e (Some y) = Some o.
Proof.
  intros Hy%entity_at_Some Hc. unfold Entity.same_type. rewrite Hy.
  by case_decide.
Qed.

Lemma same_type_other_class (h : heap) (e o : Entity) (y : loc) :
  entity_at h y = Some o → cls o ≠ cls e →
  Entity.same_type h e (Some y) = None.
Proof.
  intros Hy%entity_at_Some Hc. unfold Entity.same_type. rewrite Hy.
  by case_decide.
Qed.

(** X5. [!=] is written out a second time in [__ne__]; the two methods
    agree: whatever the heap, the entity and the other operand, [__ne__]
    answers [NotImplemented] or raises when [__eq__] does, and otherwise
    returns the negation of what [__eq__] returns. *)
Theorem ne_negates_eq (h : heap) (e : Entity) (other : option loc) :
  Entity.__ne__ h e other
  = let! r := Entity.__eq__ h e other in Ok (negb <$> r).
Proof.
  unfold Entity.__ne__, Entity.__eq__.
  destruct (Entity.same_type h e other) as [o|]; [|done].
  destruct (parent e).
  - destruct (full_id_tail (full_id e)) as [a| | |]; simpl; try done.
    destruct (full_id_tail (full_id o)) as [b| | |]; simpl; try done.
    by rewrite bool_decide_not.
  - simpl. by rewrite bool_decide_not.
Qed.

(** X6. [x == x] on an entity: [True] for a root, [True] for an entity
    with a parent whose cached path is set, and a [TypeError] for an entity
    with a parent whose cached path is unset, since [__eq__] subscripts the
    attribute.  In a heap whose caches are as [set_parent] leaves them,
    [==] is reflexive. *)
Theorem eq_reflexive (h : heap) (l : loc) (e : Entity) :
  entity_at h l = Some e →
  (parent e = None → Entity.py_eq h (Some l) (Some l) = Ok true)
  ∧ (full_id e ≠ None → Entity.py_eq h (Some l) (Some l) = Ok true)
  ∧ (parent e ≠ None → full_id e = None →
     Entity.py_eq h (Some l) (Some l) = Raise TypeError)
  ∧ (caches_ok h → Entity.py_eq h (Some l) (Some l) = Ok true).
Proof.
  intros He.
  assert (Entity.py_eq h (Some l) (Some l)
          = let! r := Entity.__eq__ h e (Some l) in
            Ok (default true r)) as ->.
  { unfold Entity.py_eq, Entity.dunder_eq.
    rewrite (proj1 (entity_at_Some h l e) He).
    destruct (Entity.__eq__ h e (Some l)) as [[b|]| | |]; simpl; try done.
    by rewrite bool_decide_eq_true_2. }
  unfold Entity.__eq__. rewrite (same_type_Some h e e l He eq_refl).
  assert (full_id e ≠ None → parent e ≠ None →
          (let! r := (let! a := full_id_tail (full_id e) in
                      let! b := full_id_tail (full_id e) in
                      Ok (Some (bool_decide (a = b)))) in
           Ok (default true r)) = Ok true) as Hset.
  { destruct (full_id e) as [f|]; [|done]. intros _ _. simpl.
    by rewrite bool_decide_eq_true_2. }
  split_and!.
  - intros ->. simpl. by rewrite bool_decide_eq_true_2.
  - intros Hf. destruct (parent e) eqn:Hp.
    + by apply Hset.
    + simpl. by rewrite bool_decide_eq_true_2.
  - intros Hp ->. by destruct (parent e).
  - intros Hc. destruct (Hc l e He) as [_ Hpar].
    destruct (parent e) eqn:Hp.
    + destruct Hpar as (f & Hf & _); [done|]. apply Hset; [|done].
      by rewrite Hf.
    + simpl. by rewrite bool_decide_eq_true_2.
Qed.

Lemma eq_reflexive_witness :
  entity_at Scenario.chain_of_two_residues 2
  = Some (mkEntity Residue (IdRes " " 10 " ")
            (Some [IdStr "A"; IdRes " " 10 " "]) (Some 0) [] [] 3)
  ∧ Entity.py_eq Scenario.chain_of_two_residues (Some 2) (Some 2) = Ok true.
Proof.
  split; [reflexivity|].
  destruct (eq_reflexive Scenario.chain_of_two_residues 2 _ eq_refl)
    as (_ & H & _).
  apply H. discriminate.
Defined.

(** X7. Entities of different classes, and an entity and [None]: every
    special method answers [NotImplemented], so [==] falls back on identity
    and is [False], [!=] cannot be [False], and each of [<], [<=], [>],
    [>=] raises [TypeError]; no cached path is read. *)
Theorem compare_across_classes (h : heap) (x : loc) (ex : Entity) :
  entity_at h x = Some ex →
  (Entity.py_eq h (Some x) None = Ok false
   ∧ ∀ k op, Entity.py_cmp (S k) op h (Some x) None = Raise TypeError)
  ∧ ∀ y ey, entity_at h y = Some ey → cls ex ≠ cls ey →
      Entity.__eq__ h ex (Some y) = Ok None
      ∧ Entity.__ne__ h ex (Some y) = Ok None
      ∧ Entity.py_eq h (Some x) (Some y) = Ok false
      ∧ ∀ k op, Entity.py_cmp (S k) op h (Some x) (Some y) = Raise TypeError.
Proof.
  intros Hx. pose proof (proj1 (entity_at_Some h x ex) Hx) as Hlx.
  split.
  - split.
    + unfold Entity.py_eq, Entity.dunder_eq. by rewrite Hlx.
    + intros k op. cbn [Entity.py_cmp]. rewrite Hlx. by simpl.
  - intros y ey Hy Hc.
    pose proof (proj1 (entity_at_Some h y ey) Hy) as Hly.
    assert (x ≠ y) as Hxy.
    { intros ->. rewrite Hx in Hy. by injection Hy as ->. }
    assert (Entity.same_type h ex (Some y) = None) as Hxy'.
    { by apply (same_type_other_class h ex ey). }
    assert (Entity.same_type h ey (Some x) = None) as Hyx'.
    { by apply (same_type_other_class h ey ex). }
    split_and!.
    + unfold Entity.__eq__. by rewrite Hxy'.
    + unfold Entity.__ne__. by rewrite Hxy'.
    + unfold Entity.py_eq, Entity.dunder_eq, Entity.__eq__.
      rewrite Hlx, Hly, Hxy', Hyx'. simpl.
      rewrite bool_decide_eq_false_2; [done|]. by intros [= ?].
    + intros k op. cbn [Entity.py_cmp]. unfold Entity.__cmp__.
      rewrite Hlx, Hly, Hxy', Hyx'. by simpl.
Qed.

Lemma compare_across_classes_witness :
  entity_at Scenario.chain_of_two_residues 0
  = Some (mkEntity Chain (IdStr "A") None None [2; 4]
            [(IdRes " " 10 " ", 2); (IdRes " " 11 " ", 4)] 1)
  ∧ Entity.py_eq Scenario.chain_of_two_residues (Some 0) (Some 2) = Ok false
  ∧ Entity.py_cmp 1 OpLt Scenario.chain_of_two_residues (Some 0) (Some 2)
    = Raise TypeError.
Proof.
  split; [reflexivity|].
  destruct (compare_across_classes Scenario.chain_of_two_residues 0 _ eq_refl)
    as [_ H].
  destruct (H 2 _ eq_refl) as (_ & _ & He & Hc); [discriminate|].
  split; [exact He|apply Hc].
Defined.

Lemma id_compare_antisym (a b : pyid) :
  id_compare b a = CompOpp <$> id_compare a b.
Proof.
  destruct a as [s|x|h1 s1 i1], b as [t|y|h2 s2 i2]; simpl; try done.
  - by rewrite String.compare_antisym.
  - by rewrite Z.compare_antisym.
  - rewrite (String.compare_antisym h1 h2), (Z.compare_antisym s2 s1),
      (String.compare_antisym i1 i2).
    by destruct (String.compare h2 h1), (Z.compare s2 s1), (String.compare i2 i1).
Qed.

Lemma cmp_holds_swap (op : cmpop) (c : comparison) :
  cmp_holds (swap_op op) (CompOpp c) = cmp_holds op c.
Proof. by destruct op, c. Qed.

Lemma id_cmp_swap (op : cmpop) (a b : pyid) :
  id_cmp (swap_op op) b a = id_cmp op a b.
Proof.
  unfold id_cmp. rewrite id_compare_antisym.
  destruct (id_compare a b); simpl; [|done]. by rewrite cmp_holds_swap.
Qed.

Lemma tuple_cmp_swap (op : cmpop) :
  ∀ xs ys, tuple_cmp (swap_op op) ys xs = tuple_cmp op xs ys.
Proof.
  induction xs as [|x xs IH]; intros [|y ys]; simpl; try (by destruct op).
  destruct (decide (y = x)) as [->|Hne].
  - rewrite decide_True by done. apply IH.
  - rewrite decide_False by done. apply id_cmp_swap.
Qed.

(** X8. The orderings between two entities of one class.  When the left
    operand is a root the ids are compared, whether or not the right operand
    has a parent, and ids of different Python types raise [TypeError].
    When the two are both roots or both have a parent, [x OP y] and the
    mirrored [y OP' x] agree, exceptions included. *)
Theorem compare_same_class (h : heap) (x y : loc) (ex ey : Entity)
    (k : nat) (op : cmpop) :
  entity_at h x = Some ex → entity_at h y = Some ey → cls ex = cls ey →
  (parent ex = None →
   Entity.py_cmp (S k) op h (Some x) (Some y) = id_cmp op (_id ex) (_id ey))
  ∧ ((parent ex = None ↔ parent ey = None) →
     Entity.py_cmp (S k) op h (Some x) (Some y)
     = Entity.py_cmp (S k) (swap_op op) h (Some y) (Some x)).
Proof.
  intros Hx Hy Hc.
  pose proof (proj1 (entity_at_Some h x ex) Hx) as Hlx.
  pose proof (proj1 (entity_at_Some h y ey) Hy) as Hly.
  assert (∀ op', Entity.py_cmp (S k) op' h (Some x) (Some y)
                 = let! r := Entity.__cmp__ op' h ex (Some y) in
                   match r with Some b => Ok b | None => Raise TypeError end) as Hxy.
  { intros op'. cbn [Entity.py_cmp]. rewrite Hlx.
    destruct (Entity.__cmp__ op' h ex (Some y)) as [[b|]| | |] eqn:E; simpl;
      try done.
    exfalso. unfold Entity.__cmp__ in E.
    rewrite (same_type_Some h ex ey y Hy (eq_sym Hc)) in E.
    destruct (parent ex).
    - destruct (full_id_tail (full_id ex)) as [a| | |]; simpl in E; try done.
      destruct (full_id_tail (full_id ey)) as [b| | |]; simpl in E; try done.
      by destruct (tuple_cmp op' a b).
    - by destruct (id_cmp op' (_id ex) (_id ey)). }
  assert (∀ op', Entity.py_cmp (S k) op' h (Some y) (Some x)
                 = let! r := Entity.__cmp__ op' h ey (Some x) in
                   match r with Some b => Ok b | None => Raise TypeError end) as Hyx.
  { intros op'. cbn [Entity.py_cmp]. rewrite Hly.
    destruct (Entity.__cmp__ op' h ey (Some x)) as [[b|]| | |] eqn:E; simpl;
      try done.
    exfalso. unfold Entity.__cmp__ in E.
    rewrite (same_type_Some h ey ex x Hx Hc) in E.
    destruct (parent ey).
    - destruct (full_id_tail (full_id ey)) as [a| | |]; simpl in E; try done.
      destruct (full_id_tail (full_id ex)) as [b| | |]; simpl in E; try done.
      by destruct (tuple_cmp op' a b).
    - by destruct (id_cmp op' (_id ey) (_id ex)). }
  split.
  - intros Hp. rewrite Hxy. unfold Entity.__cmp__.
    rewrite (same_type_Some h ex ey y Hy (eq_sym Hc)), Hp.
    by destruct (id_cmp op (_id ex) (_id ey)).
  - intros Hboth. rewrite Hxy, Hyx. unfold Entity.__cmp__.
    rewrite (same_type_Some h ex ey y Hy (eq_sym Hc)),
      (same_type_Some h ey ex x Hx Hc).
    destruct (parent ex) as [px|] eqn:Hpx, (parent ey) as [py|] eqn:Hpy;
      try (exfalso; naive_solver).
    + destruct (full_id ex) as [fx|], (full_id ey) as [fy|]; simpl; try done.
      by rewrite tuple_cmp_swap.
    + by rewrite id_cmp_swap.
Qed.

Lemma compare_same_class_witness :
  Entity.py_cmp 1 OpLt Scenario.chain_of_two_residues (Some 2) (Some 4)
  = Entity.py_cmp 1 OpGt Scenario.chain_of_two_residues (Some 4) (Some 2)
  ∧ Entity.py_cmp 1 OpLt Scenario.chain_of_two_residues (Some 2) (Some 4) = Ok true.
Proof.
  destruct (compare_same_class Scenario.chain_of_two_residues 2 4 _ _ 0 OpLt
              eq_refl eq_refl eq_refl) as [_ H].
  split; [|reflexivity]. apply H. split; discriminate.
Defined.

(** ** [insert]: where the child goes *)

Lemma insert_unfold (fuel : nat) (h : heap) (p c : loc) (pos : Z) (e : Entity)
    (cid : pyid) :
  entity_at h p = Some e → get_id h c = Ok cid →
  Entity.insert fuel h p pos c
  = if dict_mem cid (child_dict e) then Exc PDBConstructionException h
    else let* _u , h1 := Entity.set_parent fuel h c p in
         Ret tt (set_entity p
                   (λ e, let i := Entity.slice_index pos (length (child_list e)) in
                         with_children
                           (take i (child_list e) ++ c :: drop i (child_list e))
                           (dict_set cid c (child_dict e)) e) h1).
Proof.
  intros He Hc. unfold Entity.insert, Entity.has_id. rewrite Hc. simpl.
  rewrite He. simpl. done.
Qed.

Lemma slice_index_le (pos : Z) (n : nat) : Entity.slice_index pos n ≤ n.
Proof. unfold Entity.slice_index. destruct (Z.ltb_spec pos 0); lia. Qed.

(** [set_parent] keeps the children and the index of every entity. *)
Lemma set_parent_keeps_children (fuel : nat) (h h1 : heap) (c p d : loc) (e : Entity) :
  Entity.set_parent fuel h c p = Ret tt h1 → entity_at h d = Some e →
  ∃ e1, entity_at h1 d = Some e1
    ∧ child_list e1 = child_list e ∧ child_dict e1 = child_dict e.
Proof.
  intros [[Hu _] _]%set_parent_sound He.
  destruct (unparent_entity h h1 d e Hu He) as (e1 & He1 & _ & _ & El & Ed & _).
  by exists e1.
Qed.

(** X9. An [insert] at a position at or past the end of the children is an
    [add]: the two calls leave the same heap and end the same way, whatever
    the heap. *)
Theorem insert_at_end_is_add (fuel : nat) (h : heap) (p c : loc) (pos : Z)
    (e : Entity) :
  entity_at h p = Some e → (Z.of_nat (length (child_list e)) ≤ pos)%Z →
  Entity.insert fuel h p pos c = Entity.add fuel h p c.
Proof.
  intros He Hpos.
  destruct (get_id h c) as [cid| | |] eqn:Hc;
    try (unfold Entity.insert, Entity.add; by rewrite Hc).
  rewrite (insert_unfold fuel h p c pos e cid He Hc),
    (add_unfold fuel h p c e cid He Hc).
  destruct (dict_mem cid (child_dict e)); [done|].
  destruct (Entity.set_parent fuel h c p) as [[] h1|x h1| |] eqn:E; simpl; try done.
  destruct (set_parent_keeps_children fuel h h1 c p p e E He) as (e1 & He1 & El & Ed).
  rewrite !(set_entity_insert h1 p e1 _ He1). do 3 f_equal.
  assert (Entity.slice_index pos (length (child_list e1)) = length (child_list e1))
    as ->.
  { unfold Entity.slice_index. rewrite El. destruct (Z.ltb_spec pos 0); lia. }
  by rewrite take_ge, drop_ge.
Qed.

Lemma insert_at_end_is_add_witness :
  (Z.of_nat (length (child_list (mkEntity Chain (IdStr "A") None None [] [] 1))) ≤ 5)%Z
  ∧ Entity.insert 3 Scenario.chain_and_residue 0 5 2
    = Entity.add 3 Scenario.chain_and_residue 0 2.
Proof.
  split; [simpl; lia|].
  apply (insert_at_end_is_add 3 Scenario.chain_and_residue 0 2 5 _ eq_refl).
  simpl. lia.
Defined.

(** X10. [p.insert(pos, c)] with a new id, in an acyclic heap: the call
    comes back; [c] sits at the index the slice assignment computes, which
    is [pos] itself for a position within the list, counts from the end for
    a negative one, and is clamped to the ends; the children that were
    there keep their order around it; the index maps the id of [c] to [c]
    and [c] has [p] as parent. *)
Theorem insert_position (rk : loc → nat) (top fuel : nat) (h : heap) (p c : loc)
    (pos : Z) (e : Entity) (cid : pyid) :
  ranked rk top h → 2 * top < fuel → rk c < rk p →
  entity_at h p = Some e → get_id h c = Ok cid →
  dict_mem cid (child_dict e) = false →
  ∃ h' e' i,
    Entity.insert fuel h p pos c = Ret tt h'
    ∧ entity_at h' p = Some e'
    ∧ i = Entity.slice_index pos (length (child_list e))
    ∧ i ≤ length (child_list e)
    ∧ ((0 ≤ pos ≤ Z.of_nat (length (child_list e)))%Z → Z.of_nat i = pos)
    ∧ ((- Z.of_nat (length (child_list e)) ≤ pos < 0)%Z →
       Z.of_nat i = (Z.of_nat (length (child_list e)) + pos)%Z)
    ∧ child_list e' = take i (child_list e) ++ c :: drop i (child_list e)
    ∧ child_list e' !! i = Some c
    ∧ delete i (child_list e') = child_list e
    ∧ child_dict e' = dict_set cid c (child_dict e)
    ∧ Entity.__getitem__ h' p cid = Ok c
    ∧ get_parent h' c = Ok (Some p).
Proof.
  intros Hr%ranked_ranked_prop Hf Hlt He Hc Hm.
  rewrite (insert_unfold fuel h p c pos e cid He Hc), Hm.
  pose proof (entity_hier h p e He) as Hp.
  pose proof (get_id_hier h c cid Hc) as Hl.
  destruct (hier_Some h c Hl) as (oc & Hoc & _).
  destruct (Hr c oc Hoc) as (Htop & _).
  destruct (set_parent_spec rk top p fuel h c Hr Hp Hl Hlt)
    as (h1 & E & [Hu Hpar] & Hcp & _); [lia|]. rewrite E. simpl.
  destruct (unparent_entity h h1 p e Hu He) as (e1 & He1 & _ & _ & El & Ed & _).
  set (i := Entity.slice_index pos (length (child_list e))).
  pose proof (slice_index_le pos (length (child_list e))) as Hi. fold i in Hi.
  rewrite (set_entity_insert h1 p e1 _ He1). rewrite El, Ed. fold i.
  set (l' := take i (child_list e) ++ c :: drop i (child_list e)).
  set (e' := with_children l' (dict_set cid c (child_dict e)) e1).
  assert (entity_at (<[p := OEntity e']> h1) p = Some e') as He'.
  { rewrite (entity_at_insert h1 p p e1 e' He1). by case_decide. }
  assert (length (take i (child_list e)) = i) as Hlen by (by apply length_take_le).
  exists (<[p := OEntity e']> h1), e', i. split_and!; try done.
  - intros Hpos. unfold i, Entity.slice_index. destruct (Z.ltb_spec pos 0); lia.
  - intros Hpos. unfold i, Entity.slice_index. destruct (Z.ltb_spec pos 0); lia.
  - simpl. unfold l'. rewrite lookup_app_r by lia. by rewrite Hlen, Nat.sub_diag.
  - simpl. unfold l'. rewrite <- Hlen at 1. rewrite delete_middle.
    apply take_drop.
  - unfold Entity.__getitem__. rewrite He'. simpl. by rewrite dict_get_set_eq.
  - unfold get_parent. rewrite list_lookup_insert_ne by (intros ->; lia).
    by rewrite Hcp.
Qed.

Lemma insert_position_witness :
  ranked (λ l, if decide (l = 0) then 1 else 0) 1
    Scenario.chain_of_two_residues_and_one
  ∧ ∃ h' e', Entity.insert 3 Scenario.chain_of_two_residues_and_one 0 (-1) 6
             = Ret tt h'
      ∧ entity_at h' 0 = Some e'
      ∧ child_list e' = [2; 6; 4].
Proof.
  assert (ranked (λ l, if decide (l = 0) then 1 else 0) 1
            Scenario.chain_of_two_residues_and_one) as Hr by reflexivity.
  split; [exact Hr|].
  destruct (insert_position _ 1 3 Scenario.chain_of_two_residues_and_one 0 6 (-1)
              (mkEntity Chain (IdStr "A") None None [2; 4]
                 [(IdRes " " 10 " ", 2); (IdRes " " 11 " ", 4)] 1)
              (IdRes " " 12 " ") Hr)
    as (h' & e' & i & E & He' & Hi & _ & _ & _ & Hl & _);
    [lia|simpl; lia|reflexivity|reflexivity|reflexivity|].
  exists h', e'. split; [exact E|]. split; [exact He'|].
  rewrite Hl, Hi. reflexivity.
Defined.

(** ** [detach_child]: what it returns *)

(** [_reset_full_id] leaves alone whatever it does not reach. *)
Lemma reset_frame (g : nat) :
  ∀ fuel h l,
    match Entity._reset_full_id g fuel h l with
    | Ret _ h' | Exc _ h' => ∀ d, ¬ reset_reach h l d → h' !! d = h !! d
    | Loop | Stuck => True
    end.
Proof.
  induction fuel as [|k IH]; intros h l; [done|].
  cbn [Entity._reset_full_id].
  destruct (h !! l) as [[e|a|w|dd]|] eqn:Hl; try done.
  - assert (entity_at h l = Some e) as He by by apply entity_at_Some.
    assert (∀ cs h0, same_shape h h0 → cs ⊆ child_list e →
              match for_each (λ child h', except_AttributeError
                                (Entity._reset_full_id g k h' child)) cs h0 with
              | Ret _ h' =>
                  same_shape h h' ∧ ∀ d, ¬ reset_reach h l d → h' !! d = h0 !! d
              | Exc _ h' => ∀ d, ¬ reset_reach h l d → h' !! d = h0 !! d
              | Loop | Stuck => True
              end) as Hloop.
    { induction cs as [|c cs IHcs]; intros h0 Hsh Hsub; simpl; [done|].
      assert (c ∈ child_list e) as Hc by (apply Hsub; left).
      assert (∀ d, ¬ reset_reach h l d → ¬ reset_reach h0 c d) as Hno.
      { intros d Hd Hr. apply Hd. eapply reach_child; [done|done|].
        apply (same_shape_reach h0 h); [|done]. unfold same_shape in *. by symmetry. }
      pose proof (IH h0 c) as Hone. pose proof (reset_sound g k h0 c) as Hs.
      destruct (Entity._reset_full_id g k h0 c) as [[] h1|x h1| |]; simpl in *;
        try done.
      - destruct Hs as [[Hsh1 _] _].
        assert (same_shape h h1) as Hsh' by (unfold same_shape in *; congruence).
        assert (cs ⊆ child_list e) as Hsub' by (intros y Hy; apply Hsub; by right).
        specialize (IHcs h1 Hsh' Hsub').
        destruct (for_each _ cs h1) as [[] h2|x h2| |]; try done.
        + destruct IHcs as [? Hf]. split; [done|]. intros d Hd.
          rewrite (Hf d Hd). by apply Hone, Hno.
        + intros d Hd. rewrite (IHcs d Hd). by apply Hone, Hno.
      - destruct Hs as (-> & -> & _). simpl.
        apply IHcs; [done|]. intros y Hy. apply Hsub. by right. }
    specialize (Hloop (child_list e) h (eq_refl _) (reflexivity _)).
    destruct (for_each _ (child_list e) h) as [[] h1|x h1| |]; simpl; try done.
    destruct Hloop as [_ Hf].
    destruct (Entity._generate_full_id g h1 l) as [fid|x| |]; simpl; try done.
    intros d Hd. rewrite lookup_set_entity. case_decide; [|by apply Hf].
    subst d. destruct Hd. by eapply reach_self.
  - destruct (selected_child w) as [s|] eqn:Hs; [|done].
    specialize (IH h s).
    destruct (Entity._reset_full_id g k h s) as [[] h1|x h1| |]; try done.
    + intros d Hd. apply IH. intros Hr. apply Hd. by eapply reach_selected.
    + intros d Hd. apply IH. intros Hr. apply Hd. by eapply reach_selected.
Qed.

Lemma reach_rank (rk : loc → nat) (top : nat) (h : heap) :
  ranked_prop rk top h → ∀ l d, reset_reach h l d → rk d ≤ rk l.
Proof.
  intros Hr l d Hreach. induction Hreach as [l e He|l e c d He Hc _ IH|l w s d Hl Hs _ IH].
  - done.
  - apply entity_at_Some in He. destruct (Hr l _ He) as (_ & _ & Hch).
    destruct (Hch c) as [? _]; [done|lia].
  - destruct (Hr l _ Hl) as (_ & _ & Hch).
    destruct (Hch s) as [? _]; [|lia]. simpl. rewrite Hs. by left.
Qed.

(** [c.set_parent(p)] on an entity of an acyclic heap leaves alone every
    object that is not below [c]. *)
Lemma set_parent_entity_frame (rk : loc → nat) (top fuel : nat) (h h1 : heap)
    (c p : loc) (ec : Entity) :
  ranked_prop rk top h → entity_at h c = Some ec → rk c < rk p →
  Entity.set_parent fuel h c p = Ret tt h1 →
  ∀ d, rk c < rk d → h1 !! d = h !! d.
Proof.
  intros Hr Hc Hlt E d Hd. apply entity_at_Some in Hc as Hlc.
  assert (Entity.set_parent fuel h c p
          = Entity._reset_full_id fuel fuel (set_entity c (with_parent (Some p)) h) c)
    as E' by (destruct fuel; simpl; by rewrite Hlc).
  rewrite E' in E. rewrite (set_entity_insert h c ec _ Hc) in E.
  pose proof (reset_frame fuel fuel (<[c := OEntity (with_parent (Some p) ec)]> h) c) as Hf.
  rewrite E in Hf. rewrite Hf.
  - apply list_lookup_insert_ne. intros ->. lia.
  - intros Hreach.
    assert (reparented rk p h (<[c := OEntity (with_parent (Some p) ec)]> h)) as [Hu _].
    { by apply (reparented_insert rk p c h (OEntity ec)). }
    apply (unparent_reach _ h) in Hreach; [|done].
    pose proof (reach_rank rk top h Hr c d Hreach). lia.
Qed.

(** [==] between two entities is decided within Entity.py. *)
Lemma py_eq_entities (h : heap) (x c : loc) (ex ec : Entity) :
  h !! x = Some (OEntity ex) → h !! c = Some (OEntity ec) →
  Entity.py_eq h (Some x) (Some c) ≠ Undef.
Proof.
  intros Hx Hc. unfold Entity.py_eq, Entity.dunder_eq, Entity.__eq__, full_id_tail.
  rewrite Hx, Hc.
  destruct (Entity.same_type h ex (Some c)) as [o|].
  - destruct (parent ex); simpl; [|intros E; discriminate E].
    destruct (full_id ex), (full_id o); simpl; intros E; discriminate E.
  - cbn [rbind]. destruct (Entity.same_type h ec (Some x)) as [o|]; cbn [rbind];
      [|intros E; discriminate E].
    destruct (parent ec); cbn [rbind]; [|intros E; discriminate E].
    destruct (full_id ec), (full_id o); cbn [rbind]; intros E; discriminate E.
Qed.

Lemma list_remove_split (h : heap) (c : loc) (l2 : list loc) :
  ∀ l1, c ∉ l1 →
    (∀ x, x ∈ l1 → Entity.py_eq h (Some x) (Some c) = Ok false) →
    Entity.list_remove h c (l1 ++ c :: l2) = Ok (l1 ++ l2).
Proof.
  induction l1 as [|y l1 IH]; intros Hc Heq; simpl.
  - by rewrite decide_True.
  - apply not_elem_of_cons in Hc as [Hy Hc].
    rewrite decide_False by done. rewrite (Heq y) by left. simpl.
    rewrite IH; [done|done|]. intros x Hx. apply Heq. by right.
Qed.

Lemma detach_child_returns (fuel : nat) (h : heap) (p c : loc) (i : pyid)
    (e ec : Entity) :
  hierarchy_inv h → entity_at h p = Some e → p ∉ child_list e →
  (∀ x, x ∈ child_list e → is_Some (entity_at h x)) →
  dict_get i (child_dict e) = Some c → entity_at h c = Some ec →
  ∃ l1 l2, child_list e = l1 ++ c :: l2 ∧ (c ∉ l1 ++ l2)
    ∧ Entity.detach_child fuel h p i
      = Ret tt (<[p := OEntity (with_children (l1 ++ l2)
                                  (dict_remove i (child_dict e)) e)]>
                  (<[c := OEntity (with_parent None ec)]> h)).
Proof.
  intros [Hok Hch] He Hp Hent Hi Hc.
  destruct (Hch p e He) as ((Hnd & Hid & Hsy) & Hndl & Hcl).
  apply Hsy in Hi as Hchild. destruct Hchild as [Hin Hcid].
  assert (c ≠ p) as Hcp by (by intros ->).
  destruct (list_elem_of_split_l _ _ Hin) as (l1 & l2 & El & Hl1).
  assert (c ∉ l2) as Hl2.
  { rewrite El in Hndl. apply NoDup_app in Hndl as (_ & _ & Hn).
    by apply NoDup_cons in Hn as [? _]. }
  exists l1, l2. split; [done|]. split; [rewrite elem_of_app; naive_solver|].
  unfold Entity.detach_child. rewrite He, Hi.
  set (h1 := <[c := OEntity (with_parent None ec)]> h).
  assert (Entity.detach_parent fuel h c = Ret tt h1) as Hdp.
  { apply entity_at_Some in Hc as Hlc.
    destruct fuel; simpl; rewrite Hlc; by rewrite (set_entity_insert h c ec). }
  pose proof (detach_parent_sound fuel h c) as Hd. rewrite Hdp in Hd.
  rewrite Hdp. cbn [bind].
  pose proof (detach_upd_benign h h1 Hd) as B. destruct Hd as [Hs _].
  assert (entity_at h1 p = Some e) as He1.
  { unfold h1. rewrite (entity_at_insert h c p ec) by done. by case_decide. }
  rewrite He1. unfold dict_del.
  rewrite (proj2 (dict_mem_true i (child_dict e))) by (rewrite Hi; eauto).
  set (d' := dict_remove i (child_dict e)).
  set (h2 := set_entity p (with_children (child_list e) d') h1).
  assert (h2 = <[p := OEntity (with_children (child_list e) d' e)]> h1) as Eh2
    by (by apply set_entity_insert).
  assert (∀ y, y ≠ p → entity_at h2 y = entity_at h1 y) as Hy2.
  { intros y Hy. rewrite Eh2, (entity_at_insert h1 p y e) by done. by case_decide. }
  assert (entity_at h2 c = Some (with_parent None ec)) as Hc2.
  { rewrite Hy2 by done. unfold h1. rewrite (entity_at_insert h c c ec) by done.
    by case_decide. }
  assert (∀ y, h2 !! y ≫= obj_id = h !! y ≫= obj_id) as HI.
  { intros y. rewrite <- (unparent_ids h h1 y Hs), Eh2.
    destruct (decide (y = p)) as [->|Hne].
    - apply entity_at_Some in He1 as Hl.
      rewrite list_lookup_insert_eq by (by eapply lookup_lt_Some). by rewrite Hl.
    - by rewrite list_lookup_insert_ne. }
  assert (caches_ok h2) as Hok2.
  { rewrite Eh2. eapply caches_ok_insert; [done|done|done|done|]. by apply B. }
  assert (Entity.list_remove h2 c (child_list e) = Ok (l1 ++ l2)) as Hrm.
  { rewrite El. apply list_remove_split; [done|]. intros x Hx.
    assert (x ∈ child_list e) as Hxin by (rewrite El, elem_of_app; by left).
    assert (x ≠ c) as Hxc by (by intros ->).
    assert (x ≠ p) as Hxp by (by intros ->).
    destruct (Hent x Hxin) as [ex Hex].
    assert (entity_at h2 x = Some ex) as Hex2.
    { rewrite Hy2 by done. unfold h1. rewrite (entity_at_insert h c x ec) by done.
      by case_decide. }
    destruct (py_eq_distinct_children h2 x c Hxc Hok2) as [E|E]; [| |done|].
    - intros ec'. rewrite Hc2. intros [= <-]. simpl. by apply (Hcl c ec).
    - intros a b. rewrite !HI. intros Ha Hb ->.
      assert (dict_get b (child_dict e) = Some x) as E1 by (by apply Hsy).
      assert (dict_get b (child_dict e) = Some c) as E2 by (by apply Hsy).
      congruence.
    - exfalso. apply entity_at_Some in Hex2, Hc2.
      by apply (py_eq_entities h2 x c _ _ Hex2 Hc2). }
  rewrite Hrm. simpl. fold d' h2. unfold h2.
  by rewrite (detach_child_final h1 p e (l1 ++ l2) d' He1).
Qed.

Lemma chain_of_two_residues_inv : hierarchy_inv Scenario.chain_of_two_residues.
Proof.
  apply (child_ops_inv 3 [Add 0 2; Add 0 4] Scenario.new_chain_and_two_residues).
  - apply all_new_inv. reflexivity.
  - by_evaluation.
Qed.

(** X11. [p.detach_child(id)] (and [del p[id]], which calls it) on an
    entity whose children are entities, in a heap that [add], [insert] and
    [detach_child] built.  An id that is not in the index raises
    [KeyError] and leaves the heap as it was.  Otherwise the call comes
    back: the child leaves the list, the others keeping their order, and
    the index; it has no parent any more; its cached full id is left as it
    was, as is every other object; and the heap is again one that the
    invariant describes. *)
Theorem detach_child_spec (fuel : nat) (h : heap) (p : loc) (i : pyid) (e : Entity) :
  hierarchy_inv h → entity_at h p = Some e → p ∉ child_list e →
  (∀ x, x ∈ child_list e → is_Some (entity_at h x)) →
  (dict_get i (child_dict e) = None →
   Entity.detach_child fuel h p i = Exc KeyError h
   ∧ Entity.__delitem__ fuel h p i = Exc KeyError h)
  ∧ (∀ c, dict_get i (child_dict e) = Some c →
     ∃ h' e' ec l1 l2,
       Entity.detach_child fuel h p i = Ret tt h'
       ∧ Entity.__delitem__ fuel h p i = Ret tt h'
       ∧ entity_at h c = Some ec
       ∧ child_list e = l1 ++ c :: l2
       ∧ entity_at h' p = Some e'
       ∧ child_list e' = l1 ++ l2
       ∧ (c ∉ child_list e')
       ∧ child_dict e' = dict_remove i (child_dict e)
       ∧ Entity.has_id h' p i = Ok false
       ∧ entity_at h' c = Some (with_parent None ec)
       ∧ (∀ d, d ≠ p → d ≠ c → h' !! d = h !! d)
       ∧ hierarchy_inv h').
Proof.
  intros Hinv He Hp Hent. split.
  - intros Hi. unfold Entity.__delitem__, Entity.detach_child. by rewrite He, Hi.
  - intros c Hi.
    destruct Hinv as [Hok Hch].
    destruct (Hch p e He) as ((Hnd & Hid & Hsy) & Hndl & Hcl).
    apply Hsy in Hi as Hchild. destruct Hchild as [Hin Hcid].
    destruct (Hent c Hin) as [ec Hc].
    assert (c ≠ p) as Hcp by (by intros ->).
    destruct (detach_child_returns fuel h p c i e ec (conj Hok Hch) He Hp Hent Hi Hc)
      as (l1 & l2 & El & Hnin & E).
    set (h1 := <[c := OEntity (with_parent None ec)]> h) in *.
    set (e' := with_children (l1 ++ l2) (dict_remove i (child_dict e)) e) in *.
    assert (entity_at h1 p = Some e) as He1.
    { unfold h1. rewrite (entity_at_insert h c p ec) by done. by case_decide. }
    assert (entity_at (<[p := OEntity e']> h1) p = Some e') as He'.
    { rewrite (entity_at_insert h1 p p e e' He1). by case_decide. }
    exists (<[p := OEntity e']> h1), e', ec, l1, l2. split_and!; try done.
    + unfold Entity.has_id. rewrite He'. simpl. f_equal.
      apply dict_mem_false. by apply dict_get_remove_eq.
    + rewrite (entity_at_insert h1 p c e e' He1). case_decide; [done|].
      unfold h1. rewrite (entity_at_insert h c c ec) by done. by case_decide.
    + intros d Hdp Hdc. unfold h1. by rewrite !list_lookup_insert_ne.
    + pose proof (detach_child_inv fuel h p i (conj Hok Hch)) as Hinv'.
      by rewrite E in Hinv'.
Qed.

Lemma detach_child_spec_witness :
  ∃ h' e', Entity.detach_child 3 Scenario.chain_of_two_residues 0 (IdRes " " 10 " ")
           = Ret tt h'
    ∧ entity_at h' 0 = Some e'
    ∧ child_list e' = [4]
    ∧ full_id <$> entity_at h' 2 = Some (Some [IdStr "A"; IdRes " " 10 " "])
    ∧ Entity.detach_child 3 Scenario.chain_of_two_residues 0 (IdRes " " 12 " ")
      = Exc KeyError Scenario.chain_of_two_residues.
Proof.
  destruct (detach_child_spec 3 Scenario.chain_of_two_residues 0 (IdRes " " 10 " ") _
              chain_of_two_residues_inv eq_refl) as [_ Hdel].
  { vm_compute. intros H. by repeat (apply elem_of_cons in H as [H|H]; [done|]);
      apply elem_of_nil in H. }
  { intros x Hx. vm_compute in Hx.
    apply elem_of_cons in Hx as [->|Hx]; [by eexists|].
    apply elem_of_cons in Hx as [->|Hx]; [by eexists|].
    by apply elem_of_nil in Hx. }
  destruct (Hdel 2 eq_refl) as (h' & e' & ec & l1 & l2 & E & _ & Hc & El & He' & Hl
                                & _ & _ & _ & Hc' & _).
  exists h', e'. split; [exact E|]. split; [exact He'|].
  assert (l1 = [] ∧ l2 = [4]) as [-> ->].
  { vm_compute in El. destruct l1 as [|a l1]; [by injection El as <-|].
    injection El as <- El. destruct l1 as [|b l1]; [by injection El|].
    injection El as <- El. by destruct l1. }
  split; [exact Hl|]. split.
  - rewrite Hc'. vm_compute in Hc. by injection Hc as <-.
  - destruct (detach_child_spec 3 Scenario.chain_of_two_residues 0 (IdRes " " 12 " ") _
                chain_of_two_residues_inv eq_refl) as [[Hk _] _]; [| |reflexivity|exact Hk].
    + vm_compute. intros H. by repeat (apply elem_of_cons in H as [H|H]; [done|]);
        apply elem_of_nil in H.
    + intros x Hx. vm_compute in Hx.
      apply elem_of_cons in Hx as [->|Hx]; [by eexists|].
      apply elem_of_cons in Hx as [->|Hx]; [by eexists|].
      by apply elem_of_nil in Hx.
Defined.

(** ** [add] followed by [detach_child] *)

Lemma dict_remove_set {V} (k : pyid) (v : V) (d : dict V) :
  dict_mem k d = false → dict_remove k (dict_set k v d) = d.
Proof.
  rewrite dict_mem_false. induction d as [|[k' v'] d IH]; simpl.
  - by rewrite decide_True.
  - destruct (decide (k = k')) as [->|Hne]; [done|]. intros Hg. simpl.
    rewrite decide_False by done. by rewrite IH.
Qed.

Lemma app_singleton_split {A} (c : A) (l2 : list A) :
  ∀ l l1, l ++ [c] = l1 ++ c :: l2 → c ∉ l → l1 = l ∧ l2 = [].
Proof.
  induction l as [|a l IH]; intros [|b l1] E Hc; simpl in *.
  - by injection E as <-.
  - injection E as <- E. by destruct l1.
  - injection E as -> E. destruct Hc. by left.
  - injection E as <- E. apply not_elem_of_cons in Hc as [_ Hc].
    destruct (IH l1 E Hc) as [-> ->]. done.
Qed.

Lemma generate_full_id_root (g : nat) (h : heap) (l : loc) (i : pyid) :
  get_id h l = Ok i → get_parent h l = Ok None →
  Entity._generate_full_id g h l = Ok [i].
Proof.
  intros Hi Hp. unfold Entity._generate_full_id. rewrite Hi, Hp. simpl.
  by destruct g.
Qed.

Lemma with_children_same (e : Entity) (l : list loc) (d : dict loc) :
  with_children (child_list e) (child_dict e) (with_children l d e) = e.
Proof. by destruct e. Qed.

Lemma chain_of_two_residues_and_one_inv :
  hierarchy_inv Scenario.chain_of_two_residues_and_one.
Proof.
  apply (child_ops_inv 3 [Add 0 2; Add 0 4]
           (Scenario.new_chain_and_two_residues
            ++ [OEntity (mkEntity Residue (IdRes " " 12 " ") None None [] [] 7);
                ODict []])).
  - apply all_new_inv. reflexivity.
  - by_evaluation.
Qed.

(** X12. [p.add(c)] followed by [p.detach_child(c.id)], for an entity [c]
    with a new id and a parent [p] whose children are entities, in an
    acyclic heap that the invariant describes.  Both calls come back; [p] is
    exactly as it was before the two calls, and so is every object that is
    not below [c]; [c] has no parent at the end, but the path that [add]
    cached for it stays: it has two ids or more (it goes through [p]) and
    [get_full_id] keeps returning it, although the walk from [c] now gives
    the one-element path of a root. *)
Theorem add_then_detach_child (rk : loc → nat) (top fuel : nat) (h : heap)
    (p c : loc) (e ec : Entity) :
  hierarchy_inv h → ranked rk top h → 2 * top < fuel → rk c < rk p →
  entity_at h p = Some e → entity_at h c = Some ec →
  (∀ x, x ∈ child_list e → is_Some (entity_at h x)) →
  dict_mem (_id ec) (child_dict e) = false →
  ∃ h1 h2 f,
    Entity.add fuel h p c = Ret tt h1
    ∧ Entity.detach_child fuel h1 p (_id ec) = Ret tt h2
    ∧ entity_at h2 p = Some e
    ∧ (∀ d, rk c < rk d → h2 !! d = h !! d)
    ∧ entity_at h2 c = Some (with_parent None (with_full_id (Some f) ec))
    ∧ 2 ≤ length f ∧ last f = Some (_id ec)
    ∧ Entity._generate_full_id fuel h2 c = Ok [_id ec]
    ∧ Entity.get_full_id fuel h2 c = Ret f h2.
Proof.
  intros Hinv Hr%ranked_ranked_prop Hf Hlt He Hc Hent Hm.
  apply entity_at_Some in Hc as Hlc. apply entity_at_Some in He as Hlp.
  assert (get_id h c = Ok (_id ec)) as Hid by (unfold get_id; by rewrite Hlc).
  assert (c ≠ p) as Hcp by (intros ->; lia).
  destruct (Hr c _ Hlc) as (Htop & _).
  destruct (set_parent_spec rk top p fuel h c Hr (entity_hier h p e He)
              (entity_hier h c ec Hc) Hlt)
    as (h1s & Es & [Hu Hpar] & Hpc & Hfresh); [lia|].
  pose proof (set_parent_entity_frame rk top fuel h h1s c p ec Hr Hc Hlt Es) as Hframe.
  assert (entity_at h1s p = Some e) as He1s.
  { apply entity_at_Some. by rewrite Hframe. }
  set (e1 := with_children (child_list e ++ [c])
               (dict_set (_id ec) c (child_dict e)) e).
  set (h1 := <[p := OEntity e1]> h1s).
  assert (Entity.add fuel h p c = Ret tt h1) as Ea.
  { rewrite (add_unfold fuel h p c e (_id ec) He Hid), Hm, Es. simpl.
    by rewrite (set_entity_insert h1s p e _ He1s). }
  pose proof (add_inv fuel h p c h1 Hinv Ea) as Hinv1.
  assert (entity_at h1 p = Some e1) as Hp1.
  { unfold h1. rewrite (entity_at_insert h1s p p e e1 He1s). by case_decide. }
  destruct (unparent_entity h h1s c ec Hu Hc)
    as (ec1 & Hc1s & Ecls & Eid & Ecl & Ecd & Ex).
  assert (entity_at h1 c = Some ec1) as Hc1.
  { unfold h1. rewrite (entity_at_insert h1s p c e e1 He1s). by case_decide. }
  assert (p ∉ child_list e) as Hpl.
  { intros Hin. destruct (Hr p _ Hlp) as (_ & _ & Hch).
    destruct (Hch p Hin) as [? _]. lia. }
  destruct Hinv as [Hok Hch].
  destruct (Hch p e He) as ((_ & _ & Hsy) & _ & _).
  assert (c ∉ child_list e) as Hcl.
  { intros Hin. apply dict_mem_false in Hm.
    assert (dict_get (_id ec) (child_dict e) = Some c) as E; [|congruence].
    apply Hsy. split; [done|]. by rewrite Hlc. }
  destruct (detach_child_returns fuel h1 p c (_id ec) e1 ec1 Hinv1 Hp1)
    as (l1 & l2 & El & _ & Ed); [| | |done|].
  { simpl. rewrite elem_of_app, list_elem_of_singleton. naive_solver. }
  { intros x. simpl. rewrite elem_of_app, list_elem_of_singleton.
    intros [Hx| ->]; [|by eexists].
    destruct (Hent x Hx) as [ex Hex].
    destruct (unparent_entity h h1s x ex Hu Hex) as (ex1 & Hex1 & _).
    exists ex1. unfold h1. rewrite (entity_at_insert h1s p x e e1 He1s).
    case_decide; [by subst|done]. }
  { simpl. apply dict_get_set_eq. }
  simpl in El. destruct (app_singleton_split c l2 _ l1 El Hcl) as [-> ->].
  simpl in Ed. rewrite app_nil_r, (dict_remove_set _ _ _ Hm) in Ed.
  assert (with_children (child_list e) (child_dict e) e1 = e) as Ee
    by apply with_children_same.
  rewrite Ee in Ed.
  destruct (Hfresh c (ex_intro _ ec Hc) (reach_self h c ec Hc))
    as (ec1' & f & Hc1' & Hfc & Hg).
  rewrite Hc1s in Hc1'. injection Hc1' as <-.
  destruct (generate_full_id_last fuel h1s c f Hg) as (i & Hi & Hlast & Hlen).
  assert (i = _id ec) as ->.
  { apply entity_at_Some in Hc1s. unfold get_id in Hi. rewrite Hc1s in Hi.
    simpl in Hi. injection Hi as <-. done. }
  assert (with_parent None ec1 = with_parent None (with_full_id (Some f) ec)) as Eec.
  { destruct ec1, ec; simpl in *; by subst. }
  set (h2 := <[p := OEntity e]> (<[c := OEntity (with_parent None ec1)]> h1)) in *.
  assert (h2 !! c = Some (OEntity (with_parent None ec1))) as Hl2c.
  { unfold h2. rewrite list_lookup_insert_ne by done.
    apply list_lookup_insert_eq. apply entity_at_Some in Hc1. by eapply lookup_lt_Some. }
  assert (h2 !! p = Some (OEntity e)) as Hl2p.
  { unfold h2. apply list_lookup_insert_eq. rewrite length_insert.
    apply entity_at_Some in Hp1. by eapply lookup_lt_Some. }
  exists h1, h2, f. split_and!; try done.
  - by apply entity_at_Some.
  - intros d Hd. destruct (decide (d = p)) as [->|Hdp]; [by rewrite Hl2p|].
    unfold h2, h1. rewrite !list_lookup_insert_ne by (try done; intros ->; lia).
    by apply Hframe.
  - apply entity_at_Some. by rewrite Hl2c, Eec.
  - apply Hlen. unfold get_parent. rewrite Hpc. simpl. intros E; discriminate E.
  - apply generate_full_id_root.
    + unfold get_id. rewrite Hl2c. simpl. by rewrite Eid.
    + unfold get_parent. by rewrite Hl2c.
  - unfold Entity.get_full_id.
    rewrite (proj2 (entity_at_Some h2 c _) Hl2c). simpl. by rewrite Hfc.
Qed.

Lemma add_then_detach_child_witness :
  ranked (λ l, if decide (l = 0) then 1 else 0) 1
    Scenario.chain_of_two_residues_and_one
  ∧ ∃ h1 h2 f,
      Entity.add 3 Scenario.chain_of_two_residues_and_one 0 6 = Ret tt h1
      ∧ Entity.detach_child 3 h1 0 (IdRes " " 12 " ") = Ret tt h2
      ∧ h2 !! 0 = Scenario.chain_of_two_residues_and_one !! 0
      ∧ Entity.get_full_id 3 h2 6 = Ret f h2
      ∧ 2 ≤ length f.
Proof.
  assert (ranked (λ l, if decide (l = 0) then 1 else 0) 1
            Scenario.chain_of_two_residues_and_one) as Hr by reflexivity.
  split; [exact Hr|].
  destruct (add_then_detach_child _ 1 3 Scenario.chain_of_two_residues_and_one 0 6
              (mkEntity Chain (IdStr "A") None None [2; 4]
                 [(IdRes " " 10 " ", 2); (IdRes " " 11 " ", 4)] 1)
              (mkEntity Residue (IdRes " " 12 " ") None None [] [] 7)
              chain_of_two_residues_and_one_inv Hr)
    as (h1 & h2 & f & Ea & Ed & _ & Hfr & _ & Hlen & _ & _ & Hg);
    [lia|simpl; lia|reflexivity|reflexivity| |reflexivity|].
  { intros x Hx. simpl in Hx.
    apply elem_of_cons in Hx as [->|Hx]; [by eexists|].
    apply elem_of_cons in Hx as [->|Hx]; [by eexists|].
    by apply elem_of_nil in Hx. }
  exists h1, h2, f. split; [exact Ea|]. split; [exact Ed|]. split; [|by split].
  apply Hfr. simpl. lia.
Defined.

(** ** The alternatives of a wrapper *)

Lemma dict_values_set_new {V} (k : pyid) (v : V) (d : dict V) :
  dict_mem k d = false → dict_values (dict_set k v d) = dict_values d ++ [v].
Proof.
  rewrite dict_mem_false. unfold dict_values.
  induction d as [|[k' v'] d IH]; csimpl; [done|].
  destruct (decide (k = k')) as [->|Hne]; [done|]. intros Hg. csimpl.
  by rewrite IH.
Qed.

(** X13. [w[id] = child] enters the alternative in the dictionary of the
    wrapper and touches nothing else: the id is then known to
    [disordered_has_id], [disordered_get(id)] returns the child, the other
    ids answer as before, a new id comes last in [disordered_get_list]; the
    selection is not changed, not even when the id assigned is the one
    selected, so [disordered_get()] may return an object that is no longer
    an alternative.  [disordered_select(id)] then succeeds and makes the
    child the selected one, leaving the alternatives as they are. *)
Theorem setitem_then_select (h : heap) (g : loc) (w : Disordered) (i : pyid)
    (c : loc) :
  DisorderedEntityWrapper.wrapper_at h g = Some w →
  ∃ h1 h2,
    DisorderedEntityWrapper.__setitem__ h g i c = Ret tt h1
    ∧ (∀ d, d ≠ g → h1 !! d = h !! d)
    ∧ DisorderedEntityWrapper.disordered_has_id h1 g i = Ok true
    ∧ DisorderedEntityWrapper.disordered_get h1 g (Some i) = Ok (Some c)
    ∧ DisorderedEntityWrapper.disordered_get h1 g None = Ok (selected_child w)
    ∧ (∀ k, k ≠ i →
         DisorderedEntityWrapper.disordered_get h1 g (Some k)
         = DisorderedEntityWrapper.disordered_get h g (Some k)
         ∧ DisorderedEntityWrapper.disordered_has_id h1 g k
           = DisorderedEntityWrapper.disordered_has_id h g k)
    ∧ (dict_mem i (d_child_dict w) = false →
       DisorderedEntityWrapper.disordered_get_list h1 g
       = Ok (dict_values (d_child_dict w) ++ [c]))
    ∧ DisorderedEntityWrapper.disordered_select h1 g i = Ret tt h2
    ∧ DisorderedEntityWrapper.disordered_get h2 g None = Ok (Some c)
    ∧ DisorderedEntityWrapper.disordered_get_list h2 g
      = DisorderedEntityWrapper.disordered_get_list h1 g
    ∧ (∀ d, d ≠ g → h2 !! d = h !! d).
Proof.
  intros Hw.
  set (w1 := d_with_child_dict (dict_set i c (d_child_dict w)) w).
  set (h1 := <[g := ODisordered w1]> h).
  assert (DisorderedEntityWrapper.wrapper_at h1 g = Some w1) as Hw1
    by (by apply (wrapper_at_insert h g w)).
  set (w2 := d_with_selected (Some c) w1).
  set (h2 := <[g := ODisordered w2]> h1).
  assert (DisorderedEntityWrapper.wrapper_at h2 g = Some w2) as Hw2
    by (by apply (wrapper_at_insert h1 g w1)).
  exists h1, h2.
  unfold DisorderedEntityWrapper.__setitem__,
    DisorderedEntityWrapper.disordered_select,
    DisorderedEntityWrapper.disordered_has_id,
    DisorderedEntityWrapper.disordered_get,
    DisorderedEntityWrapper.disordered_get_list.
  rewrite Hw, Hw1, Hw2. simpl. rewrite dict_get_set_eq.
  split_and!; try done.
  - intros d Hd. unfold h1. by rewrite list_lookup_insert_ne.
  - f_equal. apply dict_mem_true. rewrite dict_get_set_eq. eauto.
  - intros k Hk. unfold dict_mem. by rewrite (dict_get_set_ne i k c _ Hk).
  - intros Hm. by rewrite dict_values_set_new.
  - intros d Hd. unfold h2, h1. by rewrite !list_lookup_insert_ne.
Qed.

Lemma setitem_then_select_witness :
  ∃ h1 h2,
    DisorderedEntityWrapper.__setitem__ Scenario.disordered_residue 0 (IdStr "GLY") 3
    = Ret tt h1
    ∧ DisorderedEntityWrapper.disordered_get h1 0 (Some (IdStr "GLY")) = Ok (Some 3)
    ∧ DisorderedEntityWrapper.disordered_select h1 0 (IdStr "GLY") = Ret tt h2
    ∧ DisorderedEntityWrapper.disordered_get h2 0 None = Ok (Some 3).
Proof.
  destruct (setitem_then_select Scenario.disordered_residue 0 _ (IdStr "GLY") 3 eq_refl)
    as (h1 & h2 & E1 & _ & _ & Hg & _ & _ & _ & E2 & Hs & _).
  exists h1, h2. by split_and!.
Defined.

(** *** [set_parent] and [detach_parent] of a wrapper *)

Lemma reparented_keeps_parent (rk : loc → nat) (p c : loc) (h1 h2 : heap) :
  reparented rk p h1 h2 → h1 !! c ≫= obj_parent = Some (Some p) →
  h2 !! c ≫= obj_parent = Some (Some p).
Proof.
  intros [Hu U] Hc. destruct (h1 !! c) as [o|] eqn:Ho; [|done]. simpl in Hc.
  destruct (unparent_obj h1 h2 c o Hu Ho) as (o' & Ho' & _).
  rewrite Ho'. simpl. destruct (U c o' Ho') as [E|[E _]]; [|done].
  rewrite Ho in E. simpl in E. injection E as E. congruence.
Qed.

(** X14. [w.set_parent(p)] on a wrapper, in an acyclic heap: the call
    comes back, the wrapper has [p] as parent and so has every one of its
    alternatives, whether selected or not; nothing changes in the heap but
    parent references and cached full ids. *)
Theorem wrapper_set_parent (rk : loc → nat) (top fuel : nat) (h : heap)
    (g p : loc) (w : Disordered) :
  ranked rk top h → 2 * top < fuel →
  DisorderedEntityWrapper.wrapper_at h g = Some w →
  hier h p = true → rk g < rk p →
  ∃ h', Entity.set_parent fuel h g p = Ret tt h'
    ∧ get_parent h' g = Ok (Some p)
    ∧ (∀ c, c ∈ dict_values (d_child_dict w) → get_parent h' c = Ok (Some p))
    ∧ unparent <$> h = unparent <$> h'.
Proof.
  intros Hr%ranked_ranked_prop Hf Hw%wrapper_at_Some Hp Hlt.
  destruct fuel as [|k]; [lia|]. cbn [Entity.set_parent]. rewrite Hw.
  set (h0 := <[g := ODisordered (d_with_parent (Some p) w)]> h).
  assert (reparented rk p h h0) as R0 by (by eapply reparented_insert).
  assert (ranked_prop rk top h0) as Hr0
    by (apply (reparented_ranked rk top p h h0 Hr Hp R0)).
  destruct (Hr g _ Hw) as (Ht & _ & Hch).
  assert (h0 !! g ≫= obj_parent = Some (Some p)) as Hg0.
  { unfold h0. by rewrite list_lookup_insert_eq by (by eapply lookup_lt_Some). }
  assert (∀ cs h1, ranked_prop rk top h1 → hier h1 p = true →
            (∀ c, c ∈ cs → rk c < rk g ∧ hier h1 c = true) →
            ∃ h', for_each (λ child h', Entity.set_parent k h' child p) cs h1
                  = Ret tt h' ∧ reparented rk p h1 h'
                  ∧ ∀ c, c ∈ cs → h' !! c ≫= obj_parent = Some (Some p)) as Hloop.
  { induction cs as [|c cs IHcs]; intros h1 Hr1 Hp1 Hcs; simpl.
    { eexists. split; [done|]. split; [apply reparented_refl|].
      by intros c ?%elem_of_nil. }
    destruct (Hcs c) as [Hc1 Hc2]; [left|].
    destruct (set_parent_spec rk top p k h1 c) as (h2 & -> & R2 & Hc & _);
      [done|done|done|lia|lia|].
    simpl. destruct (IHcs h2) as (h3 & -> & R3 & Hall).
    - apply (reparented_ranked rk top p h1 h2 Hr1 Hp1 R2).
    - by rewrite (unparent_hier h1 h2 p (proj1 R2)).
    - intros c' Hc'. rewrite (unparent_hier h1 h2 c' (proj1 R2)).
      apply Hcs. by right.
    - eexists. split; [done|]. split; [by eapply reparented_trans|].
      intros c' [->|Hc']%elem_of_cons; [|by apply Hall].
      by apply (reparented_keeps_parent rk p c h2 h3). }
  destruct (Hloop (dict_values (d_child_dict w)) h0 Hr0) as (h' & -> & R' & Hall).
  { by rewrite (unparent_hier h h0 p (proj1 R0)). }
  { intros c Hc. rewrite (unparent_hier h h0 c (proj1 R0)).
    apply Hch. simpl. apply elem_of_app. by right. }
  exists h'. split; [done|]. split_and!.
  - unfold get_parent. by rewrite (reparented_keeps_parent rk p g h0 h' R' Hg0).
  - intros c Hc. unfold get_parent. by rewrite (Hall c Hc).
  - destruct R0 as [U0 _], R' as [U' _]. congruence.
Qed.

Lemma wrapper_set_parent_witness :
  ranked (λ l, match l with 0 => 2 | 1 | 3 => 1 | 7 => 3 | _ => 0 end) 3
    (Scenario.disordered_residue
     ++ [OEntity (mkEntity Chain (IdStr "A") None None [] [] 8); ODict []])
  ∧ ∃ h', Entity.set_parent 7
            (Scenario.disordered_residue
             ++ [OEntity (mkEntity Chain (IdStr "A") None None [] [] 8); ODict []])
            0 7 = Ret tt h'
      ∧ get_parent h' 1 = Ok (Some 7)
      ∧ get_parent h' 3 = Ok (Some 7).
Proof.
  set (h := Scenario.disordered_residue
            ++ [OEntity (mkEntity Chain (IdStr "A") None None [] [] 8); ODict []]).
  assert (ranked (λ l, match l with 0 => 2 | 1 | 3 => 1 | 7 => 3 | _ => 0 end) 3 h)
    as Hr by reflexivity.
  split; [exact Hr|].
  destruct (wrapper_set_parent _ 3 7 h 0 7
              (mkDisordered (IdRes " " 10 " ")
                 [(IdStr "GLY", 1); (IdStr "ALA", 3)] None None) Hr)
    as (h' & E & _ & Hall & _); [lia|reflexivity|reflexivity|simpl; lia|].
  exists h'. split; [exact E|]. split; apply Hall; simpl.
  - left.
  - right. left.
Defined.

Lemma no_parent_idemp (o : pyobj) : no_parent (no_parent o) = no_parent o.
Proof. by destruct o. Qed.

Lemma detached_refl (h : heap) : detached h h.
Proof. apply Forall2_same_length_lookup. split; [done|]. intros; simplify_eq. by left. Qed.

Lemma detached_trans (h1 h2 h3 : heap) :
  detached h1 h2 → detached h2 h3 → detached h1 h3.
Proof.
  intros H12 H23. apply Forall2_same_length_lookup. split.
  - by rewrite (Forall2_length _ _ _ H12), (Forall2_length _ _ _ H23).
  - intros i o1 o3 Ho1 Ho3.
    destruct (Forall2_lookup_l _ _ _ _ _ H12 Ho1) as (o2 & Ho2 & E12).
    destruct (Forall2_lookup_lr _ _ _ _ _ _ H23 Ho2 Ho3) as [->| ->];
      destruct E12 as [->| ->]; rewrite ?no_parent_idemp; auto.
Qed.

Lemma detached_insert (h : heap) (l : loc) (o : pyobj) :
  h !! l = Some o → detached h (<[l := no_parent o]> h).
Proof.
  intros Ho. apply Forall2_same_length_lookup. split; [by rewrite length_insert|].
  intros i o1 o2 Ho1 Ho2. destruct (decide (i = l)) as [->|Hne].
  - rewrite list_lookup_insert_eq in Ho2 by (by eapply lookup_lt_Some).
    simplify_eq. by right.
  - rewrite list_lookup_insert_ne in Ho2 by done. simplify_eq. by left.
Qed.

Lemma detached_obj (h h' : heap) (l : loc) (o : pyobj) :
  detached h h' → h !! l = Some o →
  ∃ o', h' !! l = Some o' ∧ (o' = o ∨ o' = no_parent o).
Proof. intros Hd Ho. by apply (Forall2_lookup_l _ _ _ _ _ Hd Ho). Qed.

Lemma no_parent_children (o : pyobj) : obj_children (no_parent o) = obj_children o.
Proof. by destruct o. Qed.

Lemma detached_hier (h h' : heap) (l : loc) :
  detached h h' → hier h' l = hier h l.
Proof.
  intros Hd. unfold hier. destruct (h !! l) as [o|] eqn:Ho.
  - destruct (detached_obj h h' l o Hd Ho) as (o' & -> & [->| ->]); [done|].
    by destruct o.
  - destruct (h' !! l) as [o'|] eqn:Ho'; [|done].
    apply lookup_lt_Some in Ho'. apply lookup_ge_None in Ho.
    rewrite <- (Forall2_length _ _ _ Hd) in Ho'. lia.
Qed.

Lemma detached_ranked (rk : loc → nat) (top : nat) (h h' : heap) :
  detached h h' → ranked_prop rk top h → ranked_prop rk top h'.
Proof.
  intros Hd Hr l o' Ho'.
  destruct (Forall2_lookup_r _ _ _ _ _ Hd Ho') as (o & Ho & E).
  destruct (Hr l o Ho) as (Ht & Hp & Hc). split_and!; [done| |].
  - intros q Hq. rewrite (detached_hier h h' q Hd). apply Hp.
    destruct E as [->| ->]; [done|]. by destruct o.
  - intros c Hin. rewrite (detached_hier h h' c Hd). apply Hc.
    destruct E as [->| ->]; [done|]. by rewrite no_parent_children in Hin.
Qed.

Lemma detached_keeps_root (h h' : heap) (l : loc) :
  detached h h' → h !! l ≫= obj_parent = Some None →
  h' !! l ≫= obj_parent = Some None.
Proof.
  intros Hd Hl. destruct (h !! l) as [o|] eqn:Ho; [|done].
  destruct (detached_obj h h' l o Hd Ho) as (o' & -> & [->| ->]); [done|].
  by destruct o.
Qed.

Lemma detach_parent_total (rk : loc → nat) (top : nat) :
  ∀ fuel h l,
    ranked_prop rk top h → hier h l = true → rk l < fuel →
    ∃ h', Entity.detach_parent fuel h l = Ret tt h'
      ∧ detached h h'
      ∧ h' !! l ≫= obj_parent = Some None
      ∧ ∀ w c, h !! l = Some (ODisordered w) → c ∈ dict_values (d_child_dict w) →
          h' !! c ≫= obj_parent = Some None.
Proof.
  induction fuel as [|k IH]; intros h l Hr Hl Hf; [lia|].
  destruct (hier_Some h l Hl) as (o & Ho & Hnd).
  assert (l < length h) as Hlen by (by eapply lookup_lt_Some).
  destruct o as [e|a|w|dd]; [| | |by destruct (Hnd dd)].
  - cbn [Entity.detach_parent]. rewrite Ho.
    rewrite (set_entity_insert h l e) by (by apply entity_at_Some).
    eexists. split; [done|]. split_and!.
    + by apply (detached_insert h l (OEntity e)).
    + by rewrite list_lookup_insert_eq.
    + intros w c Hw. congruence.
  - cbn [Entity.detach_parent]. rewrite Ho. eexists. split; [done|]. split_and!.
    + by apply (detached_insert h l (OAtom a)).
    + by rewrite list_lookup_insert_eq.
    + intros w c Hw. congruence.
  - cbn [Entity.detach_parent]. rewrite Ho.
    set (h0 := <[l := ODisordered (d_with_parent None w)]> h).
    assert (detached h h0) as D0 by (by apply (detached_insert h l (ODisordered w))).
    destruct (Hr l _ Ho) as (Ht & _ & Hch).
    assert (∀ cs h1, ranked_prop rk top h1 →
              (∀ c, c ∈ cs → rk c < rk l ∧ hier h1 c = true) →
              ∃ h', for_each (λ child h', Entity.detach_parent k h' child) cs h1
                    = Ret tt h' ∧ detached h1 h'
                    ∧ ∀ c, c ∈ cs → h' !! c ≫= obj_parent = Some None) as Hloop.
    { induction cs as [|c cs IHcs]; intros h1 Hr1 Hcs; simpl.
      { eexists. split; [done|]. split; [apply detached_refl|].
        by intros c ?%elem_of_nil. }
      destruct (Hcs c) as [Hc1 Hc2]; [left|].
      destruct (IH h1 c) as (h2 & -> & D2 & Hc & _); [done|done|lia|].
      simpl. destruct (IHcs h2) as (h3 & -> & D3 & Hall).
      - by apply (detached_ranked rk top h1 h2).
      - intros c' Hc'. rewrite (detached_hier h1 h2 c' D2). apply Hcs. by right.
      - eexists. split; [done|]. split; [by eapply detached_trans|].
        intros c' [->|Hc']%elem_of_cons; [|by apply Hall].
        by apply (detached_keeps_root h2 h3). }
    destruct (Hloop (dict_values (d_child_dict w)) h0) as (h' & -> & D' & Hall).
    { by apply (detached_ranked rk top h h0). }
    { intros c Hc. rewrite (detached_hier h h0 c D0).
      apply Hch. simpl. apply elem_of_app. by right. }
    exists h'. split; [done|]. split_and!.
    + by eapply detached_trans.
    + apply (detached_keeps_root h0 h' l D').
      unfold h0. by rewrite list_lookup_insert_eq.
    + intros w' c [= <-] Hc. by apply Hall.
Qed.

(** X15. [detach_parent], on an entity and on a wrapper, in an acyclic
    heap: the call comes back and the object has no parent; for a wrapper
    so has every one of its alternatives; every object of the heap is as it
    was or has lost its parent, nothing else: cached full ids stay. *)
Theorem detach_parent_spec (rk : loc → nat) (top fuel : nat) (h : heap) (l : loc) :
  ranked rk top h → top < fuel → hier h l = true →
  ∃ h', Entity.detach_parent fuel h l = Ret tt h'
    ∧ detached h h'
    ∧ get_parent h' l = Ok None
    ∧ (∀ e, entity_at h l = Some e → h' = <[l := OEntity (with_parent None e)]> h)
    ∧ (∀ w c, DisorderedEntityWrapper.wrapper_at h l = Some w →
         c ∈ dict_values (d_child_dict w) → get_parent h' c = Ok None).
Proof.
  intros Hr%ranked_ranked_prop Hf Hl.
  destruct (hier_Some h l Hl) as (o & Ho & _).
  destruct (Hr l o Ho) as (Ht & _).
  destruct (detach_parent_total rk top fuel h l Hr Hl) as (h' & E & D & Hp & Hall);
    [lia|].
  exists h'. split; [done|]. split_and!; [done| | |].
  - unfold get_parent. by rewrite Hp.
  - intros e He. apply entity_at_Some in He as Hle.
    assert (Entity.detach_parent fuel h l
            = Ret tt (set_entity l (with_parent None) h)) as E'
      by (destruct fuel; simpl; by rewrite Hle).
    rewrite E' in E. injection E as <-. by apply set_entity_insert.
  - intros w c Hw%wrapper_at_Some Hc. unfold get_parent. by rewrite (Hall w c Hw Hc).
Qed.

Lemma detach_parent_spec_witness :
  ranked Scenario.disordered_residue_rank 2 Scenario.disordered_residue
  ∧ ∃ h', Entity.detach_parent 3 Scenario.disordered_residue 0 = Ret tt h'
      ∧ get_parent h' 0 = Ok None
      ∧ get_parent h' 3 = Ok None.
Proof.
  assert (ranked Scenario.disordered_residue_rank 2 Scenario.disordered_residue)
    as Hr by reflexivity.
  split; [exact Hr|].
  destruct (detach_parent_spec _ 2 3 Scenario.disordered_residue 0 Hr)
    as (h' & E & _ & Hp & _ & Hall); [lia|reflexivity|].
  exists h'. split; [exact E|]. split; [exact Hp|].
  apply (Hall _ 3 eq_refl). simpl. right. left.
Defined.

(** ** [strictly_equals] *)

Lemma all_pairs_diag (f : loc → loc → res bool) (cs : list loc) :
  (∀ c, c ∈ cs → f c c = Ok true) → Entity.all_pairs f (zip cs cs) = Ok true.
Proof.
  induction cs as [|c cs IH]; intros Hf; simpl; [done|].
  rewrite (Hf c) by left. apply IH. intros c' Hc'. apply Hf. by right.
Qed.

Lemma all_pairs_ext (f f' : loc → loc → res bool) (ps : list (loc * loc)) :
  (∀ a b, f a b = f' a b) → Entity.all_pairs f ps = Entity.all_pairs f' ps.
Proof.
  intros Hf. induction ps as [|[a b] ps IH]; simpl; [done|].
  rewrite Hf. destruct (f' a b) as [[]| | |]; simpl; try done.
Qed.

(** X16. [strictly_equals] is reflexive on trees of entities and atoms:
    an entity compared with itself is strictly equal to itself, with and
    without the comparison of coordinates, provided the recursion has the
    depth of the tree at its disposal and the leaf-level comparison accepts
    every coordinate of the tree as equal to itself. *)
Theorem strictly_equals_reflexive (close : coord → coord → bool) (d : nat) :
  ∀ fuel h l cc,
    plain_tree close d h l = true → d ≤ fuel →
    Entity.strictly_equals close fuel h l l cc = Ok true.
Proof.
  induction d as [|d IH]; intros fuel h l cc Ht Hf; [done|].
  destruct fuel as [|k]; [lia|]. simpl in Ht. cbn [Entity.strictly_equals].
  destruct (h !! l) as [[e|a|w|dd]|] eqn:Hl; try done.
  - unfold Entity.same_type. rewrite Hl. rewrite decide_True by done.
    rewrite decide_False by (by intros ?). rewrite decide_False by (by intros ?).
    apply all_pairs_diag. intros c Hc. apply IH; [|lia].
    rewrite forallb_forall in Ht. by apply Ht, list_elem_of_In.
  - rewrite bool_decide_eq_true_2 by done. rewrite Ht. by destruct cc.
Qed.

Lemma strictly_equals_reflexive_witness :
  plain_tree (λ a b, bool_decide (a = b)) 2 Scenario.disordered_residue 1 = true
  ∧ 2 ≤ 2
  ∧ Entity.strictly_equals (λ a b, bool_decide (a = b)) 2
      Scenario.disordered_residue 1 1 true = Ok true.
Proof.
  split; [reflexivity|]. split; [lia|].
  apply (strictly_equals_reflexive _ 2); [reflexivity|lia].
Defined.

Lemma bare_inv (o o' : pyobj) :
  bare o = bare o' →
  match o, o' with
  | OEntity e, OEntity e' =>
      cls e = cls e' ∧ _id e = _id e' ∧ child_list e = child_list e'
  | OAtom a, OAtom a' => a_id a = a_id a' ∧ a_coord a = a_coord a'
  | ODisordered w, ODisordered w' =>
      d_id w = d_id w' ∧ d_child_dict w = d_child_dict w'
      ∧ selected_child w = selected_child w'
  | ODict _, ODict _ => True
  | _, _ => False
  end.
Proof.
  destruct o as [e|a|w|d], o' as [e'|a'|w'|d']; simpl; try discriminate; try done.
  - by intros [= ? ? ?].
  - by intros [= ? ?].
  - destruct w, w'; simpl. by intros [= -> -> ->].
Qed.

Lemma bare_lookup (h h' : heap) (l : loc) :
  bare <$> h = bare <$> h' →
  match h !! l, h' !! l with
  | Some o, Some o' => bare o = bare o'
  | None, None => True
  | _, _ => False
  end.
Proof.
  intros Hb. assert (bare <$> h !! l = bare <$> h' !! l) as E
    by (by rewrite <- !list_lookup_fmap, Hb).
  destruct (h !! l), (h' !! l); simpl in E; try done. by injection E.
Qed.

Lemma bare_get_id (h h' : heap) (l : loc) :
  bare <$> h = bare <$> h' → get_id h l = get_id h' l.
Proof.
  intros Hb%(bare_lookup h h' l). unfold get_id.
  destruct (h !! l) as [o|], (h' !! l) as [o'|]; simpl in *; try done.
  apply bare_inv in Hb. destruct o, o'; simpl in *; try done.
  - by destruct Hb as (_ & -> & _).
  - by destruct Hb as (-> & _).
  - by destruct Hb as (-> & _).
Qed.

(** X17. [strictly_equals] reads the class, the id and the list of
    children of an entity, the id and the coordinate of an atom, the id,
    the alternatives and the selection of a wrapper, and nothing else: two
    heaps that agree on these give the same answer, whatever their parent
    references, cached full ids, indexes of children, [xtra] dictionaries
    and masses. *)
Theorem strictly_equals_reads (close : coord → coord → bool) (h h' : heap) :
  bare <$> h = bare <$> h' →
  ∀ fuel l other cc,
    Entity.strictly_equals close fuel h l other cc
    = Entity.strictly_equals close fuel h' l other cc.
Proof.
  intros Hb. induction fuel as [|k IH]; intros l other cc; [done|].
  cbn [Entity.strictly_equals]. unfold Entity.same_type.
  pose proof (bare_lookup h h' l Hb) as Hl.
  pose proof (bare_lookup h h' other Hb) as Ho.
  destruct (h !! l) as [o|], (h' !! l) as [o'|]; try done.
  apply bare_inv in Hl.
  destruct (h !! other) as [oo|], (h' !! other) as [oo'|]; try done.
  - apply bare_inv in Ho.
    destruct o as [e|a|w|dd], o' as [e'|a'|w'|dd']; try done;
      destruct oo as [eo|ao|wo|ddo], oo' as [eo'|ao'|wo'|ddo']; try done.
    + destruct Hl as (Ec & Ei & El), Ho as (Eco & Eio & Elo).
      rewrite Ec, Eco.
      destruct (decide (cls eo' = cls e')); [|done].
      rewrite Ei, Eio, El, Elo.
      destruct (decide (_id e' ≠ _id eo')); [done|].
      destruct (decide (length (child_list e') ≠ length (child_list eo'))); [done|].
      by apply all_pairs_ext.
    + destruct Hl as (Ei & Ecd), Ho as (Eio & Ecdo).
      by rewrite Ei, Ecd, Eio, Ecdo.
    + destruct Hl as (Ei & Ed & Es), Ho as (Eio & Edo & Eso).
      rewrite Ei, Ed, Es, Eio, Edo, Eso.
      destruct (decide (d_id w' ≠ d_id wo')); [done|].
      destruct (selected_child w') as [s|], (selected_child wo') as [t|]; try done.
      rewrite (bare_get_id h h' s Hb), (bare_get_id h h' t Hb).
      destruct (get_id h' s) as [i| | |]; simpl; try done.
      destruct (get_id h' t) as [j| | |]; simpl; try done.
      destruct (decide (i ≠ j)); [done|].
      destruct (bool_decide _); [|done]. by apply all_pairs_ext.
  - by destruct o as [e|a|w|dd], o' as [e'|a'|w'|dd'].
Qed.

Lemma strictly_equals_reads_witness :
  bare <$> Scenario.chain_of_two_residues
  = bare <$> (erase <$> Scenario.chain_of_two_residues)
  ∧ Entity.strictly_equals (λ a b, bool_decide (a = b)) 2
      Scenario.chain_of_two_residues 0 0 true
    = Entity.strictly_equals (λ a b, bool_decide (a = b)) 2
        (erase <$> Scenario.chain_of_two_residues) 0 0 true.
Proof.
  split; [reflexivity|]. apply strictly_equals_reads. reflexivity.
Defined.

(** ** [copy] of a wrapper *)

(** X18. [DisorderedEntityWrapper.copy] hands each copied alternative to
    [disordered_add], which the class leaves to its subclasses.  So the
    copy of a wrapper with an alternative never comes back with a result;
    when the first alternative is an atom the call raises
    [NotImplementedError], after the heap has grown by the shallow copy of
    the wrapper and the copy of the atom.  The copy of a wrapper without
    alternatives is a new wrapper with the same id and selection, no
    alternative and no parent; the wrapper copied is left as it is. *)
Theorem wrapper_copy (fuel : nat) (h : heap) (g : loc) (w : Disordered) :
  h !! g = Some (ODisordered w) →
  (d_child_dict w ≠ [] → ∀ c h', Entity.copy fuel h g ≠ Ret c h')
  ∧ (∀ k c rest a, d_child_dict w = (k, c) :: rest → h !! c = Some (OAtom a) →
       Entity.copy (S (S fuel)) h g
       = Exc NotImplementedError
           (h ++ [ODisordered (mkDisordered (d_id w) [] (selected_child w) None);
                  OAtom (a_with_parent None a)]))
  ∧ (d_child_dict w = [] →
       Entity.copy (S (S fuel)) h g
       = Ret (length h)
           (h ++ [ODisordered (mkDisordered (d_id w) [] (selected_child w) None)])).
Proof.
  intros Hg.
  assert (∀ k, Entity.detach_parent (S k) (h ++ [ODisordered (d_with_child_dict [] w)])
                 (length h)
               = Ret tt (h ++ [ODisordered (mkDisordered (d_id w) []
                                              (selected_child w) None)])) as Hdet.
  { intros k. cbn [Entity.detach_parent].
    rewrite lookup_app_r, Nat.sub_diag by lia. simpl.
    rewrite insert_app_r_alt, Nat.sub_diag by lia. done. }
  split_and!.
  - intros Hne c h'. destruct fuel as [|k]; [done|].
    cbn [Entity.copy]. rewrite Hg.
    destruct (Entity.detach_parent k _ (length h)) as [[] h2|x h2| |];
      simpl; try (intros E; discriminate E).
    destruct (d_child_dict w) as [|[i c0] rest]; [done|]. csimpl.
    destruct (Entity.copy k h2 c0) as [c1 h''|x h''| |]; simpl;
      intros E; discriminate E.
  - intros k c rest a Hd Hc. cbn [Entity.copy]. rewrite Hg, Hdet. cbn [bind].
    rewrite Hd. csimpl.
    rewrite (lookup_app_l_Some _ _ _ _ Hc). simpl.
    by rewrite <- app_assoc.
  - intros Hd. cbn [Entity.copy]. rewrite Hg, Hdet. cbn [bind].
    by rewrite Hd.
Qed.

Lemma wrapper_copy_witness :
  Scenario.disordered_residue !! 0
  = Some (ODisordered (mkDisordered (IdRes " " 10 " ")
                         [(IdStr "GLY", 1); (IdStr "ALA", 3)] None None))
  ∧ ∀ c h', Entity.copy 5 Scenario.disordered_residue 0 ≠ Ret c h'.
Proof.
  split; [reflexivity|].
  destruct (wrapper_copy 5 Scenario.disordered_residue 0 _ eq_refl) as (H & _).
  apply H. discriminate.
Defined.

(** ** [transform]: what happens to the atoms *)

Lemma a_with_coord_same (a : Atom) : a_with_coord (a_coord a) a = a.
Proof. by destruct a. Qed.

Lemma transform_fixed
    (dot_add : coord → Entity.rotation → Entity.translation → coord)
    (rot : Entity.rotation) (tran : Entity.translation) :
  (∀ c, dot_add c rot tran = c) →
  ∀ fuel h l,
    match Entity.transform dot_add fuel h l rot tran with
    | Ret _ h' | Exc _ h' => h' = h
    | Loop | Stuck => True
    end.
Proof.
  intros Hid. induction fuel as [|k IH]; intros h l; [done|].
  cbn [Entity.transform].
  destruct (h !! l) as [[e|a|w|dd]|] eqn:Hl; try done.
  - induction (child_list e) as [|c cs IHcs]; simpl; [done|].
    specialize (IH h c).
    destruct (Entity.transform dot_add k h c rot tran) as [[] h1|x h1| |];
      simpl; try done.
    by subst h1.
  - rewrite Hid, a_with_coord_same. by apply list_insert_id.
  - destruct (selected_child w) as [s|]; [apply IH|done].
Qed.

(** X19. A transformation whose kernel maps every coordinate to itself
    leaves the whole heap as it is: on an object of an acyclic heap
    [transform] comes back, or raises the [AttributeError] of a wrapper
    without a selection, and the heap is the one it started from. *)
Theorem transform_identity
    (dot_add : coord → Entity.rotation → Entity.translation → coord)
    (rot : Entity.rotation) (tran : Entity.translation)
    (rk : loc → nat) (top fuel : nat) (h : heap) (l : loc) :
  ranked rk top h → top < fuel → hier h l = true →
  (∀ c, dot_add c rot tran = c) →
  Entity.transform dot_add fuel h l rot tran = Ret tt h
  ∨ Entity.transform dot_add fuel h l rot tran = Exc AttributeError h.
Proof.
  intros Hr%ranked_ranked_prop Hf Hl Hid.
  destruct (hier_Some h l Hl) as (o & Ho & _).
  destruct (Hr l o Ho) as (Ht & _).
  pose proof (transform_total dot_add rot tran rk top fuel h l Hr Hl) as Hret.
  pose proof (transform_fixed dot_add rot tran Hid fuel h l) as Hfix.
  destruct (Entity.transform dot_add fuel h l rot tran) as [[] h1|x h1| |];
    simpl in *.
  - left. by subst.
  - right. subst. destruct x; try (exfalso; apply Hret; lia). done.
  - exfalso. apply Hret. lia.
  - exfalso. apply Hret. lia.
Qed.

Lemma transform_identity_witness :
  ranked Scenario.disordered_residue_rank 2 Scenario.disordered_residue
  ∧ Entity.transform (λ c _ _, c) 3 Scenario.disordered_residue 1
      Scenario.unit_rotation (0, 0, 0)%Z
    = Ret tt Scenario.disordered_residue.
Proof.
  assert (ranked Scenario.disordered_residue_rank 2 Scenario.disordered_residue)
    as Hr by reflexivity.
  split; [exact Hr|].
  destruct (transform_identity (λ c _ _, c) Scenario.unit_rotation (0, 0, 0)%Z
              _ 2 3 Scenario.disordered_residue 1 Hr) as [E|E];
    [lia|reflexivity|done|exact E|discriminate E].
Defined.

(** X20. [transform] on an entity whose children are atoms, each listed
    once: the call comes back, every one of these atoms has as coordinate
    the image of its former coordinate under the kernel, applied once; its
    id, parent and mass are as before, and so is every other object. *)
Theorem transform_atoms
    (dot_add : coord → Entity.rotation → Entity.translation → coord)
    (rot : Entity.rotation) (tran : Entity.translation)
    (k : nat) (h : heap) (l : loc) (e : Entity) :
  entity_at h l = Some e → NoDup (child_list e) →
  (∀ c, c ∈ child_list e → ∃ a, h !! c = Some (OAtom a)) →
  ∃ h', Entity.transform dot_add (S (S k)) h l rot tran = Ret tt h'
    ∧ (∀ d, d ∉ child_list e → h' !! d = h !! d)
    ∧ (∀ c a, c ∈ child_list e → h !! c = Some (OAtom a) →
         h' !! c = Some (OAtom (a_with_coord (dot_add (a_coord a) rot tran) a))).
Proof.
  intros He%entity_at_Some Hnd Hat. cbn [Entity.transform]. rewrite He.
  clear He. revert h Hnd Hat. generalize (child_list e) as cs.
  induction cs as [|c cs IH]; intros h Hnd Hat.
  { simpl. exists h. split; [done|]. split; [done|]. by intros c a ?%elem_of_nil. }
  apply NoDup_cons in Hnd as [Hc Hnd].
  destruct (Hat c) as [a Ha]; [left|].
  cbn [for_each]. cbn [Entity.transform]. rewrite Ha. cbn [bind].
  set (a' := a_with_coord (dot_add (a_coord a) rot tran) a).
  assert (c < length h) as Hlen by (by eapply lookup_lt_Some).
  destruct (IH (<[c := OAtom a']> h) Hnd) as (h' & E & Hfr & Hmv).
  { intros c' Hc'. rewrite list_lookup_insert_ne by (by intros ->).
    apply Hat. by right. }
  exists h'. split; [exact E|]. split.
  - intros d [Hd1 Hd2]%not_elem_of_cons. rewrite (Hfr d Hd2).
    by rewrite list_lookup_insert_ne.
  - intros c' b [->|Hc']%elem_of_cons Hb.
    + rewrite (Hfr c Hc). rewrite list_lookup_insert_eq by done.
      rewrite Ha in Hb. by injection Hb as <-.
    + apply Hmv; [done|]. rewrite list_lookup_insert_ne by (by intros ->). done.
Qed.

Lemma transform_atoms_witness :
  ∃ h', Entity.transform Scenario.translate 2 Scenario.disordered_residue 1
          Scenario.unit_rotation (0, 0, 1)%Z = Ret tt h'
    ∧ h' !! 6 = Some (OAtom (mkAtom (IdStr "CA") (Some 1) (1, 0, 1)%Z 12%Z))
    ∧ h' !! 0 = Scenario.disordered_residue !! 0.
Proof.
  destruct (transform_atoms Scenario.translate Scenario.unit_rotation (0, 0, 1)%Z
              0 Scenario.disordered_residue 1 _ eq_refl) as (h' & E & Hfr & Hmv).
  { simpl. apply NoDup_cons. split.
    - intros H. apply list_elem_of_singleton in H. discriminate H.
    - apply NoDup_singleton. }
  { intros c Hc. simpl in Hc.
    apply elem_of_cons in Hc as [->|Hc]; [by eexists|].
    apply list_elem_of_singleton in Hc as ->. by eexists. }
  exists h'. split; [exact E|]. split.
  - apply (Hmv 6 (mkAtom (IdStr "CA") (Some 1) (1, 0, 0)%Z 12%Z)); [|reflexivity].
    simpl. right. left.
  - apply Hfr. simpl. intros H.
    apply elem_of_cons in H as [H|H]; [discriminate H|].
    apply list_elem_of_singleton in H. discriminate H.
Defined.

(** ** [center_of_mass] *)

Lemma res_map_Ok {A B} (f : A → res B) (g : A → B) (xs : list A) :
  (∀ x, x ∈ xs → f x = Ok (g x)) → Entity.res_map f xs = Ok (g <$> xs).
Proof.
  induction xs as [|x xs IH]; intros Hf; simpl; [done|].
  rewrite (Hf x) by left. simpl. rewrite IH; [done|].
  intros y Hy. apply Hf. by right.
Qed.

Lemma res_map_Forall2 {A B} (f : A → res B) (xs : list A) (ys : list B) :
  Forall2 (λ x y, f x = Ok y) xs ys → Entity.res_map f xs = Ok ys.
Proof.
  induction 1 as [|x y xs ys Hxy _ IH]; simpl; [done|]. by rewrite Hxy, IH.
Qed.

(** An exception passed on is the exception raised. *)
Ltac passed_on H :=
  let E := fresh "E" in intros E; apply H; by injection E as ->.

Lemma res_map_not_ValueError {A B} (f : A → res B) (xs : list A) :
  (∀ x, f x ≠ Raise ValueError) → Entity.res_map f xs ≠ Raise ValueError.
Proof.
  intros Hf. induction xs as [|x xs IH]; simpl; [intros E; discriminate E|].
  pose proof (Hf x) as Hx.
  destruct (f x) as [y|ex| |]; simpl; try (intros E; discriminate E);
    [|passed_on Hx].
  destruct (Entity.res_map f xs) as [ys|ex| |]; simpl;
    try (intros E; discriminate E). done.
Qed.

Lemma attr_level_not_ValueError (h : heap) :
  ∀ g l, Entity.attr_level g h l ≠ Raise ValueError.
Proof.
  induction g as [|g IH]; intros l; simpl; [intros E; discriminate E|].
  destruct (h !! l) as [[e|a|w|dd]|]; try (intros E; discriminate E).
  destruct (selected_child w); [apply IH|intros E; discriminate E].
Qed.

Lemma attr_atom_not_ValueError (h : heap) :
  ∀ g l, Entity.attr_atom g h l ≠ Raise ValueError.
Proof.
  induction g as [|g IH]; intros l; simpl; [intros E; discriminate E|].
  destruct (h !! l) as [[e|a|w|dd]|]; try (intros E; discriminate E).
  destruct (selected_child w); [apply IH|intros E; discriminate E].
Qed.

Lemma unpack_not_ValueError (h : heap) :
  ∀ g l, Entity.unpack g h l ≠ Raise ValueError.
Proof.
  induction g as [|g IH]; intros l; simpl; [intros E; discriminate E|].
  destruct (h !! l) as [[e|a|w|dd]|]; try (intros E; discriminate E).
  - assert (Entity.get_unpacked_list h e ≠ Raise ValueError) as Hu.
    { apply res_map_not_ValueError. intros c.
      destruct (h !! c) as [[e'|a'|w'|dd']|]; try (intros E; discriminate E).
      destruct (selected_child w'); intros E; discriminate E. }
    destruct (cls_level (cls e)); try done; intros E; discriminate E.
  - destruct (selected_child w); [apply IH|intros E; discriminate E].
Qed.

Lemma unpack_loop_not_ValueError (g : nat) (h : heap) :
  ∀ fuel entities, Entity.unpack_loop g fuel h entities ≠ Raise ValueError.
Proof.
  induction fuel as [|k IH]; intros entities; simpl; [intros E; discriminate E|].
  destruct entities as [|e rest]; [intros E; discriminate E|].
  pose proof (unpack_not_ValueError h g e) as Hu.
  destruct (Entity.unpack g h e) as [added|x| |]; simpl;
    try (intros E; discriminate E); [|done].
  pose proof (res_map_not_ValueError (Entity.attr_level g h) (rest ++ added)
                (attr_level_not_ValueError h g)) as Hl.
  destruct (Entity.res_map (Entity.attr_level g h) (rest ++ added))
    as [elevels|x| |]; simpl; try (intros E; discriminate E); [|passed_on Hl].
  destruct (Entity.only_atom_level elevels); [intros E; discriminate E|apply IH].
Qed.

(** The levels of entities, none of which is the level of the atoms. *)
Lemma entity_levels (g : nat) (h : heap) (cs : list loc) :
  (∀ c, c ∈ cs → is_Some (entity_at h c)) →
  ∃ lv, Entity.res_map (Entity.attr_level (S g) h) cs = Ok lv
    ∧ Entity.only_atom_level lv = false.
Proof.
  intros Hent.
  assert (∃ lv, Entity.res_map (Entity.attr_level (S g) h) cs = Ok lv
            ∧ Forall (λ v, v ≠ LA) lv ∧ length lv = length cs) as (lv & E & Hlv & Hlen).
  { induction cs as [|c cs IH]; cbn [Entity.res_map].
    - exists []. by split_and!.
    - destruct (Hent c) as [ec Hc%entity_at_Some]; [left|].
      assert (Entity.attr_level (S g) h c = Ok (cls_level (cls ec))) as ->
        by (simpl; by rewrite Hc).
      destruct IH as (lv & -> & Hlv & Hlen); [intros y Hy; apply Hent; by right|].
      cbn [rbind]. exists (cls_level (cls ec) :: lv).
      split_and!; [done| |by simpl; f_equal].
      apply Forall_cons. split; [by destruct (cls ec)|done]. }
  exists lv. split; [done|]. unfold Entity.only_atom_level.
  apply bool_decide_eq_false. intros [Hne Hall].
  destruct lv as [|v lv]; [done|].
  apply Forall_cons in Hlv as [Hv _]. apply Forall_cons in Hall as [Hv' _]. done.
Qed.

Lemma unpack_entity_children (g : nat) (h : heap) (l : loc) (e : Entity) :
  entity_at h l = Some e →
  (∀ c, c ∈ child_list e → ∃ o, h !! c = Some o ∧ ∀ w, o ≠ ODisordered w) →
  Entity.unpack (S g) h l = Ok (child_list e).
Proof.
  intros He%entity_at_Some Hch. cbn [Entity.unpack]. rewrite He.
  assert (Entity.get_unpacked_list h e = Ok (child_list e)) as Hu.
  { unfold Entity.get_unpacked_list.
    rewrite (res_map_Ok _ id); [by rewrite list_fmap_id|].
    intros c Hc. destruct (Hch c Hc) as (o & -> & Hw).
    destruct o as [e'|a'|w'|dd']; try done. by destruct (Hw w'). }
  by destruct (cls_level (cls e)).
Qed.

Lemma unpack_loop_childless (g : nat) (h : heap) :
  ∀ rest fuel,
    (∀ c, c ∈ rest → ∃ ec, entity_at h c = Some ec ∧ child_list ec = []) →
    length rest < fuel →
    Entity.unpack_loop (S g) fuel h rest = Raise IndexError.
Proof.
  induction rest as [|c rest IH]; intros fuel Hch Hf.
  - destruct fuel; [lia|done].
  - destruct fuel as [|k]; [simpl in Hf; lia|]. cbn [Entity.unpack_loop].
    destruct (Hch c) as (ec & Hc & Hnil); [left|].
    rewrite (unpack_entity_children g h c ec Hc)
      by (rewrite Hnil; by intros ? ?%elem_of_nil).
    rewrite Hnil. cbn [rbind]. rewrite app_nil_r.
    destruct (entity_levels g h rest) as (lv & -> & Hlv).
    { intros y Hy. destruct (Hch y) as (ey & Hey & _); [by right|]. by eexists. }
    cbn [rbind]. rewrite Hlv. apply IH; [|simpl in Hf; lia].
    intros y Hy. apply Hch. by right.
Qed.

(** X21. The errors of [center_of_mass].  It raises [ValueError] on an
    entity without children, and on no other entity (unless the averaging
    kernel itself raises it).  An entity that has children, all of them
    entities without children, gets past that test and then runs out of
    objects to unpack: the loop ends in the [IndexError] of [popleft] on an
    empty deque. *)
Theorem center_of_mass_errors
    (np_average : list coord → option (list float) → res coord)
    (fuel : nat) (h : heap) (l : loc) (e : Entity) (geometric : bool) :
  entity_at h l = Some e →
  (child_list e = [] →
   Entity.center_of_mass np_average fuel h l geometric = Raise ValueError)
  ∧ (child_list e ≠ [] → (∀ cs ms, np_average cs ms ≠ Raise ValueError) →
     Entity.center_of_mass np_average fuel h l geometric ≠ Raise ValueError)
  ∧ (child_list e ≠ [] →
     (∀ c, c ∈ child_list e → ∃ ec, entity_at h c = Some ec ∧ child_list ec = []) →
     length (child_list e) + 2 ≤ fuel →
     Entity.center_of_mass np_average fuel h l geometric = Raise IndexError).
Proof.
  intros He. unfold Entity.center_of_mass. rewrite He. split_and!.
  - intros ->. done.
  - intros Hne Hnp. rewrite decide_False by (by destruct (child_list e)).
    pose proof (unpack_loop_not_ValueError fuel h fuel [l]) as Hu.
    destruct (Entity.unpack_loop fuel fuel h [l]) as [entities|x| |]; simpl;
      try (intros E; discriminate E); [|passed_on Hu].
    pose proof (res_map_not_ValueError (Entity.attr_atom fuel h) entities
                  (attr_atom_not_ValueError h fuel)) as Ha.
    destruct (Entity.res_map (Entity.attr_atom fuel h) entities) as [atoms|x| |];
      simpl; try (intros E; discriminate E); [|passed_on Ha].
    apply Hnp.
  - intros Hne Hch Hf. rewrite decide_False by (by destruct (child_list e)).
    destruct fuel as [|k]; [lia|]. cbn [Entity.unpack_loop].
    rewrite (unpack_entity_children k h l e He).
    2:{ intros c Hc. destruct (Hch c Hc) as (ec & Hec%entity_at_Some & _).
        exists (OEntity ec). split; [done|]. intros w E. discriminate E. }
    cbn [rbind app].
    destruct (entity_levels k h (child_list e)) as (lv & -> & Hlv).
    { intros c Hc. destruct (Hch c Hc) as (ec & Hec & _). by eexists. }
    cbn [rbind]. rewrite Hlv. rewrite unpack_loop_childless; [done|done|lia].
Qed.

Lemma center_of_mass_errors_witness :
  entity_at Scenario.chain_of_empty_residue 0
  = Some (mkEntity Chain (IdStr "A") None None [2] [(IdRes " " 10 "A", 2)] 1)
  ∧ Entity.center_of_mass (λ _ _, Ok (0, 0, 0)%Z) 3 Scenario.chain_of_empty_residue
      0 false = Raise IndexError
  ∧ Entity.center_of_mass (λ _ _, Ok (0, 0, 0)%Z) 3 Scenario.chain_of_empty_residue
      2 false = Raise ValueError.
Proof.
  split; [reflexivity|]. split.
  - destruct (center_of_mass_errors (λ _ _, Ok (0, 0, 0)%Z) 3
                Scenario.chain_of_empty_residue 0 _ false eq_refl) as (_ & _ & H).
    apply H; [discriminate| |simpl; lia].
    intros c Hc. simpl in Hc. apply list_elem_of_singleton in Hc as ->.
    by eexists.
  - destruct (center_of_mass_errors (λ _ _, Ok (0, 0, 0)%Z) 3
                Scenario.chain_of_empty_residue 2 _ false eq_refl) as (H & _).
    by apply H.
Defined.

(** X22. [center_of_mass] of an entity whose children are atoms: one turn
    of the loop collects the children, and the result is what the
    averaging kernel returns for their coordinates, in the order of the
    list of children, weighted by their masses, or without weights when
    the center of geometry is asked for. *)
Theorem center_of_mass_atoms
    (np_average : list coord → option (list float) → res coord)
    (fuel : nat) (h : heap) (l : loc) (e : Entity) (atoms : list Atom)
    (geometric : bool) :
  entity_at h l = Some e → child_list e ≠ [] →
  Forall2 (λ c a, h !! c = Some (OAtom a)) (child_list e) atoms →
  Entity.center_of_mass np_average (S fuel) h l geometric
  = np_average (a_coord <$> atoms)
      (if geometric then None else Some (a_mass <$> atoms)).
Proof.
  intros He Hne Hat. unfold Entity.center_of_mass. rewrite He.
  rewrite decide_False by (by destruct (child_list e)).
  cbn [Entity.unpack_loop].
  rewrite (unpack_entity_children fuel h l e He).
  2:{ intros c Hc. apply list_elem_of_lookup in Hc as [i Hi].
      destruct (Forall2_lookup_l _ _ _ _ _ Hat Hi) as (a & _ & Ha).
      exists (OAtom a). split; [done|]. intros w E. discriminate E. }
  cbn [rbind app].
  assert (Entity.res_map (Entity.attr_level (S fuel) h) (child_list e)
          = Ok ((λ _, LA) <$> child_list e)) as ->.
  { apply res_map_Ok. intros c Hc. apply list_elem_of_lookup in Hc as [i Hi].
    destruct (Forall2_lookup_l _ _ _ _ _ Hat Hi) as (a & _ & Ha).
    simpl. by rewrite Ha. }
  cbn [rbind].
  assert (Entity.only_atom_level ((λ _, LA) <$> child_list e) = true) as ->.
  { unfold Entity.only_atom_level. apply bool_decide_eq_true. split.
    - by destruct (child_list e).
    - apply Forall_fmap, Forall_true. done. }
  cbn [rbind].
  assert (Entity.res_map (Entity.attr_atom (S fuel) h) (child_list e) = Ok atoms) as ->.
  { apply res_map_Forall2. eapply Forall2_impl; [exact Hat|].
    intros c a Ha. simpl. by rewrite Ha. }
  done.
Qed.

Lemma center_of_mass_atoms_witness :
  Forall2 (λ c a, Scenario.disordered_residue !! c = Some (OAtom a)) [5; 6]
    [mkAtom (IdStr "N") (Some 1) (0, 0, 0)%Z 14%Z;
     mkAtom (IdStr "CA") (Some 1) (1, 0, 0)%Z 12%Z]
  ∧ Entity.center_of_mass (λ cs ms, Ok (default (0, 0, 0)%Z (last cs))) 1
      Scenario.disordered_residue 1 false
    = Ok (1, 0, 0)%Z.
Proof.
  assert (Forall2 (λ c a, Scenario.disordered_residue !! c = Some (OAtom a)) [5; 6]
            [mkAtom (IdStr "N") (Some 1) (0, 0, 0)%Z 14%Z;
             mkAtom (IdStr "CA") (Some 1) (1, 0, 0)%Z 12%Z]) as Hat.
  { repeat constructor. }
  split; [exact Hat|].
  rewrite (center_of_mass_atoms _ 0 Scenario.disordered_residue 1 _
             [mkAtom (IdStr "N") (Some 1) (0, 0, 0)%Z 14%Z;
              mkAtom (IdStr "CA") (Some 1) (1, 0, 0)%Z 12%Z] false eq_refl);
    [reflexivity|discriminate|exact Hat].
Defined.

(** ** The container protocol of an entity *)

Lemma children_keys_length (h : heap) (e : Entity) :
  in_sync_prop h e → NoDup (child_list e) →
  length (child_list e) = length (dict_keys (child_dict e)).
Proof.
  intros (Hnd & Hid & Hsy) Hndl.
  set (key := λ c, default (IdInt 0) (h !! c ≫= obj_id)).
  assert (∀ c, c ∈ child_list e → h !! c ≫= obj_id = Some (key c)) as Hkey.
  { intros c Hc. unfold key. by destruct (Hid c Hc) as [k ->]. }
  rewrite <- (length_fmap key (child_list e)). apply Permutation_length.
  apply NoDup_Permutation; [|done|].
  - apply NoDup_fmap_2_strong; [|done]. intros x y Hx Hy Exy.
    assert (dict_get (key x) (child_dict e) = Some x) as E1
      by (apply Hsy; split; [done|by apply Hkey]).
    assert (dict_get (key x) (child_dict e) = Some y) as E2
      by (apply Hsy; split; [done|rewrite Exy; by apply Hkey]).
    congruence.
  - intros k. rewrite list_elem_of_fmap, <- dict_get_keys. split.
    + intros (c & -> & Hc). exists c. apply Hsy. split; [done|by apply Hkey].
    + intros [c Hc]. apply Hsy in Hc as [Hin Hk]. exists c. split; [|done].
      rewrite (Hkey c Hin) in Hk. by injection Hk.
Qed.

(** X23. The special methods of an entity agree with each other in every
    heap that the invariant describes: [len(p)] is the number of ids in
    the index; [id in p] is [p.has_id(id)]; [p[id]] returns a child
    exactly when that child is in the list of children and bears the id,
    and raises [KeyError] exactly when [id in p] is [False]; iterating over
    [p] and [p.get_iterator()] go through [p.get_list()]; every child of
    the list is found again under its id. *)
Theorem container_protocol (h : heap) (p : loc) (e : Entity) :
  hierarchy_inv h → entity_at h p = Some e →
  Entity.__len__ h p = Ok (length (dict_keys (child_dict e)))
  ∧ (∀ i, Entity.__contains__ h p i = Entity.has_id h p i)
  ∧ (∀ i c, Entity.__getitem__ h p i = Ok c
            ↔ c ∈ child_list e ∧ get_id h c = Ok i)
  ∧ (∀ i, Entity.__getitem__ h p i = Raise KeyError
          ↔ Entity.__contains__ h p i = Ok false)
  ∧ Entity.__iter__ h p = Entity.get_list h p
  ∧ Entity.get_iterator h p = Entity.get_list h p
  ∧ (∀ c, c ∈ child_list e →
       ∃ i, get_id h c = Ok i ∧ Entity.__getitem__ h p i = Ok c
            ∧ Entity.__contains__ h p i = Ok true).
Proof.
  intros [_ Hch] He. destruct (Hch p e He) as (Hsync & Hndl & _).
  pose proof Hsync as (Hnd & Hid & Hsy).
  unfold Entity.__len__, Entity.__contains__, Entity.has_id, Entity.__getitem__,
    Entity.__iter__, Entity.get_iterator, Entity.get_list.
  rewrite He. split_and!; try done.
  - f_equal. by apply (children_keys_length h).
  - intros i c. rewrite get_id_Ok, <- Hsy.
    destruct (dict_get i (child_dict e)); naive_solver.
  - intros i. destruct (dict_get i (child_dict e)) as [c|] eqn:Hi.
    + split; [done|]. intros [= Hm]. apply dict_mem_false in Hm. congruence.
    + split; [|done]. intros _. f_equal. by apply dict_mem_false.
  - intros c Hc. destruct (Hid c Hc) as [i Hi]. exists i.
    assert (dict_get i (child_dict e) = Some c) as Hg by (by apply Hsy).
    rewrite Hg. split_and!; [by apply get_id_Ok|done|].
    f_equal. apply dict_mem_true. by rewrite Hg.
Qed.

Lemma container_protocol_witness :
  Entity.__len__ Scenario.chain_of_two_residues 0 = Ok 2
  ∧ Entity.__getitem__ Scenario.chain_of_two_residues 0 (IdRes " " 11 " ") = Ok 4.
Proof.
  destruct (container_protocol Scenario.chain_of_two_residues 0 _
              chain_of_two_residues_inv eq_refl) as (Hlen & _ & Hget & _).
  split; [exact Hlen|]. apply Hget. split; [|reflexivity]. simpl. right. left.
Defined.

(** ** [copy] of an entity *)

Lemma extends_refl (h : heap) : extends h h.
Proof. by intros i o Hi. Qed.

Lemma extends_trans (h1 h2 h3 : heap) :
  extends h1 h2 → extends h2 h3 → extends h1 h3.
Proof. intros H12 H23 i o Hi. by apply H23, H12. Qed.

Lemma extends_app (h ext : heap) : extends h (h ++ ext).
Proof. intros i o Hi. by apply lookup_app_l_Some. Qed.

Lemma extends_length (h h' : heap) : extends h h' → length h ≤ length h'.
Proof.
  intros E. destruct (decide (length h ≤ length h')) as [|Hn]; [done|].
  destruct (lookup_lt_is_Some_2 h (length h')) as [o Ho]; [lia|].
  apply E, lookup_lt_Some in Ho. lia.
Qed.

Lemma extends_lookup (h h' : heap) (i : loc) :
  extends h h' → i < length h → h' !! i = h !! i.
Proof.
  intros E Hi. destruct (lookup_lt_is_Some_2 h i Hi) as [o Ho].
  by rewrite Ho, (E i o Ho).
Qed.

Lemma extends_hier (h h' : heap) (l : loc) :
  extends h h' → hier h l = true → hier h' l = true.
Proof.
  intros E. unfold hier. destruct (h !! l) as [o|] eqn:Ho; [|done].
  by rewrite (E l o Ho).
Qed.

Lemma unparent_entity_inv (e : Entity) (o' : pyobj) :
  unparent o' = unparent (OEntity e) →
  ∃ e', o' = OEntity e' ∧ cls e' = cls e ∧ _id e' = _id e
        ∧ child_list e' = child_list e ∧ child_dict e' = child_dict e
        ∧ xtra e' = xtra e.
Proof.
  destruct o' as [e'| | |]; simpl; try done. destruct e, e'. simpl.
  intros [= -> -> -> -> ->]. eauto 10.
Qed.

Lemma unparent_atom_inv (a : Atom) (o' : pyobj) :
  unparent o' = unparent (OAtom a) →
  ∃ a', o' = OAtom a' ∧ a_id a' = a_id a ∧ a_coord a' = a_coord a
        ∧ a_mass a' = a_mass a.
Proof.
  destruct o' as [|a'| |]; simpl; try done. destruct a, a'. simpl.
  intros [= -> -> ->]. eauto 10.
Qed.

Lemma unparent_dict_inv (d : dict pyid) (o' : pyobj) :
  unparent o' = unparent (ODict d) → o' = ODict d.
Proof. destruct o' as [[]|[]|[]|]; simpl; try done. Qed.

Lemma unparent_insert (h : heap) (l : loc) (o o' : pyobj) :
  h !! l = Some o → unparent o' = unparent o →
  unparent <$> h = unparent <$> (<[l := o']> h).
Proof.
  intros Ho E. rewrite list_fmap_insert, E. symmetry. apply list_insert_id.
  by rewrite list_lookup_fmap, Ho.
Qed.

(** *** Well-formed nodes and deep copies in a heap that grows *)

Lemma wf_node_lookup (close : coord → coord → bool) (d : nat) (h : heap) (l : loc) :
  wf_node close d h l = true → l < length h.
Proof.
  destruct d; [done|]. simpl.
  destruct (h !! l) eqn:Hl; [|done]. intros _. by eapply lookup_lt_Some.
Qed.

Lemma wf_node_ids (close : coord → coord → bool) (d : nat) (h h' : heap)
    (cs : list loc) :
  extends h h' → forallb (wf_node close d h) cs = true →
  (λ c, h' !! c ≫= obj_id) <$> cs = (λ c, h !! c ≫= obj_id) <$> cs.
Proof.
  intros E Hcs. apply list_fmap_ext. intros i c Hc.
  rewrite forallb_forall in Hcs.
  assert (c ∈ cs) as Hin by (by eapply list_elem_of_lookup_2).
  apply list_elem_of_In, Hcs, wf_node_lookup in Hin.
  by rewrite (extends_lookup h h' c E Hin).
Qed.

Lemma wf_node_extends (close : coord → coord → bool) (h h' : heap) :
  extends h h' →
  ∀ d l, wf_node close d h l = true → wf_node close d h' l = true.
Proof.
  intros E. induction d as [|d IH]; intros l; [done|]. simpl.
  destruct (h !! l) as [[e|a|w|dd]|] eqn:Hl; try done; rewrite (E l _ Hl); [|done].
  destruct (h !! xtra e) as [[| | |dx]|] eqn:Hx; try done. rewrite (E _ _ Hx).
  simpl. intros [Hnd Hcs]%andb_true_iff. apply andb_true_iff. split.
  - rewrite (wf_node_ids close d h h' _ E Hcs). done.
  - rewrite forallb_forall in Hcs. apply forallb_forall. intros c Hc.
    by apply IH, Hcs.
Qed.

Lemma mirror_base (d : nat) (h0 h : heap) (base : nat) (l c : loc) :
  mirror d h0 h base l c → base ≤ c.
Proof. destruct d; [done|]. by intros [? _]. Qed.

Lemma mirror_mono_base (h0 h : heap) (base base' : nat) :
  base' ≤ base →
  ∀ d l c, mirror d h0 h base l c → mirror d h0 h base' l c.
Proof.
  intros Hb. induction d as [|d IH]; intros l c; [done|]. simpl.
  intros [Hc Hm]. split; [lia|].
  destruct (h0 !! l) as [[e|a|w|dd]|], (h !! c) as [[e'|a'|w'|dd']|]; try done.
  destruct Hm as (? & ? & ? & ? & ? & ? & Hall). split_and!; try done; [lia|].
  eapply Forall2_impl; [exact Hall|]. intros x y. apply IH.
Qed.

(** A deep copy stays one when the objects at or after [base] change in
    their parent references and cached full ids only. *)
Lemma mirror_stable (h0 h h2 : heap) (base : nat) :
  (∀ y o, base ≤ y → h !! y = Some o →
          ∃ o2, h2 !! y = Some o2 ∧ unparent o2 = unparent o) →
  ∀ d l c, mirror d h0 h base l c → mirror d h0 h2 base l c.
Proof.
  intros Hag. induction d as [|d IH]; intros l c; [done|]. simpl.
  intros [Hc Hm]. split; [done|].
  destruct (h0 !! l) as [[e|a|w|dd]|]; try done.
  - destruct (h !! c) as [[e'|a'|w'|dd']|] eqn:Hlc; try done.
    destruct (Hag c _ Hc Hlc) as (o2 & -> & E2).
    apply unparent_entity_inv in E2 as (e2 & -> & Ec & Ei & El & Ed & Ex).
    destruct Hm as (? & ? & Hx & (dd & Hd0 & Hd) & ? & ? & Hall).
    rewrite Ec, Ei, El, Ed, Ex. split_and!; try done.
    + exists dd. split; [done|].
      destruct (Hag _ _ Hx Hd) as (o3 & -> & E3).
      by apply unparent_dict_inv in E3 as ->.
    + eapply Forall2_impl; [exact Hall|]. intros x y. apply IH.
  - destruct (h !! c) as [[e'|a'|w'|dd']|] eqn:Hlc; try done.
    destruct (Hag c _ Hc Hlc) as (o2 & -> & E2).
    apply unparent_atom_inv in E2 as (a2 & -> & Ei & Eco & Em).
    by rewrite Ei, Eco, Em.
Qed.

(** The original of a deep copy may be read in an earlier heap. *)
Lemma mirror_original (close : coord → coord → bool) (h hi h2 : heap) (base : nat) :
  extends h hi →
  ∀ d l c, wf_node close d h l = true →
    mirror d hi h2 base l c → mirror d h h2 base l c.
Proof.
  intros E. induction d as [|d IH]; intros l c; [done|]. simpl.
  destruct (h !! l) as [[e|a|w|dd]|] eqn:Hl; try done; rewrite (E l _ Hl).
  - destruct (h !! xtra e) as [[| | |dx]|] eqn:Hx; try done. simpl.
    intros [Hnd Hcs]%andb_true_iff [Hc Hm]. split; [done|].
    destruct (h2 !! c) as [[e'|a'|w'|dd']|]; try done.
    destruct Hm as (? & ? & ? & (dd & Hd0 & Hd) & ? & Hk & Hall).
    split_and!; try done.
    + exists dd. split; [|done]. rewrite (E _ _ Hx) in Hd0. congruence.
    + by rewrite Hk, (wf_node_ids close d h hi _ E Hcs).
    + rewrite forallb_forall in Hcs.
      apply Forall2_same_length_lookup. split; [by eapply Forall2_length|].
      intros i x y Hix Hiy. apply IH.
      * apply Hcs, list_elem_of_In. by eapply list_elem_of_lookup_2.
      * by eapply Forall2_lookup_lr.
  - intros _ [Hc Hm]. split; [done|]. done.
Qed.

Lemma mirror_id (d : nat) (h0 h : heap) (base : nat) (l c : loc) :
  mirror d h0 h base l c →
  ∃ i, h0 !! l ≫= obj_id = Some i ∧ h !! c ≫= obj_id = Some i
       ∧ hier h c = true ∧ ∀ w, h !! c ≠ Some (ODisordered w).
Proof.
  destruct d; [done|]. simpl. intros [_ Hm]. unfold hier.
  destruct (h0 !! l) as [[e|a|w|dd]|], (h !! c) as [[e'|a'|w'|dd']|]; try done.
  - destruct Hm as (_ & Hi & _). exists (_id e). simpl. by rewrite Hi.
  - destruct Hm as (Hi & _). exists (a_id a). simpl. by rewrite Hi.
Qed.

(** What [_reset_full_id] reaches from a deep copy is part of the copy. *)
Lemma mirror_reach (h0 h : heap) (base : nat) (c y : loc) :
  reset_reach h c y → ∀ d l, mirror d h0 h base l c → base ≤ y.
Proof.
  induction 1 as [c e He|c e c1 y He Hc1 _ IH|c w s y Hc Hs _ IH]; intros d l Hm.
  - by eapply mirror_base.
  - destruct d; [done|]. simpl in Hm. destruct Hm as [_ Hm].
    apply entity_at_Some in He. rewrite He in Hm.
    destruct (h0 !! l) as [[e0|a|w|dd]|]; try done.
    destruct Hm as (_ & _ & _ & _ & _ & _ & Hall).
    apply list_elem_of_lookup in Hc1 as [i Hi].
    destruct (Forall2_lookup_r _ _ _ _ _ Hall Hi) as (x & _ & Hx).
    by eapply IH.
  - destruct d; [done|]. simpl in Hm. destruct Hm as [_ Hm]. rewrite Hc in Hm.
    by destruct (h0 !! l) as [[e0|a|w0|dd]|].
Qed.

(** [c.set_parent(p)], for an entity or an atom, changes nothing outside
    of what [_reset_full_id] reaches from [c]. *)
Lemma set_parent_frame (fuel : nat) (h h' : heap) (c p : loc) :
  (∀ w, h !! c ≠ Some (ODisordered w)) →
  Entity.set_parent fuel h c p = Ret tt h' →
  ∀ y, y ≠ c → ¬ reset_reach h c y → h' !! y = h !! y.
Proof.
  intros Hw E y Hy Hno.
  destruct (h !! c) as [[e|a|w|dd]|] eqn:Hc.
  - assert (Entity.set_parent fuel h c p
            = Entity._reset_full_id fuel fuel (set_entity c (with_parent (Some p)) h) c)
      as E' by (destruct fuel; simpl; by rewrite Hc).
    rewrite E' in E.
    rewrite (set_entity_insert h c e) in E by (by apply entity_at_Some).
    pose proof (reset_frame fuel fuel (<[c := OEntity (with_parent (Some p) e)]> h) c)
      as Hf.
    rewrite E in Hf. rewrite Hf; [by apply list_lookup_insert_ne|].
    intros Hr. apply Hno. apply (unparent_reach _ h) in Hr; [done|].
    symmetry. by apply (unparent_insert h c (OEntity e)).
  - assert (Entity.set_parent fuel h c p
            = Ret tt (<[c := OAtom (a_with_parent (Some p) a)]> h)) as E'
      by (destruct fuel; simpl; by rewrite Hc).
    rewrite E' in E. injection E as <-. by apply list_lookup_insert_ne.
  - by destruct (Hw w).
  - destruct fuel; simpl in E; by rewrite Hc in E.
  - destruct fuel; simpl in E; by rewrite Hc in E.
Qed.

(** *** Ranks for a heap that grows *)

Lemma ranked_extend (rk rk' : loc → nat) (top : nat) (h h' : heap) :
  extends h h' → ranked_prop rk top h →
  (∀ y, y < length h → rk' y = rk y) →
  (∀ y o, length h ≤ y → h' !! y = Some o → ranked_at rk' top h' y o) →
  ranked_prop rk' top h'.
Proof.
  intros E Hr Hag Hnew y o Ho.
  destruct (decide (length h ≤ y)) as [|Hlt]; [by apply Hnew|].
  assert (y < length h) as Hy by lia.
  rewrite (extends_lookup h h' y E Hy) in Ho.
  destruct (Hr y o Ho) as (Ht & Hp & Hc).
  assert (∀ q, hier h q = true → q < length h) as Hq.
  { intros q. unfold hier. destruct (h !! q) eqn:Hlq; [|done]. intros _.
    by eapply lookup_lt_Some. }
  split_and!.
  - by rewrite Hag.
  - intros q Hpq. destruct (Hp q Hpq) as [Hlt' Hh]. split.
    + rewrite (Hag y Hy), (Hag q (Hq q Hh)). done.
    + by apply (extends_hier h h').
  - intros c Hin. destruct (Hc c Hin) as [Hlt' Hh]. split.
    + rewrite (Hag y Hy), (Hag c (Hq c Hh)). done.
    + by apply (extends_hier h h').
Qed.

Lemma hier_insert_entity (h : heap) (p : loc) (e e' : Entity) (y : loc) :
  entity_at h p = Some e → hier (<[p := OEntity e']> h) y = hier h y.
Proof.
  intros He%entity_at_Some. unfold hier. destruct (decide (y = p)) as [->|Hne].
  - rewrite list_lookup_insert_eq by (by eapply lookup_lt_Some). by rewrite He.
  - by rewrite list_lookup_insert_ne.
Qed.

Lemma ranked_set_children (rk : loc → nat) (top : nat) (h : heap) (p : loc)
    (e : Entity) (l2 : list loc) (d2 : dict loc) :
  ranked_prop rk top h → entity_at h p = Some e →
  (∀ x, x ∈ l2 → rk x < rk p ∧ hier h x = true) →
  ranked_prop rk top (<[p := OEntity (with_children l2 d2 e)]> h).
Proof.
  intros Hr He Hl2 y o Ho. apply entity_at_Some in He as Hlp.
  assert (∀ o0, h !! y = Some o0 → obj_parent o = obj_parent o0 →
            (∀ c, c ∈ obj_children o → rk c < rk y ∧ hier h c = true) →
            ranked_at rk top (<[p := OEntity (with_children l2 d2 e)]> h) y o) as Hgo.
  { intros o0 Ho0 Hpar Hch. destruct (Hr y o0 Ho0) as (Ht & Hp & _).
    split_and!; [done| |].
    - intros q Hq. rewrite (hier_insert_entity h p e _ q He). apply Hp. congruence.
    - intros c Hc. rewrite (hier_insert_entity h p e _ c He). by apply Hch. }
  destruct (decide (y = p)) as [->|Hne].
  - rewrite list_lookup_insert_eq in Ho by (by eapply lookup_lt_Some).
    injection Ho as <-. by apply (Hgo (OEntity e)).
  - rewrite list_lookup_insert_ne in Ho by done.
    apply (Hgo o); [done|done|]. by destruct (Hr y o Ho) as (_ & _ & Hc).
Qed.

(** *** The loop over the children *)

Section copy_children.
Context (close : coord → coord → bool) (top d' k : nat) (h : heap)
  (rk : loc → nat) (l : loc) (e : Entity) (dd : dict pyid).
Hypothesis Hl : h !! l = Some (OEntity e).
Hypothesis Hr : ranked_prop rk top h.
Hypothesis Hfuel : top + rk l < S k.
Hypothesis Hnd : NoDup ((λ c, h !! c ≫= obj_id) <$> child_list e).
Hypothesis Hwf : forallb (wf_node close d' h) (child_list e) = true.
Hypothesis Hcopy : ∀ hi x rki,
  wf_node close d' hi x = true → ranked_prop rki top hi → top + rki x < k →
  ∃ h'' rk'', Entity.copy k hi x = Ret (length hi) h''
    ∧ extends hi h'' ∧ ranked_prop rk'' top h''
    ∧ (∀ y, y < length hi → rk'' y = rki y)
    ∧ rk'' (length hi) = rki x
    ∧ mirror d' hi h'' (length hi) x (length hi).

(** The state of the loop: the children [done] have been copied to
    [done'] and added to the shallow copy, which is at [length h]. *)
Definition copying (done done' : list loc) (hi : heap) (rki : loc → nat) : Prop :=
  extends h hi ∧ ranked_prop rki top hi
  ∧ (∀ y, y < length h → rki y = rk y) ∧ rki (length h) = rk l
  ∧ S (S (length h)) ≤ length hi
  ∧ (∃ es, entity_at hi (length h) = Some es
       ∧ cls es = cls e ∧ _id es = _id e ∧ parent es = None
       ∧ xtra es = S (length h) ∧ child_list es = done'
       ∧ dict_values (child_dict es) = done'
       ∧ Some <$> dict_keys (child_dict es) = (λ x, h !! x ≫= obj_id) <$> done
       ∧ full_id es = full_id e)
  ∧ hi !! S (length h) = Some (ODict dd)
  ∧ Forall2 (mirror d' h hi (S (S (length h)))) done done'
  ∧ (∀ c', c' ∈ done' → hi !! c' ≫= obj_parent = Some (Some (length h))).

Lemma copy_step (done done' : list loc) (hi : heap) (rki : loc → nat)
    (x : loc) (todo : list loc) :
  child_list e = done ++ x :: todo → copying done done' hi rki →
  ∃ h6 rk6 c,
    (let* c , h'' := Entity.copy k hi x in Entity.add k h'' (length h) c) = Ret tt h6
    ∧ copying (done ++ [x]) (done' ++ [c]) h6 rk6.
Proof.
  intros Hsplit (Hext & Hri & Hag & Hn & Hlen
                 & (es & Hes & Ecls & Eid & Epar & Ex & Ecl & Edv & Edk & Efid)
                 & Hdict & Hmir & Hpar).
  set (n := length h) in *.
  assert (x ∈ child_list e) as Hin by (rewrite Hsplit, elem_of_app; right; left).
  assert (wf_node close d' h x = true) as Hwfx.
  { rewrite forallb_forall in Hwf. by apply Hwf, list_elem_of_In. }
  pose proof (wf_node_lookup close d' h x Hwfx) as Hxn. fold n in Hxn.
  assert (rk x < rk l) as Hrkx.
  { destruct (Hr l _ Hl) as (_ & _ & Hch). by destruct (Hch x Hin). }
  destruct (Hcopy hi x rki) as (h'' & rk'' & Ecopy & Hext'' & Hr'' & Hag'' & Hrkc & Hm).
  { by apply (wf_node_extends close h hi). }
  { done. }
  { rewrite (Hag x Hxn). lia. }
  set (c := length hi) in *.
  destruct (mirror_id d' hi h'' c x c Hm) as (ix & Hix & Hic & Hhc & Hnw).
  rewrite (extends_lookup h hi x Hext Hxn) in Hix.
  assert (n < c) as Hnc by (unfold c; lia).
  assert (∀ y, y < c → h'' !! y = hi !! y) as Hlow''
    by (intros y Hy; by apply extends_lookup).
  assert (entity_at h'' n = Some es) as Hes''.
  { unfold entity_at. rewrite (Hlow'' n Hnc). exact Hes. }
  assert (dict_mem ix (child_dict es) = false) as Hmem.
  { apply not_true_is_false. intros Ht%dict_mem_true%dict_get_keys.
    rewrite Hsplit, fmap_app, fmap_cons in Hnd.
    apply NoDup_app in Hnd as (_ & Hdisj & _). apply (Hdisj (Some ix)).
    - rewrite <- Edk. by apply list_elem_of_fmap_2.
    - rewrite Hix. left. }
  assert (rk'' c = rk x) as Hrc by (by rewrite Hrkc, (Hag x Hxn)).
  assert (rk'' n = rk l) as Hrn by (by rewrite (Hag'' n Hnc)).
  destruct (set_parent_spec rk'' top n k h'' c Hr'')
    as (h5 & E5 & [Hu5 Hpar5] & Hcp5 & _);
    [by apply (entity_hier h'' n es)|done|lia|lia|].
  assert (∀ y, y < c → h5 !! y = hi !! y) as Hlow5.
  { intros y Hy. rewrite <- (Hlow'' y Hy).
    apply (set_parent_frame k h'' h5 c n Hnw E5); [lia|].
    intros Hreach. pose proof (mirror_reach hi h'' c c y Hreach d' x Hm). lia. }
  assert (entity_at h5 n = Some es) as Hes5.
  { unfold entity_at. rewrite (Hlow5 n Hnc). exact Hes. }
  set (es' := with_children (child_list es ++ [c])
                (dict_set ix c (child_dict es)) es).
  set (h6 := <[n := OEntity es']> h5).
  assert (length h5 = length h'') as Hlen5.
  { apply (f_equal length) in Hu5. by rewrite !length_fmap in Hu5. }
  pose proof (extends_length hi h'' Hext'') as Hlen''.
  assert (∀ y, y ≠ n → h6 !! y = h5 !! y) as H65
    by (intros y Hy; unfold h6; by apply list_lookup_insert_ne).
  assert (entity_at h6 n = Some es') as Hes6.
  { unfold h6. rewrite (entity_at_insert h5 n n es es' Hes5). by case_decide. }
  exists h6, rk'', c. split.
  { rewrite Ecopy. cbn [bind].
    rewrite (add_unfold k h'' n c es ix Hes'' (proj2 (get_id_Ok h'' c ix) Hic)).
    rewrite Hmem, E5. cbn [bind].
    by rewrite (set_entity_insert h5 n es _ Hes5). }
  assert (ranked_prop rk'' top h5) as Hr5.
  { apply (reparented_ranked rk'' top n h'' h5 Hr''); [|done].
    by apply (entity_hier h'' n es). }
  split_and!.
  - intros y o Hy. assert (y < n) as Hyn by (by eapply lookup_lt_Some).
    rewrite H65 by lia. rewrite Hlow5 by lia. by apply Hext.
  - apply (ranked_set_children rk'' top h5 n es); [done|done|].
    intros x' [Hx'| ->%list_elem_of_singleton]%elem_of_app.
    + apply entity_at_Some in Hes5. destruct (Hr5 n _ Hes5) as (_ & _ & Hch).
      by apply Hch.
    + split; [lia|]. by rewrite (unparent_hier h'' h5 c Hu5).
  - intros y Hy. rewrite Hag'' by lia. by apply Hag.
  - done.
  - unfold h6. rewrite length_insert. lia.
  - exists es'. split; [done|]. unfold es'. simpl.
    split_and!; try done.
    + by rewrite Ecl.
    + by rewrite (dict_values_set_new ix c _ Hmem), Edv.
    + rewrite dict_keys_set, Hmem, !fmap_app, Edk. simpl. by rewrite Hix.
  - rewrite H65 by lia. rewrite Hlow5 by lia. done.
  - apply Forall2_app.
    + eapply Forall2_impl; [exact Hmir|]. intros a b.
      apply mirror_stable. intros y o Hy Ho. exists o. split; [|done].
      assert (y < c) as Hyc by (by eapply lookup_lt_Some).
      rewrite H65 by lia. by rewrite Hlow5.
    + constructor; [|constructor].
      apply (mirror_stable h h'' h6 (S (S n))).
      * intros y o Hy Ho. destruct (unparent_obj h'' h5 y o Hu5 Ho) as (o2 & Ho2 & E2).
        exists o2. split; [|done]. by rewrite H65 by lia.
      * apply (mirror_mono_base h h'' c (S (S n))); [lia|].
        by apply (mirror_original close h hi h'' c Hext d' x c).
  - intros c' [Hc'| ->%list_elem_of_singleton]%elem_of_app.
    + specialize (Hpar c' Hc').
      assert (c' < c) as Hc'c.
      { destruct (hi !! c') eqn:E; [by eapply lookup_lt_Some|done]. }
      assert (c' ≠ n) as Hc'n.
      { intros ->. apply entity_at_Some in Hes. rewrite Hes in Hpar.
        simpl in Hpar. rewrite Epar in Hpar. discriminate Hpar. }
      rewrite H65 by done. by rewrite Hlow5.
    + rewrite H65 by lia. done.
Qed.

Lemma copy_loop :
  ∀ todo done done' hi rki,
    child_list e = done ++ todo → copying done done' hi rki →
    ∃ h4 rk4 done4',
      for_each (λ child h', let* c , h'' := Entity.copy k h' child in
                            Entity.add k h'' (length h) c) todo hi = Ret tt h4
      ∧ copying (child_list e) done4' h4 rk4.
Proof.
  induction todo as [|x todo IH]; intros done done' hi rki Hsplit Hinv.
  - rewrite app_nil_r in Hsplit. subst done. simpl. by exists hi, rki, done'.
  - destruct (copy_step done done' hi rki x todo Hsplit Hinv)
      as (h6 & rk6 & c & E & Hinv6).
    cbn [for_each]. rewrite E. cbn [bind].
    apply (IH (done ++ [x]) (done' ++ [c]) h6 rk6); [|done].
    by rewrite <- app_assoc.
Qed.

End copy_children.

(** *** [copy] of a well-formed node *)

Lemma copy_spec (close : coord → coord → bool) (top : nat) :
  ∀ d fuel h l rk,
    wf_node close d h l = true → ranked_prop rk top h → top + rk l < fuel →
    ∃ h' rk', Entity.copy fuel h l = Ret (length h) h'
      ∧ extends h h' ∧ ranked_prop rk' top h'
      ∧ (∀ y, y < length h → rk' y = rk y)
      ∧ rk' (length h) = rk l
      ∧ mirror d h h' (length h) l (length h)
      ∧ h' !! length h ≫= obj_parent = Some None
      ∧ (∀ e' c', entity_at h' (length h) = Some e' → c' ∈ child_list e' →
           h' !! c' ≫= obj_parent = Some (Some (length h)))
      ∧ (∀ e0, entity_at h l = Some e0 →
           ∃ e', entity_at h' (length h) = Some e' ∧ full_id e' = full_id e0).
Proof.
  induction d as [|d IH]; intros fuel h l rk Hwf Hr Hf; [done|].
  destruct fuel as [|k]; [lia|]. simpl in Hwf. cbn [Entity.copy].
  destruct (h !! l) as [[e|a|w|dd]|] eqn:Hl; try done.
  - (* an entity *)
    destruct (h !! xtra e) as [[| | |dx]|] eqn:Hx; try done. simpl in Hwf.
    apply andb_true_iff in Hwf as [Hnd%bool_decide_eq_true Hcs].
    destruct (Hr l _ Hl) as (Htop & _).
    set (n := length h). set (e0 := with_children [] [] e).
    rewrite (lookup_app_l_Some _ _ _ _ Hx).
    set (es0 := with_xtra (S n) e0). set (es1 := with_parent None es0).
    assert (set_entity n (with_xtra (length (h ++ [OEntity e0])))
              ((h ++ [OEntity e0]) ++ [ODict dx])
            = h ++ [OEntity es0; ODict dx]) as E2.
    { rewrite (set_entity_insert _ n e0).
      - rewrite <- app_assoc. rewrite insert_app_r_alt by (unfold n; lia).
        rewrite Nat.sub_diag. simpl. rewrite length_app. simpl.
        by rewrite Nat.add_1_r.
      - apply entity_at_Some. rewrite <- app_assoc.
        by rewrite lookup_app_r, Nat.sub_diag by (unfold n; lia). }
    rewrite E2.
    assert (Entity.detach_parent k (h ++ [OEntity es0; ODict dx]) n
            = Ret tt (h ++ [OEntity es1; ODict dx])) as E3.
    { assert ((h ++ [OEntity es0; ODict dx]) !! n = Some (OEntity es0)) as Hln
        by (by rewrite lookup_app_r, Nat.sub_diag by (unfold n; lia)).
      assert (Entity.detach_parent k (h ++ [OEntity es0; ODict dx]) n
              = Ret tt (set_entity n (with_parent None)
                          (h ++ [OEntity es0; ODict dx]))) as ->
        by (destruct k; simpl; by rewrite Hln).
      rewrite (set_entity_insert _ n es0) by (by apply entity_at_Some).
      by rewrite insert_app_r_alt, Nat.sub_diag by (unfold n; lia). }
    rewrite E3. cbn [bind].
    set (h3 := h ++ [OEntity es1; ODict dx]).
    set (rk1 := λ y, if decide (y = n) then rk l
                     else if decide (y = S n) then 0 else rk y).
    assert (h3 !! n = Some (OEntity es1)) as H3n
      by (unfold h3; by rewrite lookup_app_r, Nat.sub_diag by (unfold n; lia)).
    assert (h3 !! S n = Some (ODict dx)) as H3d.
    { unfold h3. rewrite lookup_app_r by (unfold n; lia).
      by replace (S n - length h) with 1 by (unfold n; lia). }
    assert (ranked_prop rk1 top h3) as Hr3.
    { apply (ranked_extend rk rk1 top h h3 (extends_app _ _) Hr).
      - intros y Hy. unfold rk1, n. repeat case_decide; lia.
      - intros y o Hy Ho. unfold h3 in Ho. rewrite lookup_app_r in Ho by done.
        destruct (y - length h) as [|[|m]] eqn:Ey; simpl in Ho; [| |done].
        + injection Ho as <-. assert (y = n) as -> by (unfold n; lia).
          split_and!.
          * unfold rk1. by rewrite decide_True.
          * intros q E. discriminate E.
          * by intros c ?%elem_of_nil.
        + injection Ho as <-. assert (y = S n) as -> by (unfold n; lia).
          split_and!.
          * unfold rk1. rewrite decide_False by lia. rewrite decide_True by done. lia.
          * intros q E. discriminate E.
          * by intros c ?%elem_of_nil. }
    assert (copying top d h rk l e dx [] [] h3 rk1) as Hinit.
    { unfold copying. fold n. split_and!.
      - apply extends_app.
      - done.
      - intros y Hy. unfold rk1. repeat case_decide; lia.
      - unfold rk1. by rewrite decide_True.
      - unfold h3. rewrite length_app. simpl. lia.
      - exists es1. split; [by apply entity_at_Some|]. by split_and!.
      - done.
      - constructor.
      - by intros c ?%elem_of_nil. }
    destruct (copy_loop close top d k h rk l e dx Hl Hr Hf Hnd Hcs)
      with (todo := child_list e) (done := @nil loc) (done' := @nil loc)
           (hi := h3) (rki := rk1)
      as (h4 & rk4 & done4' & E4 & Hinv4); [|done|done|].
    { intros hi x rki Hwfx Hri Hfx.
      destruct (IH k hi x rki Hwfx Hri Hfx)
        as (h'' & rk'' & ? & ? & ? & ? & ? & ? & _).
      by exists h'', rk''. }
    fold n in E4 |- *. rewrite E4. cbn [bind]. exists h4, rk4.
    destruct Hinv4 as (Hext & Hr4 & Hag & Hn & Hlen
                       & (es & Hes & Ecls & Eid & Epar & Ex & Ecl & Edv & Edk & Efid)
                       & Hdict & Hmir & Hpar).
    fold n in Hext, Hag, Hn, Hlen, Hes, Ex, Hdict, Hmir, Hpar.
    apply entity_at_Some in Hes as Hles.
    split_and!; try done.
    + simpl. split; [done|]. rewrite Hl, Hles. split_and!; try done.
      * lia.
      * exists dx. split; [done|]. by rewrite Ex.
      * by rewrite Edv, Ecl.
      * rewrite Ecl. eapply Forall2_impl; [exact Hmir|]. intros x y.
        apply mirror_mono_base. lia.
    + rewrite Hles. simpl. by rewrite Epar.
    + intros e' c' He' Hc'. rewrite Hes in He'. injection He' as <-.
      apply Hpar. by rewrite <- Ecl.
    + intros eo Heo. apply entity_at_Some in Heo. exists es. split; [done|].
      congruence.
  - (* an atom *)
    set (n := length h).
    set (rk1 := λ y, if decide (y = n) then rk l else rk y).
    destruct (Hr l _ Hl) as (Htop & _).
    assert ((h ++ [OAtom (a_with_parent None a)]) !! n
            = Some (OAtom (a_with_parent None a))) as Hn
      by (by rewrite lookup_app_r, Nat.sub_diag by (unfold n; lia)).
    exists (h ++ [OAtom (a_with_parent None a)]), rk1. split_and!.
    + done.
    + apply extends_app.
    + apply (ranked_extend rk rk1 top h _ (extends_app _ _) Hr).
      * intros y Hy. unfold rk1, n. case_decide; lia.
      * intros y o Hy Ho. rewrite lookup_app_r in Ho by done.
        destruct (y - length h) as [|m] eqn:Ey; simpl in Ho; [|done].
        injection Ho as <-. assert (y = n) as -> by (unfold n; lia).
        split_and!.
        -- unfold rk1. by rewrite decide_True.
        -- intros q E. discriminate E.
        -- by intros c ?%elem_of_nil.
    + intros y Hy. unfold rk1, n. case_decide; lia.
    + unfold rk1. by rewrite decide_True.
    + simpl. split; [done|]. fold n. by rewrite Hl, Hn.
    + fold n. by rewrite Hn.
    + intros e' c' He'. fold n in He'. apply entity_at_Some in He'. congruence.
    + intros e0 He0. apply entity_at_Some in He0. congruence.
Qed.

(** A deep copy and its original are strictly equal, in both directions. *)
Lemma mirror_strictly_equals (close : coord → coord → bool) (h0 h : heap)
    (base : nat) (cc : bool) :
  extends h0 h →
  ∀ d fuel l c,
    wf_node close d h0 l = true → mirror d h0 h base l c → d ≤ fuel →
    Entity.strictly_equals close fuel h l c cc = Ok true
    ∧ Entity.strictly_equals close fuel h c l cc = Ok true.
Proof.
  intros E. induction d as [|d IH]; intros fuel l c Hwf Hm Hf; [done|].
  destruct fuel as [|k]; [lia|]. simpl in Hwf, Hm. destruct Hm as [_ Hm].
  cbn [Entity.strictly_equals]. unfold Entity.same_type.
  destruct (h0 !! l) as [[e|a|w|dd]|] eqn:Hl; try done; rewrite (E l _ Hl).
  - destruct (h !! c) as [[e'|a'|w'|dd']|] eqn:Hc; try done.
    destruct Hm as (Ecls & Eid & _ & _ & _ & _ & Hall).
    destruct (h0 !! xtra e) as [[| | |dx]|]; try done. simpl in Hwf.
    apply andb_true_iff in Hwf as [_ Hcs]. rewrite forallb_forall in Hcs.
    pose proof (Forall2_length _ _ _ Hall) as Hlen.
    assert (∀ l1 l2, Forall2 (mirror d h0 h base) l1 l2 →
              (∀ x, x ∈ l1 → wf_node close d h0 x = true) →
              Entity.all_pairs (λ a b, Entity.strictly_equals close k h a b cc)
                (zip l1 l2) = Ok true
              ∧ Entity.all_pairs (λ a b, Entity.strictly_equals close k h a b cc)
                  (zip l2 l1) = Ok true) as Hpairs.
    { induction 1 as [|x y l1 l2 Hxy _ IHl]; intros Hw; simpl; [done|].
      destruct (IH k x y) as [-> ->]; [apply Hw; left|done|lia|]. simpl.
      apply IHl. intros x' Hx'. apply Hw. by right. }
    destruct (Hpairs _ _ Hall) as [H1 H2];
      [intros x Hx; by apply Hcs, list_elem_of_In|].
    split.
    + rewrite decide_True by done.
      rewrite decide_False by (intros ?; congruence).
      by rewrite decide_False by (intros ?; congruence).
    + rewrite decide_True by done.
      rewrite decide_False by (intros ?; congruence).
      by rewrite decide_False by (intros ?; congruence).
  - destruct (h !! c) as [[e'|a'|w'|dd']|] eqn:Hc; try done.
    destruct Hm as (Ei & Eco & _).
    rewrite Ei, Eco, Hwf. rewrite !bool_decide_eq_true_2 by done.
    by destruct cc.
Qed.

(** X24. [copy] of a well-formed node (a tree of entities and atoms whose
    entities have children of different ids and a dictionary for [xtra]),
    in an acyclic heap.  The call comes back with a new object; every
    object that existed is left as it was; the copy has no parent; it is a
    deep copy made of new objects only: same class and id, a dictionary of
    its own for [xtra] with the same content, children that are deep copies
    of the children in the same order, indexed under the same ids and with
    the copy as parent; and the copy and the original are strictly equal,
    in both directions, with and without the comparison of coordinates. *)
Theorem copy_deep (close : coord → coord → bool) (rk : loc → nat)
    (top fuel d : nat) (h : heap) (l : loc) :
  ranked rk top h → wf_node close d h l = true → 2 * top < fuel → d ≤ fuel →
  ∃ h', Entity.copy fuel h l = Ret (length h) h'
    ∧ extends h h'
    ∧ get_parent h' (length h) = Ok None
    ∧ mirror d h h' (length h) l (length h)
    ∧ (∀ cc, Entity.strictly_equals close fuel h' (length h) l cc = Ok true
             ∧ Entity.strictly_equals close fuel h' l (length h) cc = Ok true)
    ∧ (∀ e, entity_at h l = Some e →
         ∃ e', entity_at h' (length h) = Some e'
           ∧ cls e' = cls e ∧ _id e' = _id e
           ∧ length (child_list e') = length (child_list e)
           ∧ xtra e' ≠ xtra e ∧ h' !! xtra e' = h !! xtra e
           ∧ dict_values (child_dict e') = child_list e'
           ∧ ∀ c', c' ∈ child_list e' →
               length h ≤ c' ∧ get_parent h' c' = Ok (Some (length h))).
Proof.
  intros Hr%ranked_ranked_prop Hwf Hf Hd.
  pose proof (wf_node_lookup close d h l Hwf) as Hll.
  destruct (lookup_lt_is_Some_2 h l Hll) as [o Ho].
  destruct (Hr l o Ho) as (Htop & _).
  destruct (copy_spec close top d fuel h l rk Hwf Hr)
    as (h' & rk' & E & Hext & _ & _ & _ & Hm & Hpar & Hch & _); [lia|].
  exists h'. split_and!; try done.
  - unfold get_parent. by rewrite Hpar.
  - intros cc.
    destruct (mirror_strictly_equals close h h' (length h) cc Hext d fuel l
                (length h) Hwf Hm Hd) as [H1 H2]. by split.
  - intros e He. apply entity_at_Some in He as Hl.
    destruct d as [|d']; [done|]. simpl in Hm. destruct Hm as [_ Hm].
    rewrite Hl in Hm.
    destruct (h' !! length h) as [[e'|a'|w'|dd']|] eqn:Hc; try done.
    destruct Hm as (Ecls & Eid & Hx & (dx & Hd0 & Hd') & Edv & _ & Hall).
    exists e'. split; [by apply entity_at_Some|]. split_and!; try done.
    + symmetry. by eapply Forall2_length.
    + intros Ex. apply lookup_lt_Some in Hd0. lia.
    + by rewrite Hd0, Hd'.
    + intros c' Hc'. split.
      * apply list_elem_of_lookup in Hc' as [i Hi].
        destruct (Forall2_lookup_r _ _ _ _ _ Hall Hi) as (x & _ & Hx').
        by eapply mirror_base.
      * unfold get_parent. rewrite (Hch e' c'); [done| |done].
        by apply entity_at_Some.
Qed.

Lemma copy_deep_witness :
  ranked Scenario.disordered_residue_rank 2 Scenario.disordered_residue
  ∧ wf_node (λ a b, bool_decide (a = b)) 2 Scenario.disordered_residue 1 = true
  ∧ ∃ h', Entity.copy 5 Scenario.disordered_residue 1 = Ret 7 h'
      ∧ get_parent h' 7 = Ok None
      ∧ Entity.strictly_equals (λ a b, bool_decide (a = b)) 5 h' 7 1 true = Ok true.
Proof.
  assert (ranked Scenario.disordered_residue_rank 2 Scenario.disordered_residue)
    as Hr by reflexivity.
  split; [exact Hr|]. split; [reflexivity|].
  destruct (copy_deep (λ a b, bool_decide (a = b)) _ 2 5 2
              Scenario.disordered_residue 1 Hr)
    as (h' & E & _ & Hp & _ & Heq & _); [reflexivity|lia|lia|].
  exists h'. split; [exact E|]. split; [exact Hp|]. apply Heq.
Defined.

(** *** The cached full id of a copy *)

(** X25. [copy] keeps the cached full id of the original.  The shallow
    copy takes the cache along with the other attributes, [detach_parent]
    clears the parent only, and adding the copied children resets the
    caches of the children, not that of the copy.  So the copy of a
    well-formed entity has no parent, the path that its parent references
    give is its id alone, and its cache is the cache of the original: when
    the original has a cached full id, [get_full_id] on the copy returns
    that path, whatever it is, and leaves the heap as it is. *)
Theorem copy_keeps_cached_full_id (close : coord → coord → bool)
    (rk : loc → nat) (top fuel d : nat) (h : heap) (l : loc) (e : Entity) :
  ranked rk top h → wf_node close d h l = true → 2 * top < fuel →
  entity_at h l = Some e →
  ∃ h' e', Entity.copy fuel h l = Ret (length h) h'
    ∧ entity_at h' (length h) = Some e'
    ∧ get_parent h' (length h) = Ok None
    ∧ full_id e' = full_id e
    ∧ (∀ g, Entity._generate_full_id g h' (length h) = Ok [_id e])
    ∧ (∀ f, full_id e = Some f →
         ∀ g, Entity.get_full_id g h' (length h) = Ret f h').
Proof.
  intros Hr%ranked_ranked_prop Hwf Hf He.
  apply entity_at_Some in He as Hl.
  destruct (Hr l _ Hl) as (Htop & _).
  destruct (copy_spec close top d fuel h l rk Hwf Hr)
    as (h' & rk' & E & _ & _ & _ & _ & Hm & Hpar & _ & Hfid); [lia|].
  destruct (Hfid e He) as (e' & He' & Ef).
  apply entity_at_Some in He' as Hl'.
  assert (_id e' = _id e) as Eid.
  { destruct d as [|d']; [done|]. simpl in Hm. destruct Hm as [_ Hm].
    rewrite Hl, Hl' in Hm. by destruct Hm as (_ & ? & _). }
  assert (get_parent h' (length h) = Ok None) as Hp
    by (unfold get_parent; by rewrite Hpar).
  exists h', e'. split_and!; try done.
  - intros g. apply generate_full_id_root; [|done].
    apply get_id_Ok. rewrite Hl'. simpl. by rewrite Eid.
  - intros f Hc g. unfold Entity.get_full_id. by rewrite He', Ef, Hc.
Qed.

Lemma copy_keeps_cached_full_id_witness :
  ranked (λ l, if decide (l = 0) then 1 else 0) 1 Scenario.chain_of_two_residues
  ∧ wf_node (λ a b, bool_decide (a = b)) 1 Scenario.chain_of_two_residues 2 = true
  ∧ ∃ h', Entity.copy 3 Scenario.chain_of_two_residues 2 = Ret 6 h'
      ∧ get_parent h' 6 = Ok None
      ∧ Entity._generate_full_id 3 h' 6 = Ok [IdRes " " 10 " "]
      ∧ Entity.get_full_id 3 h' 6 = Ret [IdStr "A"; IdRes " " 10 " "] h'.
Proof.
  assert (ranked (λ l, if decide (l = 0) then 1 else 0) 1
            Scenario.chain_of_two_residues) as Hr by reflexivity.
  split; [exact Hr|]. split; [reflexivity|].
  destruct (copy_keeps_cached_full_id (λ a b, bool_decide (a = b)) _ 1 3 1
              Scenario.chain_of_two_residues 2
              (mkEntity Residue (IdRes " " 10 " ")
                 (Some [IdStr "A"; IdRes " " 10 " "]) (Some 0) [] [] 3)
              Hr eq_refl)
    as (h' & e' & E & _ & Hp & _ & Hg & Hc); [lia|reflexivity|].
  exists h'. split; [exact E|]. split; [exact Hp|]. split; [apply Hg|].
  by apply Hc.
Defined.

(** *** [strictly_equals] through wrappers *)

Lemma all_pairs_alternatives (f : loc → loc → res bool) (d : dict loc) :
  NoDup (dict_keys d) →
  (∀ c, c ∈ dict_values d → f c c = Ok true) →
  Entity.all_pairs f (omap (λ kv, pair kv.2 <$> dict_get kv.1 d) d) = Ok true.
Proof.
  intros Hnd Hf.
  assert (∀ d1, d1 ⊆ d →
            Entity.all_pairs f (omap (λ kv, pair kv.2 <$> dict_get kv.1 d) d1)
            = Ok true) as Hsub; [|by apply Hsub].
  induction d1 as [|[k c] d1 IH]; intros Hd1; [done|].
  assert ((k, c) ∈ d) as Hin by (apply Hd1; left).
  csimpl. rewrite (dict_get_NoDup k c d Hnd Hin). simpl.
  rewrite Hf by (apply list_elem_of_fmap; by exists (k, c)).
  apply IH. intros x Hx. apply Hd1. by right.
Qed.

(** X26. [strictly_equals] through wrappers.  It is reflexive on every
    tree of entities, atoms and wrappers in which each wrapper has an
    object selected: the wrapper compares its own id, the id of its
    selected child and the ids of its alternatives with themselves, and
    then each alternative with itself.  Between two wrappers one of which
    has nothing selected, the answer is [False] when their ids differ, and
    otherwise the call raises [AttributeError], [get_id] being looked up
    on [None]. *)
Theorem wrapper_strictly_equals (close : coord → coord → bool) (d : nat) :
  ∀ fuel h l cc,
    d ≤ fuel →
    (strict_tree close d h l = true →
     Entity.strictly_equals close fuel h l l cc = Ok true)
    ∧ (∀ w v l', 0 < fuel →
         h !! l = Some (ODisordered w) → h !! l' = Some (ODisordered v) →
         selected_child w = None ∨ selected_child v = None →
         Entity.strictly_equals close fuel h l l' cc
         = if decide (d_id w = d_id v) then Raise AttributeError else Ok false).
Proof.
  induction d as [|d IH]; intros fuel h l cc Hf; (split; [|
    intros w v l' Hfuel Hl Hl' Hsel; destruct fuel as [|k]; [lia|];
    cbn [Entity.strictly_equals]; rewrite Hl, Hl';
    destruct (decide (d_id w = d_id v)) as [E|E];
      [rewrite decide_False by (by intros ?)|by rewrite decide_True];
    destruct Hsel as [-> | ->]; [done|by destruct (selected_child w)]]);
    [done|].
  intros Ht. destruct fuel as [|k]; [lia|]. simpl in Ht.
  cbn [Entity.strictly_equals].
  destruct (h !! l) as [[e|a|w|dd]|] eqn:Hl; try done.
  - unfold Entity.same_type. rewrite Hl. rewrite decide_True by done.
    rewrite decide_False by (by intros ?). rewrite decide_False by (by intros ?).
    apply all_pairs_diag. intros c Hc. apply IH; [lia|].
    rewrite forallb_forall in Ht. by apply Ht, list_elem_of_In.
  - rewrite bool_decide_eq_true_2 by done. rewrite Ht. by destruct cc.
  - apply andb_true_iff in Ht as [[Hs Hnd%bool_decide_eq_true]%andb_true_iff Halt].
    rewrite decide_False by (by intros ?).
    destruct (selected_child w) as [s|]; [|done].
    destruct (hier_get_id h s Hs) as (i & _ & -> & _). cbn [rbind].
    rewrite decide_False by (by intros ?).
    rewrite bool_decide_eq_true_2 by done.
    apply all_pairs_alternatives; [done|]. intros c Hc. apply IH; [lia|].
    rewrite forallb_forall in Halt. by apply Halt, list_elem_of_In.
Qed.

Lemma wrapper_strictly_equals_witness :
  3 ≤ 3
  ∧ strict_tree (λ a b, bool_decide (a = b)) 3 Scenario.gly_selected 0 = true
  ∧ Entity.strictly_equals (λ a b, bool_decide (a = b)) 3
      Scenario.gly_selected 0 0 true = Ok true
  ∧ Entity.strictly_equals (λ a b, bool_decide (a = b)) 3
      Scenario.disordered_residue 0 0 true = Raise AttributeError.
Proof.
  split; [lia|]. split; [reflexivity|]. split.
  - apply (wrapper_strictly_equals _ 3); [lia|reflexivity].
  - refine (proj2 (wrapper_strictly_equals (λ a b, bool_decide (a = b)) 3 3
                     Scenario.disordered_residue 0 true _) _ _ 0 _ eq_refl eq_refl _);
      [lia|lia|by left].
Defined.

(** *** [==] among the children of an entity *)

Lemma py_eq_self (h : heap) (l : loc) (e : Entity) :
  caches_ok h → entity_at h l = Some e →
  Entity.py_eq h (Some l) (Some l) = Ok true.
Proof.
  intros Hok He. destruct (Hok l e He) as [_ Hp].
  unfold Entity.py_eq, Entity.dunder_eq, Entity.__eq__.
  rewrite (proj1 (entity_at_Some h l e) He).
  rewrite (same_type_Some h e e l He eq_refl).
  destruct (parent e) as [q|] eqn:Hq; simpl.
  - destruct Hp as (f & -> & _); [done|]. simpl.
    by rewrite bool_decide_eq_true_2.
  - by rewrite bool_decide_eq_true_2.
Qed.

(** X27. Among the children of one entity [==] is identity.  The paths
    that [__eq__] compares end with the ids of the operands, and the
    children of an entity bear different ids; so in every heap that [add],
    [insert] and [detach_child] leave, two entities of the same list of
    children are equal exactly when they are the same object, whatever
    their classes and whether or not their parent is set.  This is what
    makes [child_list.remove(child)] in [detach_child] take out the child
    itself. *)
Theorem eq_siblings_identity (h : heap) (p : loc) (e : Entity) (c1 c2 : loc) :
  hierarchy_inv h → entity_at h p = Some e →
  c1 ∈ child_list e → c2 ∈ child_list e →
  is_Some (entity_at h c1) → is_Some (entity_at h c2) →
  Entity.py_eq h (Some c1) (Some c2) = Ok (bool_decide (c1 = c2)).
Proof.
  intros [Hok Hch] He H1 H2 [e1 He1] [e2 He2].
  destruct (Hch p e He) as ((_ & _ & Hsy) & _ & Hcache).
  destruct (decide (c1 = c2)) as [->|Hne].
  - rewrite bool_decide_eq_true_2 by done. by apply (py_eq_self h c2 e2).
  - rewrite bool_decide_eq_false_2 by done.
    destruct (py_eq_distinct_children h c1 c2 Hne Hok) as [E|E]; [| |done|].
    + intros ec Hec. by apply (Hcache c2 ec).
    + intros i j Hi Hj ->. apply Hne.
      assert (dict_get j (child_dict e) = Some c1) as G1 by (by apply Hsy).
      assert (dict_get j (child_dict e) = Some c2) as G2 by (by apply Hsy).
      congruence.
    + apply entity_at_Some in He1, He2.
      by destruct (py_eq_entities h c1 c2 e1 e2 He1 He2).
Qed.

Lemma eq_siblings_identity_witness :
  Entity.py_eq Scenario.chain_of_two_residues (Some 2) (Some 4) = Ok false
  ∧ Entity.py_eq Scenario.chain_of_two_residues (Some 4) (Some 4) = Ok true.
Proof.
  split.
  - refine (eq_siblings_identity Scenario.chain_of_two_residues 0 _ 2 4
              chain_of_two_residues_inv eq_refl _ _ _ _).
    + simpl. left.
    + simpl. right. left.
    + by eexists.
    + by eexists.
  - refine (eq_siblings_identity Scenario.chain_of_two_residues 0 _ 4 4
              chain_of_two_residues_inv eq_refl _ _ _ _).
    + simpl. right. left.
    + simpl. right. left.
    + by eexists.
    + by eexists.
Defined.

(** *** [center_of_mass], level by level *)

Lemma uniform_obj (d : nat) (h : heap) (l : loc) :
  uniform d h l = true → ∃ o, h !! l = Some o ∧ ∀ w, o ≠ ODisordered w.
Proof.
  destruct d; simpl; destruct (h !! l) as [[]|]; try done;
    intros _; eexists; (split; [done|]); by intros w.
Qed.

Lemma uniform_level (g d : nat) (h : heap) (l : loc) :
  uniform d h l = true → Entity.attr_level (S g) h l = Ok (node_level h l).
Proof.
  unfold node_level. destruct d; simpl; by destruct (h !! l) as [[]|].
Qed.

Lemma uniform_kids (d : nat) (h : heap) (l : loc) :
  uniform (S d) h l = true → Forall (λ x, uniform d h x = true) (kids h l).
Proof.
  unfold kids. simpl. destruct (h !! l) as [[e| | |]|]; try done.
  intros Hf. rewrite forallb_forall in Hf. apply Forall_forall.
  intros x Hx. by apply Hf, list_elem_of_In.
Qed.

Lemma uniform_expand (d : nat) (h : heap) (ls : list loc) :
  Forall (λ x, uniform (S d) h x = true) ls →
  Forall (λ x, uniform d h x = true) (expand h ls).
Proof.
  intros Hls. apply Forall_bind. eapply Forall_impl; [exact Hls|].
  intros x. apply uniform_kids.
Qed.

Lemma uniform_unpack (g d : nat) (h : heap) (l : loc) :
  uniform (S d) h l = true → Entity.unpack (S g) h l = Ok (kids h l).
Proof.
  intros Hu. pose proof (uniform_kids d h l Hu) as Hk. unfold kids in *.
  simpl in Hu. destruct (h !! l) as [[e| | |]|] eqn:Hl; try done.
  apply (unpack_entity_children g h l e); [by apply entity_at_Some|].
  intros c Hc. rewrite Forall_forall in Hk. by apply (uniform_obj d), Hk.
Qed.

Lemma levels_of (g : nat) (h : heap) (q : list loc) :
  (∀ x, x ∈ q → ∃ d, uniform d h x = true) →
  Entity.res_map (Entity.attr_level (S g) h) q = Ok (node_level h <$> q).
Proof.
  intros Hq. apply res_map_Ok. intros x Hx. destruct (Hq x Hx) as [d Hd].
  by apply (uniform_level g d).
Qed.

Lemma only_atom_level_entity (h : heap) (q : list loc) (x : loc) (d : nat) :
  x ∈ q → uniform (S d) h x = true →
  Entity.only_atom_level (node_level h <$> q) = false.
Proof.
  intros Hx Hu. unfold Entity.only_atom_level. apply bool_decide_eq_false.
  intros [_ Hall]. rewrite Forall_fmap, Forall_forall in Hall.
  specialize (Hall x Hx). simpl in Hall, Hu. unfold node_level in Hall.
  destruct (h !! x) as [[e| | |]|]; try done. by destruct (cls e).
Qed.

Lemma only_atom_level_uniform (h : heap) (q : list loc) (d : nat) :
  Forall (λ x, uniform d h x = true) q →
  Entity.only_atom_level (node_level h <$> q) = bool_decide (d = 0 ∧ q ≠ []).
Proof.
  intros Hq. destruct q as [|x q].
  { unfold Entity.only_atom_level. simpl.
    by rewrite bool_decide_eq_false_2 by (by intros [? ?]). }
  destruct d as [|d].
  - rewrite (bool_decide_eq_true_2 (0 = 0 ∧ _)) by done.
    unfold Entity.only_atom_level. apply bool_decide_eq_true. split; [done|].
    rewrite Forall_fmap. eapply Forall_impl; [exact Hq|].
    intros y Hy. simpl in *. unfold node_level.
    by destruct (h !! y) as [[]|].
  - rewrite (bool_decide_eq_false_2 (S d = 0 ∧ _)) by (by intros [? ?]).
    apply (only_atom_level_entity h _ x d); [left|].
    by apply Forall_cons in Hq as [? _].
Qed.

(** The turns of the loop that pop the entities [cur] of one level, the
    deque holding after them the children [acc] of the entities of that
    level popped before. *)
Lemma unpack_level (g : nat) (h : heap) (d : nat) :
  ∀ cur acc f,
    cur ≠ [] →
    Forall (λ x, uniform (S d) h x = true) cur →
    Forall (λ x, uniform d h x = true) acc →
    Entity.unpack_loop (S g) (length cur + f) h (cur ++ acc)
    = if bool_decide (d = 0 ∧ acc ++ expand h cur ≠ [])
      then Ok (acc ++ expand h cur)
      else Entity.unpack_loop (S g) f h (acc ++ expand h cur).
Proof.
  induction cur as [|x cur IH]; intros acc f Hne Hcur Hacc; [done|].
  apply Forall_cons in Hcur as [Hx Hcur].
  pose proof (uniform_kids d h x Hx) as Hkx.
  cbn [length Nat.add app Entity.unpack_loop].
  rewrite (uniform_unpack g d h x Hx). cbn [rbind].
  rewrite levels_of; cycle 1.
  { intros y [[Hy|Hy]%elem_of_app|Hy]%elem_of_app.
    - exists (S d). by apply (proj1 (Forall_forall _ _) Hcur).
    - exists d. by apply (proj1 (Forall_forall _ _) Hacc).
    - exists d. by apply (proj1 (Forall_forall _ _) Hkx). }
  cbn [rbind]. unfold expand. rewrite bind_cons. fold (expand h cur).
  destruct cur as [|x' cur'].
  - simpl. unfold expand. simpl. rewrite !app_nil_r.
    rewrite (only_atom_level_uniform h _ d) by (by apply Forall_app).
    done.
  - apply Forall_cons in Hcur as Hx'. destruct Hx' as [Hx' _].
    rewrite (only_atom_level_entity h _ x' d); [|left|done].
    rewrite <- (app_assoc (x' :: cur') acc (kids h x)).
    rewrite (IH (acc ++ kids h x) f); [|done|done|by apply Forall_app].
    by rewrite <- !app_assoc.
Qed.

Lemma frontier_nil (d : nat) (h : heap) : frontier d h [] = [].
Proof. induction d as [|d IH]; [done|]. simpl. by rewrite IH. Qed.

(** The loop over a hierarchy whose atoms are all [S d] levels below: it
    goes through the entities level by level, and stops with the atoms in
    the deque, in the order of the hierarchy; when there is no atom it
    ends by popping from the empty deque. *)
Lemma unpack_levels (g : nat) (h : heap) :
  ∀ d cur fuel,
    cur ≠ [] → Forall (λ x, uniform (S d) h x = true) cur →
    pops (S d) h cur < fuel →
    Entity.unpack_loop (S g) fuel h cur
    = if decide (frontier (S d) h cur = []) then Raise IndexError
      else Ok (frontier (S d) h cur).
Proof.
  induction d as [|d IH]; intros cur fuel Hne Hcur Hf.
  - cbn [pops] in Hf. rewrite Nat.add_0_r in Hf. cbn [frontier].
    assert (∃ f, fuel = length cur + f ∧ 0 < f) as (f & -> & Hpos)
      by (exists (fuel - length cur); lia).
    pose proof (unpack_level g h 0 cur [] f Hne Hcur (Forall_nil_2 _)) as E.
    rewrite app_nil_r in E. cbn [app] in E. rewrite E.
    destruct (decide (expand h cur = [])) as [->|Hex].
    + rewrite bool_decide_eq_false_2 by (by intros [? ?]).
      destruct f; [lia|done].
    + by rewrite bool_decide_eq_true_2.
  - cbn [pops] in Hf.
    change (frontier (S (S d)) h cur) with (frontier (S d) h (expand h cur)).
    assert (∃ f, fuel = length cur + f
                 ∧ length (expand h cur) + pops d h (expand h (expand h cur)) < f)
      as (f & -> & Hpos) by (exists (fuel - length cur); lia).
    pose proof (unpack_level g h (S d) cur [] f Hne Hcur (Forall_nil_2 _)) as E.
    rewrite app_nil_r in E. cbn [app] in E. rewrite E.
    rewrite bool_decide_eq_false_2 by (by intros [? ?]).
    destruct (decide (expand h cur = [])) as [E0|Hex].
    + rewrite E0. rewrite (frontier_nil (S d)).
      rewrite decide_True by done. destruct f; [lia|done].
    + apply (IH (expand h cur)); [done|by apply uniform_expand|done].
Qed.

(** X28. [center_of_mass] on a hierarchy without wrappers whose atoms are
    all at the same depth (a structure, its models, their chains, their
    residues, their atoms, or a part of it).  The loop pops the entities
    level by level and ends when the deque holds atoms only: the result is
    [np.average] over the coordinates of all the atoms below the entity,
    in the order of the hierarchy, weighted by their masses unless
    [geometric] is [True].  When the entity has children and no atom
    below it, the loop ends by popping from the empty deque and the call
    raises [IndexError]. *)
Theorem center_of_mass_levels
    (np_average : list coord → option (list float) → res coord)
    (fuel d : nat) (h : heap) (l : loc) (e : Entity) (atoms : list Atom)
    (geometric : bool) :
  entity_at h l = Some e → child_list e ≠ [] →
  uniform (S d) h l = true → pops (S d) h [l] < fuel →
  Forall2 (λ c a, h !! c = Some (OAtom a)) (frontier (S d) h [l]) atoms →
  Entity.center_of_mass np_average fuel h l geometric
  = if decide (atoms = []) then Raise IndexError
    else np_average (a_coord <$> atoms)
           (if geometric then None else Some (a_mass <$> atoms)).
Proof.
  intros He Hne Hu Hf Hat. unfold Entity.center_of_mass. rewrite He.
  rewrite decide_False by (by destruct (child_list e)).
  destruct fuel as [|g]; [lia|].
  rewrite (unpack_levels g h d [l] (S g)); [|done|by repeat constructor|done].
  destruct (decide (frontier (S d) h [l] = [])) as [E|E].
  - rewrite E in Hat. apply Forall2_nil_inv_l in Hat as ->. done.
  - rewrite decide_False by (intros ->; by apply Forall2_nil_inv_r in Hat).
    cbn [rbind]. rewrite (res_map_Forall2 _ _ atoms); [done|].
    eapply Forall2_impl; [exact Hat|]. intros c a Hc. simpl. by rewrite Hc.
Qed.

Lemma center_of_mass_levels_witness :
  uniform 2 Scenario.chain_with_atoms 0 = true
  ∧ pops 2 Scenario.chain_with_atoms [0] < 4
  ∧ Entity.center_of_mass (λ cs ms, Ok (default (0, 0, 0)%Z (last cs))) 4
      Scenario.chain_with_atoms 0 false
    = Ok (4, 0, 0)%Z.
Proof.
  split; [reflexivity|]. split; [simpl; lia|].
  rewrite (center_of_mass_levels _ 4 1 Scenario.chain_with_atoms 0
             (mkEntity Chain (IdStr "A") None None [2; 4]
                [(IdRes " " 10 " ", 2); (IdRes " " 11 " ", 4)] 1)
             [mkAtom (IdStr "N") (Some 2) (0, 0, 0)%Z 14%Z;
              mkAtom (IdStr "CA") (Some 2) (1, 0, 0)%Z 12%Z;
              mkAtom (IdStr "N") (Some 4) (4, 0, 0)%Z 14%Z] false eq_refl);
    [reflexivity|discriminate|reflexivity|simpl; lia|repeat constructor].
Defined.

(** *** A copy next to its original *)

(** X29. A copy bears the id of its original, so it cannot be added next
    to it: for a well-formed child [l] of an entity [p] whose index is in
    step with its children, [p.add(l.copy())] makes the copy and then
    raises [PDBConstructionException]; the heap is left as [copy] left it,
    with every object that existed unchanged and the copy without a
    parent. *)
Theorem add_copy_duplicate (close : coord → coord → bool) (rk : loc → nat)
    (top fuel d : nat) (h : heap) (p l : loc) (ep : Entity) :
  ranked rk top h → wf_node close d h l = true → 2 * top < fuel →
  entity_at h p = Some ep → index_in_sync h ep → l ∈ child_list ep →
  ∃ h', Entity.copy fuel h l = Ret (length h) h'
    ∧ Entity.add fuel h' p (length h) = Exc PDBConstructionException h'
    ∧ extends h h'
    ∧ get_parent h' (length h) = Ok None.
Proof.
  intros Hr%ranked_ranked_prop Hwf Hf Hp (_ & _ & Hsy)%index_in_sync_prop Hl.
  pose proof (wf_node_lookup close d h l Hwf) as Hll.
  destruct (lookup_lt_is_Some_2 h l Hll) as [o Ho].
  destruct (Hr l o Ho) as (Htop & _).
  destruct (copy_spec close top d fuel h l rk Hwf Hr)
    as (h' & rk' & E & Hext & _ & _ & _ & Hm & Hpar & _); [lia|].
  destruct (mirror_id d h h' (length h) l (length h) Hm) as (i & Hi & Hi' & _).
  exists h'. split_and!; [done| |done|].
  - apply entity_at_Some in Hp as Hp'.
    assert (entity_at h' p = Some ep) as Hp''
      by (apply entity_at_Some; by apply Hext).
    rewrite (add_unfold fuel h' p (length h) ep i Hp'')
      by (by apply get_id_Ok).
    assert (dict_get i (child_dict ep) = Some l) as Hg by (by apply Hsy).
    assert (dict_mem i (child_dict ep) = true) as ->
      by (apply dict_mem_true; by rewrite Hg).
    done.
  - unfold get_parent. by rewrite Hpar.
Qed.

Lemma add_copy_duplicate_witness :
  ranked (λ l, match l with 0 => 2 | 2 | 4 => 1 | _ => 0 end) 2
    Scenario.chain_with_atoms
  ∧ wf_node (λ a b, bool_decide (a = b)) 2 Scenario.chain_with_atoms 2 = true
  ∧ ∃ h', Entity.copy 5 Scenario.chain_with_atoms 2 = Ret 9 h'
      ∧ Entity.add 5 h' 0 9 = Exc PDBConstructionException h'.
Proof.
  assert (ranked (λ l, match l with 0 => 2 | 2 | 4 => 1 | _ => 0 end) 2
            Scenario.chain_with_atoms) as Hr by reflexivity.
  assert (wf_node (λ a b, bool_decide (a = b)) 2 Scenario.chain_with_atoms 2
          = true) as Hwf by reflexivity.
  split; [exact Hr|]. split; [exact Hwf|].
  destruct (add_copy_duplicate (λ a b, bool_decide (a = b)) _ 2 5 2
              Scenario.chain_with_atoms 0 2
              (mkEntity Chain (IdStr "A") None None [2; 4]
                 [(IdRes " " 10 " ", 2); (IdRes " " 11 " ", 4)] 1)
              Hr Hwf)
    as (h' & E & Ha & _); [lia|reflexivity|reflexivity|simpl; left|].
  exists h'. split; [exact E|exact Ha].
Defined.
